(** * Audacity: the resampling wrapper, the tags and the PCM export

    A shallow embedding of [src/Resample.cpp] (the wrapper around
    libsoxr), of the [Tags] class of [src/Tags.cpp], and of
    [src/export/ExportPCM.cpp].

    The wrapper is three small methods whose whole content is which calls
    they make to the converter library and to the preference store, and
    with which arguments.  They are therefore embedded as finite programs
    over an explicit signature of external calls ([extE]); a program is
    given meaning by a handler, which answers every call and threads the
    state of the outside world, and [run] records the calls made. *)

From Stdlib Require Import ZArith List Bool Lia Floats.
From stdpp Require Import base option gmap strings.
Import ListNotations.

Local Open Scope Z_scope.

(** ** size_t *)

(** [size_t] is an unsigned 64-bit integer: a [Z] in [0, 2^64). *)
Module SizeT.

Definition width : Z := 64.
Definition modulus : Z := 2 ^ width.

Definition wrap (z : Z) : Z := z mod modulus.

Definition in_range (n : Z) : Prop := 0 <= n < modulus.

(** [~n] on a [size_t]. *)
Definition lnot (n : Z) : Z := wrap (Z.lnot n).

(** [(ptrdiff_t)n < 0]: the top bit of the word. *)
Definition msb (n : Z) : bool := Z.testbit n (width - 1).

(** How libsoxr reads the input length it is given: a length with the
    top bit set is a flush request for the complemented length. *)
Definition flush_requested (ilen0 : Z) : bool := msb ilen0.
Definition decoded_len (ilen0 : Z) : Z :=
  if msb ilen0 then lnot ilen0 else ilen0.

End SizeT.

(** ** The external calls *)

(** A live converter handle ([soxr_t], never null); a nullable handle is an
    [option soxr_t]. *)
Definition soxr_t : Type := positive.

(** [soxr_quality_spec_t].  libsoxr computes it from the recipe and the
    flags alone, so it is kept as that pair. *)
Record soxr_quality_spec_t : Type := soxr_quality_spec
  { q_recipe : Z; q_flags : Z }.

(** Values of soxr.h. *)
Definition SOXR_QQ : Z := 0.
Definition SOXR_LQ : Z := 1.
Definition SOXR_HQ : Z := 4.
Definition SOXR_VHQ : Z := 6.
Definition SOXR_VR : Z := 32.

(** [soxr_error_t]: [None] is success. *)
Definition soxr_error_t : Type := option string.

(** What one [soxr_process] call leaves behind: its status, what it stored
    through the [idone] and [odone] pointers ([None]: nothing was stored),
    and the samples it put at the start of the output buffer. *)
Record soxr_process_result : Type := mk_process_result
  { sp_error : soxr_error_t;
    sp_idone : option Z;
    sp_odone : option Z;
    sp_written : list float }.

(** [EnumSetting] as Resample.cpp initialises it. *)
Record EnumSetting : Type := mk_EnumSetting
  { es_key : string;
    es_symbols : list (string * string);
    es_nSymbols : nat;
    es_defaultSymbol : nat;
    es_intValues : list Z;
    es_oldKey : string }.

(** The calls out of Resample.cpp.  [soxr_create] is always called with
    null error, io-spec and runtime-spec pointers, which are left out; the
    [idone] and [odone] pointers of [soxr_process] are never null, and what
    is stored through them is part of the reply. *)
Inductive extE : Type -> Type :=
| ReadInt (setting : EnumSetting) : extE Z
| soxr_create (input_rate output_rate : float) (num_channels : Z)
    (q_spec : soxr_quality_spec_t) : extE (option soxr_t)
| soxr_set_io_ratio (h : option soxr_t) (io_ratio : float) (slew_len : Z) :
    extE soxr_error_t
| soxr_process (h : option soxr_t) (inBuffer : list float) (ilen : Z)
    (outBuffer : list float) (olen : Z) : extE soxr_process_result.

(** A finite program over the external calls.  [Undefined] is a step with
    no defined behaviour (an index outside an array). *)
Inductive Prog (A : Type) : Type :=
| Ret (a : A)
| Undefined
| Vis {R : Type} (e : extE R) (k : R -> Prog A).

Arguments Ret {A} a.
Arguments Undefined {A}.
Arguments Vis {A R} e k.

Fixpoint bind {A B : Type} (p : Prog A) (f : A -> Prog B) : Prog B :=
  match p with
  | Ret a => f a
  | Undefined => Undefined
  | Vis e k => Vis e (fun r => bind (k r) f)
  end.

Definition call {R : Type} (e : extE R) : Prog R := Vis e Ret.

Declare Scope prog_scope.
Delimit Scope prog_scope with prog.
Notation "'do' x <- p ; q" := (bind p (fun x => q))
  (at level 10, x name, p at level 100, q at level 200) : prog_scope.

(** One call and the reply it got. *)
Inductive ext_call : Type :=
| Call {R : Type} (e : extE R) (reply : R).

(** A handler answers every call from a world [W]. *)
Definition handler (W : Type) : Type := forall R : Type, extE R -> W -> R * W.

Record outcome (W A : Type) : Type := mk_outcome
  { calls : list ext_call;
    world : W;
    value : option A }.

Arguments mk_outcome {W A} calls world value.
Arguments calls {W A} o.
Arguments world {W A} o.
Arguments value {W A} o.

Fixpoint run {W A : Type} (hd : handler W) (p : Prog A) (w : W) : outcome W A :=
  match p with
  | Ret a => mk_outcome [] w (Some a)
  | Undefined => mk_outcome [] w None
  | Vis e k =>
      let rw := hd _ e w in
      let o := run hd (k (fst rw)) (snd rw) in
      mk_outcome (Call e (fst rw) :: calls o) (world o) (value o)
  end.

(** ** Resample.cpp *)

Definition methodNames : list (string * string) :=
  [ ("LowQuality", "Low Quality (Fastest)");
    ("MediumQuality", "Medium Quality");
    ("HighQuality", "High Quality");
    ("BestQuality", "Best Quality (Slowest)") ]%string.

Definition numMethods : nat := length methodNames.

Definition fastMethodKey : string := "/Quality/LibsoxrSampleRateConverterChoice".
Definition bestMethodKey : string := "/Quality/LibsoxrHQSampleRateConverterChoice".
Definition oldFastMethodKey : string := "/Quality/LibsoxrSampleRateConverter".
Definition oldBestMethodKey : string := "/Quality/LibsoxrHQSampleRateConverter".

Definition fastMethodDefault : nat := 1. (* Medium Quality *)
Definition bestMethodDefault : nat := 3. (* Best Quality *)

Definition intChoicesMethod : list Z := [0; 1; 2; 3].

Definition FastMethodSetting : EnumSetting :=
  mk_EnumSetting fastMethodKey methodNames numMethods fastMethodDefault
    intChoicesMethod oldFastMethodKey.

Definition BestMethodSetting : EnumSetting :=
  mk_EnumSetting bestMethodKey methodNames numMethods bestMethodDefault
    intChoicesMethod oldBestMethodKey.

(** The members of a [Resample]. *)
Record Resample : Type := mk_Resample
  { mMethod : Z;
    mHandle : option soxr_t;
    mbWantConstRateResampling : bool }.

Local Open Scope prog_scope.

(** [Resample::SetMethod]: the value it stores in [mMethod]. *)
Definition SetMethod (useBestMethod : bool) : Prog Z :=
  if useBestMethod then call (ReadInt BestMethodSetting)
  else call (ReadInt FastMethodSetting).

(** The string literal ["\0\1\4\6"], with its terminator. *)
Definition recipe_literal : list Z := [0; 1; 4; 6; 0].

(** ["\0\1\4\6"][m]: defined for the five characters of the literal only. *)
Definition recipe_of_method (m : Z) : option Z :=
  if (0 <=? m) then nth_error recipe_literal (Z.to_nat m) else None.

(** [Resample::Resample]. *)
Definition Resample_ctor (useBestMethod : bool) (dMinFactor dMaxFactor : float)
  : Prog Resample :=
  do m <- SetMethod useBestMethod;
  if PrimFloat.eqb dMinFactor dMaxFactor then
    match recipe_of_method m with
    | Some recipe =>
        do h <- call (soxr_create 1 dMinFactor 1 (soxr_quality_spec recipe 0));
        Ret (mk_Resample m h true)
    | None => Undefined
    end
  else
    do h <- call (soxr_create 1 dMinFactor 1 (soxr_quality_spec SOXR_HQ SOXR_VR));
    Ret (mk_Resample m h false).

(** The result of [Resample::Process]: the pair it returns and the output
    buffer as the converter left it. *)
Record ProcessResult : Type := mk_ProcessResult
  { consumed : Z;
    produced : Z;
    outBufferAfter : list float }.

(** What is behind a pointer after the callee may have stored through it. *)
Definition stored (before : Z) (st : option Z) : Z :=
  match st with Some v => v | None => before end.

Definition overwrite (buf written : list float) : list float :=
  written ++ skipn (length written) buf.

Definition finish_Process (idone odone : Z) (outBuffer : list float)
    (r : soxr_process_result) : ProcessResult :=
  mk_ProcessResult (stored idone (sp_idone r)) (stored odone (sp_odone r))
    (overwrite outBuffer (sp_written r)).

(** [Resample::Process].  The locals [idone] and [odone] are declared
    without an initialiser: their values before the call are whatever the
    stack holds, and are taken as arguments. *)
Definition Process (this : Resample) (factor : float)
    (inBuffer : list float) (inBufferLen : Z) (lastFlag : bool)
    (outBuffer : list float) (outBufferLen : Z)
    (idone odone : Z) : Prog ProcessResult :=
  if mbWantConstRateResampling this then
    do r <- call (soxr_process (mHandle this) inBuffer
                    (if lastFlag then SizeT.lnot inBufferLen else inBufferLen)
                    outBuffer outBufferLen);
    Ret (finish_Process idone odone outBuffer r)
  else
    do _ <- call (soxr_set_io_ratio (mHandle this) (1 / factor)%float 0);
    let inBufferLen := if lastFlag then SizeT.lnot inBufferLen else inBufferLen in
    do r <- call (soxr_process (mHandle this) inBuffer inBufferLen
                    outBuffer outBufferLen);
    Ret (finish_Process idone odone outBuffer r).

Local Close Scope prog_scope.

(** ** Reading a run *)

(** The ratios applied through [soxr_set_io_ratio], the input lengths given
    to [soxr_process], the converters asked of [soxr_create] and the
    settings read, each in call order. *)
Definition io_ratio_of (c : ext_call) : option float :=
  match c with
  | Call e _ => match e with soxr_set_io_ratio _ r _ => Some r | _ => None end
  end.

Definition ilen_of (c : ext_call) : option Z :=
  match c with
  | Call e _ => match e with soxr_process _ _ ilen _ _ => Some ilen | _ => None end
  end.


Definition creation_of (c : ext_call)
  : option (float * float * Z * soxr_quality_spec_t) :=
  match c with
  | Call e _ =>
      match e with
      | soxr_create i o n q => Some (i, o, n, q)
      | _ => None
      end
  end.

(** The handle a [soxr_create] call returned, and what a [soxr_process]
    call left behind. *)
Definition handle_of (c : ext_call) : option (option soxr_t) :=
  match c with
  | Call e r =>
      match e in extE R return R -> option (option soxr_t) with
      | soxr_create _ _ _ _ => fun h => Some h
      | _ => fun _ => None
      end r
  end.

Definition process_result_of (c : ext_call) : option soxr_process_result :=
  match c with
  | Call e r =>
      match e in extE R return R -> option soxr_process_result with
      | soxr_process _ _ _ _ _ => fun x => Some x
      | _ => fun _ => None
      end r
  end.



(** A [soxr_process] call as a whole: the handle, the input buffer, the
    input length, the output buffer and the output capacity it was given,
    and what it left behind. *)
Definition process_exchange_of (c : ext_call)
  : option (option soxr_t * list float * Z * list float * Z
            * soxr_process_result) :=
  match c with
  | Call e r =>
      match e in extE R
            return R -> option (option soxr_t * list float * Z * list float * Z
                                * soxr_process_result) with
      | soxr_process h ib il ob ol => fun x => Some (h, ib, il, ob, ol, x)
      | _ => fun _ => None
      end r
  end.

Fixpoint collect {A : Type} (f : ext_call -> option A) (tr : list ext_call)
  : list A :=
  match tr with
  | [] => []
  | c :: tr' =>
      match f c with
      | Some a => a :: collect f tr'
      | None => collect f tr'
      end
  end.

Definition io_ratios := collect io_ratio_of.
Definition process_exchanges := collect process_exchange_of.
Definition lengths_passed := collect ilen_of.
Definition created_with := collect creation_of.
Definition handles_created := collect handle_of.
Definition process_results := collect process_result_of.

(** ** The preference store *)

(** The persisted preferences: the symbol stored under each key. *)
Abbreviation Prefs := (gmap string string).

Fixpoint find_symbol (sym : string) (symbols : list (string * string))
  : option nat :=
  match symbols with
  | [] => None
  | (internal, _) :: rest =>
      if String.eqb sym internal then Some O
      else option_map S (find_symbol sym rest)
  end.

(** Modelled from the spec: [EnumSetting::ReadInt] (Prefs.cpp is not among
    the sources).  A setting is a named, externally persisted choice that
    resolves to one of its discrete levels: the symbol stored under the
    setting's key selects the level, and the setting's default stands in
    when nothing, or no symbol of the setting, is stored. *)
Definition EnumSetting_ReadInt (s : EnumSetting) (prefs : Prefs) : Z :=
  let index :=
    match prefs !! es_key s with
    | Some sym =>
        match find_symbol sym (es_symbols s) with
        | Some i => i
        | None => es_defaultSymbol s
        end
    | None => es_defaultSymbol s
    end in
  nth index (es_intValues s) 0.

(** ** Handlers *)

(** A converter library over its own state [C]. *)
Record converter (C : Type) : Type := mk_converter
  { cv_create : float -> float -> Z -> soxr_quality_spec_t -> C -> option soxr_t * C;
    cv_set_io_ratio : option soxr_t -> float -> Z -> C -> soxr_error_t * C;
    cv_process : option soxr_t -> list float -> Z -> list float -> Z -> C ->
                 soxr_process_result * C }.

Arguments cv_create {C} c.
Arguments cv_set_io_ratio {C} c.
Arguments cv_process {C} c.

(** The world of a running program: the preference store and the
    converter library. *)
Definition with_prefs {C : Type} (cv : converter C) : handler (Prefs * C) :=
  fun R e =>
    match e in extE R return Prefs * C -> R * (Prefs * C) with
    | ReadInt s => fun w => (EnumSetting_ReadInt s (fst w), w)
    | soxr_create i o n q =>
        fun w => let rc := cv_create cv i o n q (snd w) in (fst rc, (fst w, snd rc))
    | soxr_set_io_ratio h r l =>
        fun w => let rc := cv_set_io_ratio cv h r l (snd w) in (fst rc, (fst w, snd rc))
    | soxr_process h ib il ob ol =>
        fun w => let rc := cv_process cv h ib il ob ol (snd w) in (fst rc, (fst w, snd rc))
    end.

(** A small converter to run the programs against.  It follows libsoxr at
    its interface: creation refuses rates that are not positive; a call on
    a null handle reports an error and stores nothing; a length with the
    top bit set is a flush request for the complemented length.  Inside it
    only copies samples through. *)
Module Loopback.

Abbreviation state := (gmap positive float).

Definition fresh (c : state) : positive := Pos.of_succ_nat (size c).

Definition create (i o : float) (n : Z) (q : soxr_quality_spec_t) (c : state)
  : option soxr_t * state :=
  if (PrimFloat.ltb 0 i && PrimFloat.ltb 0 o)%bool
  then (Some (fresh c), <[fresh c := (i / o)%float]> c)
  else (None, c).

Definition set_io_ratio (h : option soxr_t) (r : float) (l : Z) (c : state)
  : soxr_error_t * state :=
  match h with
  | Some p => (None, <[p := r]> c)
  | None => (Some "null pointer"%string, c)
  end.

Definition process (h : option soxr_t) (ib : list float) (ilen0 : Z)
    (ob : list float) (olen : Z) (c : state) : soxr_process_result * state :=
  match h with
  | Some _ =>
      let n := Z.min (SizeT.decoded_len ilen0) olen in
      (mk_process_result None (Some n) (Some n) (firstn (Z.to_nat n) ib), c)
  | None =>
      (mk_process_result (Some "null pointer"%string) None None [], c)
  end.

Definition lib : converter state := mk_converter state create set_io_ratio process.

Definition hd : handler (Prefs * state) := with_prefs lib.

End Loopback.

(** A converter with internal state to run the programs against: it
    holds back the last sample it was given until more input arrives or
    a flush is requested.  At its interface it follows libsoxr as
    [Loopback] does. *)
Module Delay.

Abbreviation state := (gmap positive (list float)).

Definition fresh (c : state) : positive := Pos.of_succ_nat (size c).

Definition create (i o : float) (n : Z) (q : soxr_quality_spec_t) (c : state)
  : option soxr_t * state :=
  if (PrimFloat.ltb 0 i && PrimFloat.ltb 0 o)%bool
  then (Some (fresh c), <[fresh c := []]> c)
  else (None, c).

Definition set_io_ratio (h : option soxr_t) (r : float) (l : Z) (c : state)
  : soxr_error_t * state :=
  match h with
  | Some p => (None, c)
  | None => (Some "null pointer"%string, c)
  end.

Definition process (h : option soxr_t) (ib : list float) (ilen0 : Z)
    (ob : list float) (olen : Z) (c : state) : soxr_process_result * state :=
  match h with
  | Some p =>
      let taken := firstn (Z.to_nat (SizeT.decoded_len ilen0)) ib in
      let held := default [] (c !! p) ++ taken in
      let ready :=
        if SizeT.flush_requested ilen0 then length held
        else Nat.pred (length held) in
      let n := Nat.min ready (Z.to_nat olen) in
      (mk_process_result None (Some (Z.of_nat (length taken)))
         (Some (Z.of_nat n)) (firstn n held),
       <[p := skipn n held]> c)
  | None =>
      (mk_process_result (Some "null pointer"%string) None None [], c)
  end.

Definition lib : converter state := mk_converter state create set_io_ratio process.

Definition hd : handler (Prefs * state) := with_prefs lib.

End Delay.

(** The input and output rate of each converter created. *)
Definition rates_created (tr : list ext_call) : list (float * float) :=
  map (fun c => (fst (fst (fst c)), snd (fst (fst c)))) (created_with tr).

(** The four discrete presets, in the order of [methodNames]. *)
Definition preset_recipes : list Z := [SOXR_QQ; SOXR_LQ; SOXR_HQ; SOXR_VHQ].


(** The setting [SetMethod] reads. *)
Definition setting_for (useBestMethod : bool) : EnumSetting :=
  if useBestMethod then BestMethodSetting else FastMethodSetting.



(** ** wxString and the tags of a project (Tags.cpp) *)

Local Open Scope Z_scope.

(** A [wxString]: a sequence of characters, each by its code. *)
Abbreviation wxString := (list N).

(** [wxT("...")]. *)
Definition wxT (s : string) : wxString :=
  map Ascii.N_of_ascii (String.list_ascii_of_string s).

(** The case conversions of the C library, which depend on the locale. *)
Class wxLocale : Type := mk_wxLocale
  { towupper : N -> N;
    towlower : N -> N }.

(** The conversions of the "C" locale. *)
Definition C_locale : wxLocale :=
  mk_wxLocale
    (fun c => if ((97 <=? c) && (c <=? 122))%N then (c - 32)%N else c)
    (fun c => if ((65 <=? c) && (c <=? 90))%N then (c + 32)%N else c).

(** [wxString::UpperCase]. *)
Definition UpperCase {L : wxLocale} (s : wxString) : wxString :=
  map towupper s.

(** [wxString::IsAscii]. *)
Definition IsAscii (s : wxString) : bool :=
  forallb (fun c => (c <? 128)%N) s.

(** [wxString::CmpNoCase]: negative, 0 or positive. *)
Fixpoint CmpNoCase {L : wxLocale} (a b : wxString) : Z :=
  match a, b with
  | [], [] => 0
  | [], _ :: _ => -1
  | _ :: _, [] => 1
  | x :: a', y :: b' =>
      if (towlower x =? towlower y)%N then CmpNoCase a' b'
      else if (towlower x <? towlower y)%N then -1 else 1
  end.

Definition DefaultGenres : list wxString :=
  map wxT
  [ "Blues"; "Classic Rock"; "Country"; "Dance";
    "Disco"; "Funk"; "Grunge"; "Hip-Hop";
    "Jazz"; "Metal"; "New Age"; "Oldies";
    "Other"; "Pop"; "R&B"; "Rap";
    "Reggae"; "Rock"; "Techno"; "Industrial";
    "Alternative"; "Ska"; "Death Metal"; "Pranks";
    "Soundtrack"; "Euro-Techno"; "Ambient"; "Trip-Hop";
    "Vocal"; "Jazz+Funk"; "Fusion"; "Trance";
    "Classical"; "Instrumental"; "Acid"; "House";
    "Game"; "Sound Clip"; "Gospel"; "Noise";
    "Alt. Rock"; "Bass"; "Soul"; "Punk";
    "Space"; "Meditative"; "Instrumental Pop"; "Instrumental Rock";
    "Ethnic"; "Gothic"; "Darkwave"; "Techno-Industrial";
    "Electronic"; "Pop-Folk"; "Eurodance"; "Dream";
    "Southern Rock"; "Comedy"; "Cult"; "Gangsta Rap";
    "Top 40"; "Christian Rap"; "Pop/Funk"; "Jungle";
    "Native American"; "Cabaret"; "New Wave"; "Psychedelic";
    "Rave"; "Showtunes"; "Trailer"; "Lo-Fi";
    "Tribal"; "Acid Punk"; "Acid Jazz"; "Polka";
    "Retro"; "Musical"; "Rock & Roll"; "Hard Rock";
    "Folk"; "Folk/Rock"; "National Folk"; "Swing";
    "Fast-Fusion"; "Bebob"; "Latin"; "Revival";
    "Celtic"; "Bluegrass"; "Avantgarde"; "Gothic Rock";
    "Progressive Rock"; "Psychedelic Rock"; "Symphonic Rock"; "Slow Rock";
    "Big Band"; "Chorus"; "Easy Listening"; "Acoustic";
    "Humour"; "Speech"; "Chanson"; "Opera";
    "Chamber Music"; "Sonata"; "Symphony"; "Booty Bass";
    "Primus"; "Porn Groove"; "Satire"; "Slow Jam";
    "Club"; "Tango"; "Samba"; "Folklore";
    "Ballad"; "Power Ballad"; "Rhythmic Soul"; "Freestyle";
    "Duet"; "Punk Rock"; "Drum Solo"; "A Cappella";
    "Euro-House"; "Dance Hall"; "Goa"; "Drum & Bass";
    "Club-House"; "Hardcore"; "Terror"; "Indie";
    "BritPop"; "Offensive"; "Polsk Punk"; "Beat";
    "Christian Gangsta Rap"; "Heavy Metal"; "Black Metal"; "Crossover";
    "Contemporary Christian"; "Christian Rock"; "Merengue"; "Salsa";
    "Thrash Metal"; "Anime"; "JPop"; "Synthpop" ]%string.

(** The names of the tags the program itself uses (macros of Tags.h). *)
Record TagKeys : Type := mk_TagKeys
  { TAG_TITLE : wxString;
    TAG_ARTIST : wxString;
    TAG_ALBUM : wxString;
    TAG_TRACK : wxString;
    TAG_YEAR : wxString;
    TAG_GENRE : wxString;
    TAG_COMMENTS : wxString;
    TAG_SOFTWARE : wxString;
    TAG_COPYRIGHT : wxString }.

Definition standard_keys : TagKeys :=
  mk_TagKeys (wxT "TITLE") (wxT "ARTIST") (wxT "ALBUM") (wxT "TRACKNUMBER")
    (wxT "YEAR") (wxT "GENRE") (wxT "COMMENTS") (wxT "Software")
    (wxT "Copyright").

(** The members of a [Tags]: [mXref] takes the upper-case key of a tag to
    its name as last written, [mMap] takes that name to the value. *)
Record Tags : Type := mk_Tags
  { mEditTitle : bool;
    mEditTrackNumber : bool;
    mXref : gmap wxString wxString;
    mMap : gmap wxString wxString;
    mGenres : list wxString }.

Section TagsClass.

Context {L : wxLocale}.

(** [Tags::Clear]. *)
Definition Tags_Clear (t : Tags) : Tags :=
  mk_Tags (mEditTitle t) (mEditTrackNumber t) ∅ ∅ (mGenres t).

(** [Tags::HasTag]. *)
Definition HasTag (t : Tags) (name : wxString) : bool :=
  match mXref t !! UpperCase name with
  | Some _ => true
  | None => false
  end.

(** [Tags::GetTag]. *)
Definition GetTag (t : Tags) (name : wxString) : wxString :=
  match mXref t !! UpperCase name with
  | None => []
  | Some found =>
      match mMap t !! found with
      | None => [] (* after wxASSERT(false) *)
      | Some value => value
      end
  end.

(** Whether [GetTag] runs into its [wxASSERT(false)]. *)
Definition GetTag_asserts (t : Tags) (name : wxString) : bool :=
  match mXref t !! UpperCase name with
  | None => false
  | Some found =>
      match mMap t !! found with
      | None => true
      | Some _ => false
      end
  end.

(** [Tags::GetRange]: the pairs of [mMap], in the order of the hash map. *)
Definition GetRange (t : Tags) : list (wxString * wxString) :=
  map_to_list (mMap t).

Definition with_maps (t : Tags) (xref map : gmap wxString wxString) : Tags :=
  mk_Tags (mEditTitle t) (mEditTrackNumber t) xref map (mGenres t).

(** [Tags::SetTag(name, value)]. *)
Definition SetTag (t : Tags) (name value : wxString) : Tags :=
  match name with
  | [] => t
  | _ :: _ =>
      if negb (IsAscii name) then t
      else
        let key := UpperCase name in
        match mXref t !! key, value with
        | None, [] => t
        | Some found, [] =>
            with_maps t (delete key (mXref t)) (delete found (mMap t))
        | None, _ :: _ =>
            with_maps t (<[key := name]> (mXref t)) (<[name := value]> (mMap t))
        | Some found, _ :: _ =>
            if bool_decide (found <> name) then
              with_maps t (<[key := name]> (mXref t))
                (delete found (<[name := value]> (mMap t)))
            else
              with_maps t (mXref t) (<[found := value]> (mMap t))
        end
  end.

(** [Tags::IsEmpty]. *)
Definition IsEmpty (K : TagKeys) (t : Tags) : bool :=
  if HasTag t (TAG_TITLE K) || HasTag t (TAG_ARTIST K) || HasTag t (TAG_ALBUM K)
  then false else true.

(** [EqualMaps]: the sizes, and then every pair of [map2] looked up in
    [map1]. *)
Definition EqualMaps (map1 map2 : gmap wxString wxString) : bool :=
  if negb (size map1 =? size map2)%nat then false
  else forallb (fun p => bool_decide (map1 !! fst p = Some (snd p)))
         (map_to_list map2).

(** [operator==] on [Tags]. *)
Definition Tags_eq (lhs rhs : Tags) : bool :=
  if negb (EqualMaps (mXref lhs) (mXref rhs)) then false
  else if negb (EqualMaps (mMap lhs) (mMap rhs)) then false
  else bool_decide (mGenres lhs = mGenres rhs)
       && eqb (mEditTitle lhs) (mEditTitle rhs)
       && eqb (mEditTrackNumber lhs) (mEditTrackNumber rhs).

(** [Tags::GetNumUserGenres], [LoadDefaultGenres], [GetUserGenre(i)] and
    [GetGenre(i)]. *)
Definition GetNumUserGenres (t : Tags) : Z := Z.of_nat (length (mGenres t)).

Definition LoadDefaultGenres (t : Tags) : Tags :=
  mk_Tags (mEditTitle t) (mEditTrackNumber t) (mXref t) (mMap t) DefaultGenres.

Definition GetUserGenre (t : Tags) (i : Z) : wxString :=
  if (0 <=? i) && (i <? GetNumUserGenres t)
  then nth (Z.to_nat i) (mGenres t) []
  else [].

Definition GetGenre_at (i : Z) : wxString :=
  let cnt := Z.of_nat (length DefaultGenres) in
  if (0 <=? i) && (i <? cnt) then nth (Z.to_nat i) DefaultGenres [] else [].

(** [Tags::GetGenre(name)]: the loop returns at the first genre for which
    [CmpNoCase] is not 0. *)
Fixpoint GetGenre_from (name : wxString) (genres : list wxString) (i : Z) : Z :=
  match genres with
  | [] => 255
  | g :: rest =>
      if negb (CmpNoCase name g =? 0) then i
      else GetGenre_from name rest (i + 1)
  end.

Definition GetGenre (name : wxString) : Z :=
  GetGenre_from name DefaultGenres 0.

End TagsClass.

Section TagsInvariant.

Context {L : wxLocale}.

(** The two maps of a [Tags] agree: every key of [mXref] is the upper case
    of the name it gives, which [mMap] holds; every name in [mMap] is
    non-empty and ASCII, has a non-empty value, and is the one [mXref]
    gives for its upper case. *)
Definition Tags_wf (t : Tags) : Prop :=
  (forall key name : wxString,
     mXref t !! key = Some name ->
     UpperCase name = key /\ is_Some (mMap t !! name)) /\
  (forall name value : wxString,
     mMap t !! name = Some value ->
     mXref t !! UpperCase name = Some name /\
     value <> [] /\ name <> [] /\ IsAscii name = true).

(** A run of [SetTag] calls. *)
Definition SetTags (t : Tags) (calls : list (wxString * wxString)) : Tags :=
  fold_left (fun t' p => SetTag t' (fst p) (snd p)) calls t.

End TagsInvariant.

(** What is written through an [XMLWriter]. *)
Inductive XMLEvent : Type :=
| XStartTag (name : wxString)
| XWriteAttr (name value : wxString)
| XEndTag (name : wxString).

Section TagsXML.

Context {L : wxLocale}.

(** The attribute loop of [Tags::HandleXMLTag]: [attrs] is the array of
    attribute names and values up to its null terminator, [good] is
    [XMLValueChecker::IsGoodString].  An array that ends after a name
    makes the loop read beyond the terminator: [None]. *)
Fixpoint read_attrs (good : wxString -> bool) (attrs : list wxString)
    (n v : wxString) : option (wxString * wxString) :=
  match attrs with
  | [] => Some (n, v)
  | attr :: rest =>
      match attr with
      | [] => Some (n, v)
      | _ :: _ =>
          match rest with
          | [] => None
          | value :: rest' =>
              if negb (good attr) || negb (good value) then Some (n, v)
              else if bool_decide (attr = wxT "name")
                   then read_attrs good rest' value v
              else if bool_decide (attr = wxT "value")
                   then read_attrs good rest' n value
              else read_attrs good rest' n v
          end
      end
  end.

(** [Tags::HandleXMLTag]: what it returns and the tags afterwards. *)
Definition HandleXMLTag (good : wxString -> bool) (t : Tags)
    (tag : wxString) (attrs : list wxString) : option (bool * Tags) :=
  if bool_decide (tag = wxT "tags") then Some (true, t)
  else if bool_decide (tag = wxT "tag") then
    match read_attrs good attrs [] [] with
    | Some (n, v) =>
        if bool_decide (n = wxT "id3v2") then Some (true, t)
        else Some (true, SetTag t n v)
    | None => None
    end
  else Some (false, t).

(** [Tags::WriteXML], for the pairs of [GetRange] in a given order. *)
Definition WriteXML_pairs (pairs : list (wxString * wxString)) : list XMLEvent :=
  [XStartTag (wxT "tags")]
  ++ flat_map (fun p => [ XStartTag (wxT "tag");
                          XWriteAttr (wxT "name") (fst p);
                          XWriteAttr (wxT "value") (snd p);
                          XEndTag (wxT "tag") ]) pairs
  ++ [XEndTag (wxT "tags")].

Definition WriteXML (t : Tags) : list XMLEvent := WriteXML_pairs (GetRange t).

(** Reading back what was written: every start tag is handed to
    [HandleXMLTag] with the attributes written after it; reading stops
    with an error when the handler refuses a tag. *)
Fixpoint attrs_of (evs : list XMLEvent) : list wxString :=
  match evs with
  | XWriteAttr n v :: rest => n :: v :: attrs_of rest
  | _ => []
  end.

Fixpoint elements_of (evs : list XMLEvent) : list (wxString * list wxString) :=
  match evs with
  | [] => []
  | XStartTag tag :: rest => (tag, attrs_of rest) :: elements_of rest
  | _ :: rest => elements_of rest
  end.

Fixpoint read_elements (good : wxString -> bool) (t : Tags)
    (elems : list (wxString * list wxString)) : option Tags :=
  match elems with
  | [] => Some t
  | (tag, attrs) :: rest =>
      match HandleXMLTag good t tag attrs with
      | Some (true, t') => read_elements good t' rest
      | _ => None
      end
  end.

(** [Tags::LoadDefaults], for the entries of the preference group: each
    one is written as a tag, except the obsolete ["ID3V2"]. *)
Definition LoadDefaults (t : Tags) (entries : list (wxString * wxString)) : Tags :=
  fold_left (fun t' e => if bool_decide (fst e = wxT "ID3V2") then t'
                         else SetTag t' (fst e) (snd e)) entries t.

(** [Tags::LoadGenres], for the lines of genres.txt when it can be
    opened. *)
Definition LoadGenres (t : Tags) (file : option (list wxString)) : Tags :=
  match file with
  | None => LoadDefaultGenres t
  | Some lines =>
      mk_Tags (mEditTitle t) (mEditTrackNumber t) (mXref t) (mMap t) lines
  end.

(** [Tags::Tags()]. *)
Definition Tags_new (entries : list (wxString * wxString))
    (file : option (list wxString)) : Tags :=
  LoadGenres (LoadDefaults (mk_Tags true true ∅ ∅ []) entries) file.

End TagsXML.

(** Tags to try things on. *)
Definition example_tags : Tags :=
  SetTags (L := C_locale) (mk_Tags true true ∅ ∅ [])
    [ (wxT "Title", wxT "Song"); (wxT "artist", wxT "Me") ].

(** ** ExportPCM.cpp: strings for libsndfile *)

(** Values of sndfile.h. *)
Definition SF_FORMAT_WAV : Z := 0x010000.
Definition SF_FORMAT_AIFF : Z := 0x020000.
Definition SF_FORMAT_WAVEX : Z := 0x130000.
Definition SF_FORMAT_PCM_16 : Z := 0x0002.
Definition SF_FORMAT_PCM_24 : Z := 0x0003.
Definition SF_FORMAT_FLOAT : Z := 0x0006.
Definition SF_FORMAT_SUBMASK : Z := 0x0000FFFF.
Definition SF_FORMAT_TYPEMASK : Z := 0x0FFF0000.

(** A [char] is a byte; a char array is a list of bytes. *)
Abbreviation char := Byte.byte.

Definition NUL : char := Byte.x00.

(** The characters of the C string at the start of a char array: those
    before the first NUL. *)
Fixpoint c_str (buf : list char) : list char :=
  match buf with
  | [] => []
  | c :: rest => if Byte.eqb c NUL then [] else c :: c_str rest
  end.

Definition not_NUL (c : char) : Prop := Byte.eqb c NUL = false.

(** [aASCII7Table]: ISO Latin to 7 bit ASCII. *)
Definition aASCII7Table : list N :=
  [ 0; 95; 95; 95; 95; 95; 95; 95;
    95; 9; 10; 95; 13; 95; 95; 95;
    95; 95; 95; 95; 95; 95; 95; 95;
    95; 95; 95; 95; 95; 95; 95; 95;
    32; 33; 34; 35; 36; 37; 38; 39;
    40; 41; 42; 43; 44; 45; 46; 47;
    48; 49; 50; 51; 52; 53; 54; 55;
    56; 57; 58; 59; 60; 61; 62; 63;
    64; 65; 66; 67; 68; 69; 70; 71;
    72; 73; 74; 75; 76; 77; 78; 79;
    80; 81; 82; 83; 84; 85; 86; 87;
    88; 89; 90; 91; 92; 93; 94; 95;
    96; 97; 98; 99; 100; 101; 102; 103;
    104; 105; 106; 107; 108; 109; 110; 111;
    112; 113; 114; 115; 116; 117; 118; 119;
    120; 121; 122; 123; 124; 125; 126; 127;
    69; 32; 44; 83; 34; 46; 43; 43;
    94; 37; 83; 40; 79; 32; 90; 32;
    32; 39; 39; 34; 34; 46; 45; 95;
    34; 84; 115; 41; 111; 32; 122; 89;
    32; 33; 99; 76; 111; 89; 124; 83;
    34; 67; 97; 34; 95; 45; 67; 45;
    111; 126; 50; 51; 39; 117; 80; 39;
    44; 49; 111; 34; 95; 95; 95; 63;
    65; 65; 65; 65; 65; 65; 65; 67;
    69; 69; 69; 69; 73; 73; 73; 73;
    68; 78; 79; 79; 79; 79; 79; 120;
    79; 85; 85; 85; 85; 89; 112; 83;
    97; 97; 97; 97; 97; 97; 97; 99;
    101; 101; 101; 101; 105; 105; 105; 105;
    100; 110; 111; 111; 111; 111; 111; 47;
    111; 117; 117; 117; 117; 121; 112; 121 ]%N.

(** [aASCII7Table[c]], for [c] an [unsigned char]. *)
Definition ascii7 (c : char) : char :=
  match Byte.of_N (nth (N.to_nat (Byte.to_N c)) aASCII7Table 0%N) with
  | Some b => b
  | None => NUL
  end.

(** The conversions of a [wxString] to a multi-byte string that
    [AdjustString] asks for: [None] when the conversion gives no buffer. *)
Class wxConv : Type := mk_wxConv
  { mb_str_ISO8859_1 : wxString -> option (list char);
    mb_str_libc : wxString -> option (list char) }.

(** What a run of char-array code comes to: no string (a null
    [ArrayOf<char>]), a char array, or a write outside an array. *)
Inductive Adjusted : Type :=
| NoString
| Chars (buf : list char)
| Overrun.

(** [strncpy(dst, src, n)], [src] a C string: [n] chars are written, the
    string and then NULs. *)
Definition strncpy (dst src : list char) (n : nat) : option (list char) :=
  if (n <=? length dst)%nat
  then Some (firstn n (c_str src ++ replicate n NUL) ++ skipn n dst)
  else None.

(** The conversion loop of [AdjustString], with [k] rounds to go and both
    pointers [i] chars into their arrays: the array written and where [pD]
    ends up. *)
Fixpoint ascii7_loop (k i : nat) (pSrc pDest : list char) : list char * nat :=
  match k with
  | O => (pDest, i)
  | S k' =>
      let c := nth i pSrc NUL in
      let pDest' := <[i := ascii7 c]> pDest in
      if Byte.eqb c NUL then (pDest', S i)
      else ascii7_loop k' (S i) pSrc pDest'
  end.

(** A write of one char at index [i]. *)
Definition poke (buf : list char) (i : nat) (c : char) : option (list char) :=
  if (i <? length buf)%nat then Some (<[i := c]> buf) else None.

(** [strcat(buf, " ")]. *)
Definition strcat_space (buf : list char) : option (list char) :=
  let len := length (c_str buf) in
  match poke buf len Byte.x20 with
  | Some buf' => poke buf' (S len) NUL
  | None => None
  end.

(** The multi-byte string [AdjustString] copies from: the ISO 8859-1
    conversion when it gives a buffer, and else the one of the C library. *)
Definition mb_str_for {C : wxConv} (wxStr : wxString) : option (list char) :=
  match mb_str_ISO8859_1 wxStr with
  | Some bytes => Some bytes
  | None => mb_str_libc wxStr
  end.

Definition is_aiff (sf_format : Z) : bool :=
  Z.land sf_format SF_FORMAT_TYPEMASK =? SF_FORMAT_AIFF.

(** [ExportPCM::AdjustString].  The sizes are [size_t]; no string that
    fits in memory makes [(sz+4) * 2] wrap, so they are kept as [nat].  An
    [ArrayOf<char>] is allocated with [new], which throws rather than
    give null. *)
Definition AdjustString {C : wxConv} (wxStr : wxString) (sf_format : Z)
  : Adjusted :=
  let b_aiff := is_aiff sf_format in
  let sz := length wxStr in
  match sz with
  | O => NoString
  | S _ =>
      let sr := ((sz + 4) * 2)%nat in
      let pDest := replicate sr NUL in
      let pSrc := replicate sr NUL in
      match mb_str_for wxStr with
      | None => NoString
      | Some bytes =>
          match strncpy pSrc bytes sz with
          | None => Overrun
          | Some pSrc' =>
              let (pDest', pD) := ascii7_loop sr 0 pSrc' pDest in
              match poke pDest' pD NUL with
              | None => Overrun
              | Some pDest'' =>
                  if b_aiff then
                    let len := length (c_str pDest'') in
                    if negb (Z.of_nat len mod 2 =? 0) then
                      match strcat_space pDest'' with
                      | Some padded => Chars padded
                      | None => Overrun
                      end
                    else Chars pDest''
                  else Chars pDest''
              end
          end
      end
  end.

(** The text [AdjustString] is to give for the converted [bytes] of a
    string: the chars of the C string, at most as many as the string has
    characters, each through the table, and a space after an odd number of
    them in an AIFF file. *)
Definition adjusted_text (wxStr : wxString) (sf_format : Z) (bytes : list char)
  : list char :=
  let s := take (length wxStr) (c_str bytes) in
  map ascii7 s
  ++ (if is_aiff sf_format && negb (Z.of_nat (length s) mod 2 =? 0)
      then [Byte.x20] else []).

(** The conversions of a program whose C library works in ISO 8859-1:
    a string converts when all its characters are below 256. *)
Definition to_latin1 (s : wxString) : option (list char) :=
  mapM Byte.of_N s.

Definition latin1_conv : wxConv := mk_wxConv to_latin1 to_latin1.

(** The string ids of sndfile.h that [AddStrings] uses. *)
Inductive SF_STR : Type :=
| SF_STR_TITLE | SF_STR_COPYRIGHT | SF_STR_SOFTWARE | SF_STR_ARTIST
| SF_STR_COMMENT | SF_STR_DATE | SF_STR_ALBUM | SF_STR_TRACKNUMBER
| SF_STR_GENRE.

(** A [sf_set_string] call: the id and the char array it is given. *)
Definition sf_set_string_call : Type := (SF_STR * list char)%type.

Section AddStrings.

Context {L : wxLocale} {C : wxConv}.

(** One block of [ExportPCM::AddStrings]: the [sf_set_string] calls it
    makes, or [None] after a write outside an array. *)
Definition add_string (tags : Tags) (sf_format : Z) (key : wxString)
    (id : SF_STR) : option (list sf_set_string_call) :=
  if HasTag tags key then
    match AdjustString (GetTag tags key) sf_format with
    | Chars ascii7Str => Some [(id, ascii7Str)]
    | NoString => Some []
    | Overrun => None
    end
  else Some [].

Definition then_string (before : option (list sf_set_string_call))
    (block : option (list sf_set_string_call))
  : option (list sf_set_string_call) :=
  match before, block with
  | Some calls, Some more => Some (calls ++ more)
  | _, _ => None
  end.

(** [ExportPCM::AddStrings]: the calls it makes on the file, and [true]. *)
Definition AddStrings (K : TagKeys) (tags : Tags) (sf_format : Z)
  : option (bool * list sf_set_string_call) :=
  let step := add_string tags sf_format in
  let calls :=
    then_string (then_string (then_string (then_string (then_string
    (then_string (then_string (then_string
      (step (TAG_TITLE K) SF_STR_TITLE)
      (step (TAG_ALBUM K) SF_STR_ALBUM))
      (step (TAG_ARTIST K) SF_STR_ARTIST))
      (step (TAG_COMMENTS K) SF_STR_COMMENT))
      (step (TAG_YEAR K) SF_STR_DATE))
      (step (TAG_GENRE K) SF_STR_GENRE))
      (step (TAG_COPYRIGHT K) SF_STR_COPYRIGHT))
      (step (TAG_SOFTWARE K) SF_STR_SOFTWARE))
      (step (TAG_TRACK K) SF_STR_TRACKNUMBER) in
  match calls with
  | Some cs => Some (true, cs)
  | None => None
  end.

(** The tags [AddStrings] goes through and the id each one is written
    under, in its order. *)
Definition string_tags (K : TagKeys) : list (wxString * SF_STR) :=
  [ (TAG_TITLE K, SF_STR_TITLE); (TAG_ALBUM K, SF_STR_ALBUM);
    (TAG_ARTIST K, SF_STR_ARTIST); (TAG_COMMENTS K, SF_STR_COMMENT);
    (TAG_YEAR K, SF_STR_DATE); (TAG_GENRE K, SF_STR_GENRE);
    (TAG_COPYRIGHT K, SF_STR_COPYRIGHT); (TAG_SOFTWARE K, SF_STR_SOFTWARE);
    (TAG_TRACK K, SF_STR_TRACKNUMBER) ].

(** The call one tag comes to: none when the tag is not there, has an
    empty value, or neither conversion takes its value. *)
Definition string_call (tags : Tags) (sf_format : Z) (entry : wxString * SF_STR)
  : option sf_set_string_call :=
  if HasTag tags (fst entry) then
    match GetTag tags (fst entry) with
    | [] => None
    | _ :: _ =>
        match mb_str_for (GetTag tags (fst entry)) with
        | Some bytes =>
            let text := adjusted_text (GetTag tags (fst entry)) sf_format bytes in
            Some (snd entry,
                  text ++ replicate
                            ((length (GetTag tags (fst entry)) + 4) * 2
                             - length text) NUL)
        | None => None
        end
    end
  else None.

End AddStrings.

Definition printable (c : char) : Prop := (32 <= Byte.to_N c <= 126)%N.

(** ** ExportPCM.cpp: the format options *)

Record kFormat : Type := mk_kFormat
  { kf_format : Z; kf_name : wxString; kf_desc : wxString }.

(** [kFormats]; its first line is there only under [__WXMAC__]. *)
Definition kFormats (WXMAC : bool) : list kFormat :=
  (if WXMAC
   then [ mk_kFormat (Z.lor SF_FORMAT_AIFF SF_FORMAT_PCM_16) (wxT "AIFF")
            (wxT "AIFF (Apple) signed 16-bit PCM") ]
   else [])
  ++ [ mk_kFormat (Z.lor SF_FORMAT_WAV SF_FORMAT_PCM_16) (wxT "WAV")
         (wxT "WAV (Microsoft) signed 16-bit PCM");
       mk_kFormat (Z.lor SF_FORMAT_WAV SF_FORMAT_PCM_24) (wxT "WAV24")
         (wxT "WAV (Microsoft) signed 24-bit PCM");
       mk_kFormat (Z.lor SF_FORMAT_WAV SF_FORMAT_FLOAT) (wxT "WAVFLT")
         (wxT "WAV (Microsoft) 32-bit float PCM") ].

(** The conversion of a [long] to [int]. *)
Definition to_int (z : Z) : Z := (z + 2 ^ 31) mod 2 ^ 32 - 2 ^ 31.

(** [ReadExportFormatPref]; [Read] is [gPrefs->Read] at the key
    [/FileFormats/ExportFormat_SF1], as a function of the default. *)
Definition ReadExportFormatPref (WXMAC : bool) (Read : Z -> Z) : Z :=
  if WXMAC then to_int (Read (Z.lor SF_FORMAT_AIFF SF_FORMAT_PCM_16))
  else to_int (Read (Z.lor SF_FORMAT_WAV SF_FORMAT_PCM_16)).

(** The format that the constructor of [ExportPCMOptions] and
    [ExportPCM::Export] start from. *)
Definition format_of_index (WXMAC : bool) (Read : Z -> Z) (selformat : Z) : Z :=
  if (selformat <? 0) || (Z.of_nat (length (kFormats WXMAC)) <=? selformat)
  then ReadExportFormatPref WXMAC Read
  else kf_format
         (nth (Z.to_nat selformat) (kFormats WXMAC) (mk_kFormat 0 [] [])).

Record SF_INFO : Type := mk_SF_INFO
  { frames : Z; samplerate : Z; channels : Z; format : Z; sections : Z;
    seekable : Z }.

(** The members of an [ExportPCMOptions] that its code computes; the two
    [wxChoice] controls are left to the toolkit. *)
(** [SF_FORMAT_INFO]; the fields are [format], [name] and [extension]. *)
Record SF_FORMAT_INFO : Type := mk_SF_FORMAT_INFO
  { fi_format : Z; fi_name : wxString; fi_extension : wxString }.

Record ExportPCMOptions : Type := mk_ExportPCMOptions
  { mHeaderNames : list wxString;
    mEncodingNames : list wxString;
    mHeaderFromChoice : Z;
    mEncodingFromChoice : Z;
    mEncodingFormats : list Z }.

Definition wxNOT_FOUND : Z := -1.

(** The values [0, 1, ..., num - 1] of a loop [for (i = 0; i < num; i++)]. *)
Definition upto (num : Z) : list Z := map Z.of_nat (seq 0 (Z.to_nat num)).

Section Options.

(** The functions of FileFormats.h and of libsndfile, each result as the
    [int] that the calling code converts it to. *)
Variable sf_num_headers : Z.
Variable sf_header_index_name : Z -> wxString.
Variable sf_header_index_to_type : Z -> Z.
Variable sf_num_encodings : Z.
Variable sf_encoding_index_name : Z -> wxString.
Variable sf_encoding_index_to_subtype : Z -> Z.
Variable sf_num_simple_formats : Z.
Variable sf_simple_format : Z -> SF_FORMAT_INFO.
Variable sf_format_check : SF_INFO -> Z.

(** [ExportPCMOptions::ValidatePair]. *)
Definition ValidatePair (fmt : Z) : bool :=
  negb (sf_format_check (mk_SF_INFO 0 44100 1 fmt 1 0) =? 0).

(** The body of the first loop of the constructor, on the pair of
    [mHeaderNames] and [mHeaderFromChoice]. *)
Definition header_step (fmt : Z) (st : list wxString * Z) (i : Z)
  : list wxString * Z :=
  (fst st ++ [sf_header_index_name i],
   if Z.land fmt SF_FORMAT_TYPEMASK =? sf_header_index_to_type i
   then i else snd st).

(** The state of the second loop of the constructor: the three members it
    writes, and its counter [sel]. *)
Record encoding_loop : Type := mk_encoding_loop
  { el_names : list wxString; el_formats : list Z; el_choice : Z;
    el_sel : Z }.

Definition encoding_step (fmt : Z) (st : encoding_loop) (i : Z)
  : encoding_loop :=
  let enc := sf_encoding_index_to_subtype i in
  let fmt' := Z.lor (Z.land fmt SF_FORMAT_TYPEMASK) enc in
  let valid := ValidatePair fmt' in
  if valid then
    let names := el_names st ++ [sf_encoding_index_name i] in
    let formats := el_formats st ++ [enc] in
    if Z.land fmt SF_FORMAT_SUBMASK =? sf_encoding_index_to_subtype i
    then mk_encoding_loop names formats (el_sel st) (el_sel st)
    else mk_encoding_loop names formats (el_choice st) (el_sel st + 1)
  else st.

(** The constructor of [ExportPCMOptions], from the format it has found
    up to the call of [PopulateOrExchange].  [sel] is at most [i], so
    [sel++] does not overflow. *)
Definition ExportPCMOptions_ctor (fmt : Z) : ExportPCMOptions :=
  let headers := fold_left (header_step fmt) (upto sf_num_headers) ([], 0) in
  let encodings :=
    fold_left (encoding_step fmt) (upto sf_num_encodings)
      (mk_encoding_loop [] [] 0 0) in
  mk_ExportPCMOptions (fst headers) (el_names encodings) (snd headers)
    (el_choice encodings) (el_formats encodings).

(** [ExportPCMOptions::GetFormat], given what the two [GetSelection]
    calls return; [None] when [sel] is no index of [mEncodingFormats]. *)
Definition GetFormat (this : ExportPCMOptions)
    (headerSelection encodingSelection : Z) : option Z :=
  let hdr := sf_header_index_to_type headerSelection in
  let sel := encodingSelection in
  if sel <? 0 then None
  else
    match mEncodingFormats this !! Z.to_nat sel with
    | Some enc => Some (Z.lor hdr enc)
    | None => None
    end.

(** The loop over [j] in [OnHeaderChoice], on [sel]; [size] is
    [mEncodingFormats.size()]. *)
Fixpoint simple_loop (sfs : list Z) (fmt sel size : Z) : Z :=
  match sfs with
  | [] => sel
  | enc :: rest =>
      if (sel =? wxNOT_FOUND) && (fmt =? enc) then size - 1
      else simple_loop rest fmt sel size
  end.

(** The body of the loop over [i] in [OnHeaderChoice], on
    [mEncodingNames], [mEncodingFormats] and [sel]. *)
Definition choice_step (fmt : Z) (sfs : list Z)
    (st : list wxString * list Z * Z) (i : Z) : list wxString * list Z * Z :=
  let '(names, formats, sel) := st in
  let encSubtype := sf_encoding_index_to_subtype i in
  let fmt' := Z.lor fmt encSubtype in
  let valid := ValidatePair fmt' in
  if valid then
    let formats' := formats ++ [encSubtype] in
    (names ++ [sf_encoding_index_name i], formats',
     simple_loop sfs fmt' sel (Z.of_nat (length formats')))
  else st.

(** The format [OnHeaderChoice] forms its pairs with. *)
Definition header_format (headerSelection : Z) : Z :=
  let fmt := sf_header_index_to_type headerSelection in
  if fmt =? SF_FORMAT_AIFF then Z.lor SF_FORMAT_AIFF SF_FORMAT_PCM_16
  else fmt.

(** [ExportPCMOptions::OnHeaderChoice], up to [SetSelection(sel)];
    [headerSelection] is what [mHeaderChoice->GetSelection()] returns. *)
Definition OnHeaderChoice (this : ExportPCMOptions) (headerSelection : Z)
  : ExportPCMOptions :=
  let fmt := header_format headerSelection in
  let sfs := map (fun i => fi_format (sf_simple_format i))
               (upto sf_num_simple_formats) in
  let '(names, formats, sel) :=
    fold_left (choice_step fmt sfs) (upto sf_num_encodings)
      ([], [], wxNOT_FOUND) in
  let sel' := if sel =? wxNOT_FOUND then 0 else sel in
  mk_ExportPCMOptions (mHeaderNames this) names (mHeaderFromChoice this)
    sel' formats.

(** What the second loop of the constructor keeps: [sel] and the choice
    are within the encodings found so far. *)
Definition encoding_inv (st : encoding_loop) : Prop :=
  length (el_names st) = length (el_formats st) /\
  0 <= el_sel st <= Z.of_nat (length (el_formats st)) /\
  0 <= el_choice st <= Z.of_nat (length (el_formats st)) /\
  (el_formats st <> [] -> el_choice st < Z.of_nat (length (el_formats st))).

(** What the loop of [OnHeaderChoice] keeps: every encoding found is
    valid with the header, and [sel], once found, is the place of an
    encoding that makes a simple format with it. *)
Definition choice_inv (fmt : Z) (sfs : list Z)
    (st : list wxString * list Z * Z) : Prop :=
  let '(names, formats, sel) := st in
  length names = length formats /\
  Forall (fun enc => ValidatePair (Z.lor fmt enc) = true) formats /\
  (sel = wxNOT_FOUND \/
   0 <= sel /\
   exists enc, formats !! Z.to_nat sel = Some enc /\ In (Z.lor fmt enc) sfs).

End Options.

(** A library with two headers and seven encodings, for examples: signed
    8-bit PCM goes with AIFF only, the other encodings with both. *)
Module Sndfile.

Definition num_headers : Z := 2.

Definition header_index_to_type (i : Z) : Z :=
  if i =? 0 then SF_FORMAT_AIFF else if i =? 1 then SF_FORMAT_WAV else 0.

Definition header_index_name (i : Z) : wxString :=
  if i =? 0 then wxT "AIFF (Apple/SGI)"
  else if i =? 1 then wxT "WAV (Microsoft)" else [].

Definition num_encodings : Z := 7.

Definition encoding_index_to_subtype (i : Z) : Z :=
  if (0 <=? i) && (i <? 7) then i + 1 else 0.

Definition encoding_index_name (i : Z) : wxString :=
  nth (Z.to_nat i)
    [ wxT "Signed 8 bit PCM"; wxT "Signed 16 bit PCM"; wxT "Signed 24 bit PCM";
      wxT "Signed 32 bit PCM"; wxT "Unsigned 8 bit PCM"; wxT "32 bit float";
      wxT "64 bit float" ] [].

Definition format_check (info : SF_INFO) : Z :=
  let type := Z.land (format info) SF_FORMAT_TYPEMASK in
  let subtype := Z.land (format info) SF_FORMAT_SUBMASK in
  if (1 <=? channels info) && (channels info <=? 2)
     && (Z.lor type subtype =? format info)
     && (1 <=? subtype) && (subtype <=? 7)
     && ((type =? SF_FORMAT_AIFF)
         || ((type =? SF_FORMAT_WAV) && negb (subtype =? 1)))
  then 1 else 0.

Definition num_simple_formats : Z := 4.

Definition simple_format (i : Z) : SF_FORMAT_INFO :=
  nth (Z.to_nat i)
    [ mk_SF_FORMAT_INFO (Z.lor SF_FORMAT_AIFF SF_FORMAT_PCM_16)
        (wxT "AIFF (Apple/SGI 16 bit PCM)") (wxT "aiff");
      mk_SF_FORMAT_INFO (Z.lor SF_FORMAT_AIFF 1)
        (wxT "AIFF (Apple/SGI 8 bit PCM)") (wxT "aiff");
      mk_SF_FORMAT_INFO (Z.lor SF_FORMAT_WAV SF_FORMAT_FLOAT)
        (wxT "WAV (Microsoft 32 bit float)") (wxT "wav");
      mk_SF_FORMAT_INFO (Z.lor SF_FORMAT_WAV SF_FORMAT_PCM_16)
        (wxT "WAV (Microsoft 16 bit PCM)") (wxT "wav") ]
    (mk_SF_FORMAT_INFO 0 [] []).

Definition ctor : Z -> ExportPCMOptions :=
  ExportPCMOptions_ctor num_headers header_index_name header_index_to_type
    num_encodings encoding_index_name encoding_index_to_subtype format_check.

Definition on_header_choice : ExportPCMOptions -> Z -> ExportPCMOptions :=
  OnHeaderChoice header_index_to_type num_encodings encoding_index_name
    encoding_index_to_subtype num_simple_formats simple_format format_check.

End Sndfile.

(** ** ExportPCM.cpp: the export *)

(** The values of [ProgressResult]. *)
Inductive ProgressResult : Type := Cancelled | Success | Failed | Stopped.

Inductive sampleFormat : Type := int16Sample | floatSample.

(** The messages [Export] shows: "Cannot export audio in this format.",
    "Cannot export audio to %s", "Error while writing %s file (disk
    full?)..." and "Unable to export". *)
Inductive Message : Type :=
| Cannot_export_audio_in_this_format
| Cannot_export_audio_to
| Error_while_writing
| Unable_to_export.

(** The calls [ExportPCM::Export] makes, without the arguments that are
    handles or buffers; [call_sf_set_string] is made through
    [AddStrings]. *)
Inductive ExportCall : Type :=
| call_sf_header_name (type : Z)
| call_sf_format_check (info : SF_INFO)
| call_AudacityMessageBox (message : Message)
| call_Open
| call_sf_open_fd (info : SF_INFO)
| call_sf_command_SET_CLIPPING (clip : bool)
| call_GetTags
| call_sf_set_string (id : SF_STR) (str : list char)
| call_ReportTooBigError
| call_CreateMixer (t0 t1 : float) (numChannels maxBlockLen : Z)
    (rate : float) (format : sampleFormat)
| call_InitProgress (selectionOnly : bool)
| call_Process (maxBlockLen : Z)
| call_sf_writef_short (frames : Z)
| call_sf_writef_float (frames : Z)
| call_sf_error_str
| call_Update
| call_close
| call_AddID3Chunk (sf_format : Z).

(** What one turn of the loop of [Export] gets from outside: the frames
    that [Process] returns, the frames that the write returns, and the
    answer of the progress dialog. *)
Record turn : Type := mk_turn
  { numSamples : Z; samplesWritten : Z; updated : ProgressResult }.

(** The answers of the world around one [Export]: of libsndfile, of the
    file, of the project, of the mixer with the file and the dialog turn
    by turn, and of [AddID3Chunk]. *)
Record ExportWorld : Type := mk_ExportWorld
  { sf_format_check : SF_INFO -> Z;
    sf_subtype_is_integer : Z -> bool;
    sf_subtype_more_than_16_bits : Z -> bool;
    Open : bool;
    sf_open_fd : SF_INFO -> option SF_INFO;
    GetTags : Tags;
    turns : list turn;
    close : Z;
    AddID3Chunk_ok : bool }.

(** An [int] as a [double]. *)
Definition double_of_int (z : Z) : float :=
  if z <? 0 then PrimFloat.opp (PrimFloat.of_uint63 (Uint63.of_Z (- z)))
  else PrimFloat.of_uint63 (Uint63.of_Z z).

Definition is_live (r : ProgressResult) : bool :=
  match r with
  | Success | Stopped => true
  | _ => false
  end.

Definition is_wav_or_wavex (sf_format : Z) : bool :=
  (Z.land sf_format SF_FORMAT_TYPEMASK =? SF_FORMAT_WAV)
  || (Z.land sf_format SF_FORMAT_TYPEMASK =? SF_FORMAT_WAVEX).

Definition is_aiff_or_wav (sf_format : Z) : bool :=
  (Z.land sf_format SF_FORMAT_TYPEMASK =? SF_FORMAT_AIFF)
  || (Z.land sf_format SF_FORMAT_TYPEMASK =? SF_FORMAT_WAV).

(** The strings set and the frames written by a run, in call order. *)
Definition strings_set (calls : list ExportCall) : list sf_set_string_call :=
  omap (fun c => match c with
                 | call_sf_set_string id str => Some (id, str)
                 | _ => None
                 end) calls.

Definition frames_written (calls : list ExportCall) : list Z :=
  omap (fun c => match c with
                 | call_sf_writef_short n | call_sf_writef_float n => Some n
                 | _ => None
                 end) calls.

(** Whether a call, when it writes frames, writes them as the sample
    format says. *)
Definition written_as (format : sampleFormat) (c : ExportCall) : bool :=
  match c, format with
  | call_sf_writef_short _, floatSample => false
  | call_sf_writef_float _, int16Sample => false
  | _, _ => true
  end.

(** A turn after which the loop of [Export] goes on. *)
Definition goes_on (t : turn) : bool :=
  negb (numSamples t =? 0)
  && (SizeT.wrap (samplesWritten t) =? numSamples t)
  && match updated t with
     | Success => true
     | _ => false
     end.

Section ExportRun.

Context {L : wxLocale} {C : wxConv}.

(** The conversions of a [double] to [unsigned int] and to [float]. *)
Variable to_unsigned_int : float -> Z.
Variable to_float : float -> float.

Variable WXMAC : bool.
Variable Read : Z -> Z.
Variable K : TagKeys.

(** [AddStrings] as [Export] calls it: its calls on the file, and what
    it returns. *)
Definition AddStrings_calls (metadata : Tags) (sf_format : Z)
  : option (bool * list ExportCall) :=
  match AddStrings K metadata sf_format with
  | Some (ok, calls) =>
      Some (ok, map (fun c => call_sf_set_string (fst c) (snd c)) calls)
  | None => None
  end.

(** The [while] loop of [Export], entered with [updateResult] at
    [Success]: what [updateResult] is after it and the calls made, or
    [None] when the turns given end before the loop does. *)
Fixpoint export_loop (format : sampleFormat) (maxBlockLen : Z)
    (ts : list turn) : option (ProgressResult * list ExportCall) :=
  match ts with
  | [] => None
  | t :: rest =>
      if numSamples t =? 0 then Some (Success, [call_Process maxBlockLen])
      else
        let write :=
          match format with
          | int16Sample => call_sf_writef_short (numSamples t)
          | floatSample => call_sf_writef_float (numSamples t)
          end in
        if negb (SizeT.wrap (samplesWritten t) =? numSamples t) then
          Some (Cancelled,
                [ call_Process maxBlockLen; write; call_sf_error_str;
                  call_AudacityMessageBox Error_while_writing ])
        else
          match updated t with
          | Success =>
              match export_loop format maxBlockLen rest with
              | Some (r, calls) =>
                  Some (r, call_Process maxBlockLen :: write :: call_Update
                           :: calls)
              | None => None
              end
          | r => Some (r, [call_Process maxBlockLen; write; call_Update])
          end
  end.

(** The end of [Export], from the test after the loop. *)
Definition export_end (w : ExportWorld) (metadata : Tags) (sf_format : Z)
    (updateResult : ProgressResult)
  : option (ProgressResult * list ExportCall) :=
  if is_live updateResult then
    match
      (if is_wav_or_wavex sf_format
       then AddStrings_calls metadata sf_format
       else Some (true, []))
    with
    | None => None
    | Some (false, strings) =>
        Some (Cancelled, strings ++ [call_AudacityMessageBox Unable_to_export])
    | Some (true, strings) =>
        if negb (0 =? close w) then
          Some (Cancelled,
                strings ++ [call_close;
                            call_AudacityMessageBox Unable_to_export])
        else if is_aiff_or_wav sf_format then
          if negb (AddID3Chunk_ok w) then
            Some (Cancelled,
                  strings ++ [call_close; call_AddID3Chunk sf_format;
                              call_AudacityMessageBox Unable_to_export])
          else
            Some (updateResult,
                  strings ++ [call_close; call_AddID3Chunk sf_format])
        else Some (updateResult, strings ++ [call_close])
    end
  else Some (updateResult, []).

Definition then_calls (before : list ExportCall)
    (r : option (ProgressResult * list ExportCall))
  : option (ProgressResult * list ExportCall) :=
  match r with
  | Some (res, calls) => Some (res, before ++ calls)
  | None => None
  end.

(** The [SF_INFO] that [Export] fills in, and the one it goes on with:
    when libsndfile does not take the first, the format is cut down to
    its header type. *)
Definition Export_info0 (rate : float) (numChannels : Z) (t0 t1 : float)
    (sf_format : Z) : SF_INFO :=
  mk_SF_INFO (to_unsigned_int ((t1 - t0) * rate + 0.5)%float)
    (to_unsigned_int (rate + 0.5)%float) numChannels sf_format 1 0.

Definition Export_info (w : ExportWorld) (info0 : SF_INFO) : SF_INFO :=
  if sf_format_check w info0 =? 0
  then mk_SF_INFO (frames info0) (samplerate info0) (channels info0)
         (Z.land (format info0) SF_FORMAT_TYPEMASK) (sections info0)
         (seekable info0)
  else info0.

(** The tags [Export] writes: those given, or those of the project. *)
Definition Export_metadata (w : ExportWorld) (metadata : option Tags) : Tags :=
  match metadata with
  | None => GetTags w
  | Some tags => tags
  end.

(** The test for a file of more than 4 GiB. *)
Definition too_big (rate : float) (t0 t1 : float) (numChannels : Z)
    (format : sampleFormat) : bool :=
  let sampleCount :=
    to_float (to_float (t1 - t0) * rate * double_of_int numChannels)%float in
  let byteCount :=
    to_float (sampleCount
              * match format with
                | int16Sample => 2
                | floatSample => 4
                end)%float in
  (4.295e9 <? byteCount)%float.

(** [ExportPCM::Export]: what it returns and the calls it makes, in
    order; [None] when the turns of the world end before the loop does.
    [metadata] is [None] for a null pointer. *)
Definition Export (w : ExportWorld) (rate : float) (numChannels : Z)
    (selectionOnly : bool) (t0 t1 : float) (metadata : option Tags)
    (subformat : Z) : option (ProgressResult * list ExportCall) :=
  let sf_format := format_of_index WXMAC Read subformat in
  let info0 := Export_info0 rate numChannels t0 t1 sf_format in
  let info := Export_info w info0 in
  let calls :=
    [ call_sf_header_name (Z.land sf_format SF_FORMAT_TYPEMASK);
      call_sf_format_check info0; call_sf_format_check info ] in
  if sf_format_check w info =? 0 then
    Some (Cancelled,
          calls ++ [call_AudacityMessageBox Cannot_export_audio_in_this_format])
  else
    let opened := if Open w then sf_open_fd w info else None in
    let calls :=
      calls ++ call_Open ::
      (if Open w
       then [ call_sf_open_fd info;
              call_sf_command_SET_CLIPPING (sf_subtype_is_integer w sf_format) ]
       else []) in
    match opened with
    | None =>
        Some (Cancelled, calls ++ [call_AudacityMessageBox Cannot_export_audio_to])
    | Some info =>
        let calls :=
          calls ++ match metadata with
                   | None => [call_GetTags]
                   | Some _ => []
                   end in
        let metadata := Export_metadata w metadata in
        match
          (if negb (is_wav_or_wavex sf_format)
           then AddStrings_calls metadata sf_format
           else Some (true, []))
        with
        | None => None
        | Some (false, strings) => Some (Cancelled, calls ++ strings)
        | Some (true, strings) =>
            let calls := calls ++ strings in
            let format :=
              if sf_subtype_more_than_16_bits w (format info)
              then floatSample else int16Sample in
            if too_big rate t0 t1 (channels info) format then
              Some (Failed, calls ++ [call_ReportTooBigError])
            else
              let maxBlockLen := 44100 * 5 in
              let calls :=
                calls ++ [ call_CreateMixer t0 t1 (channels info) maxBlockLen
                             rate format;
                           call_InitProgress selectionOnly ] in
              match export_loop format maxBlockLen (turns w) with
              | None => None
              | Some (updateResult, more) =>
                  then_calls (calls ++ more)
                    (export_end w metadata sf_format updateResult)
              end
        end
    end.

End ExportRun.

(** The conversion of a finite [double] to [unsigned int], for a value
    in range: towards zero. *)
Definition double_to_unsigned_int (f : float) : Z :=
  match Prim2SF f with
  | S754_finite s m e =>
      let v := if 0 <=? e then Z.pos m * 2 ^ e else Z.pos m / 2 ^ (- e) in
      if s then - v else v
  | _ => 0
  end.

(** The conversion of a [double] to [float]: to the nearest value with
    24 bits, ties to even. *)
Definition double_to_float (f : float) : float :=
  match Prim2SF f with
  | S754_finite s m e => SF2Prim (binary_round 24 128 s m e)
  | _ => f
  end.

(** A world for examples: the library of [Sndfile], a file that opens
    and closes, and a mixer that gives two blocks. *)
Module Studio.

Definition world : ExportWorld :=
  mk_ExportWorld Sndfile.format_check
    (fun f => Z.land f SF_FORMAT_SUBMASK <=? 5)
    (fun f => negb ((Z.land f SF_FORMAT_SUBMASK <=? 2)
                    || (Z.land f SF_FORMAT_SUBMASK =? 5)))
    true (fun info => Some info) example_tags
    [ mk_turn 220500 220500 Success; mk_turn 1000 1000 Success;
      mk_turn 0 0 Success ]
    0 true.

Definition Read (default : Z) : Z := default.

Definition Export
  : ExportWorld -> float -> Z -> bool -> float -> float -> option Tags -> Z ->
    option (ProgressResult * list ExportCall) :=
  Export (L := C_locale) (C := latin1_conv) double_to_unsigned_int
    double_to_float false Read standard_keys.

End Studio.

(** ** ExportPCM.cpp: the ID3 chunk *)

(** A file opened for update, as [AddID3Chunk] uses it: its bytes, the
    position, and the size the disk lets it grow to.  A write stores as
    many bytes as there is room for and returns their number; seeking
    and telling always succeed. *)
Module wxFFile.

Record t : Type := mk { bytes : list Byte.byte; pos : nat; room : nat }.

Definition SeekEnd (f : t) : bool * t :=
  (true, mk (bytes f) (length (bytes f)) (room f)).

Definition Seek (f : t) (ofs : nat) : bool * t :=
  (true, mk (bytes f) ofs (room f)).

Definition Tell (f : t) : Z := Z.of_nat (pos f).

Definition Write (f : t) (data : list Byte.byte) : Z * t :=
  let stored := take (room f - pos f) data in
  (Z.of_nat (length stored),
   mk (take (pos f) (bytes f) ++ replicate (pos f - length (bytes f)) Byte.x00
       ++ stored ++ drop (pos f + length stored) (bytes f))
      (pos f + length stored) (room f)).

Definition Flush (f : t) : bool := true.

Definition Close (f : t) : bool := true.

End wxFFile.

Definition byte_of_Z (z : Z) : Byte.byte :=
  match Byte.of_N (Z.to_N (z mod 256)) with
  | Some b => b
  | None => Byte.x00
  end.

(** A [wxUint32], and its four bytes in either order. *)
Definition uint32 (z : Z) : Z := z mod 2 ^ 32.

Definition le32 (x : Z) : list Byte.byte :=
  [ byte_of_Z x; byte_of_Z (x / 2 ^ 8); byte_of_Z (x / 2 ^ 16);
    byte_of_Z (x / 2 ^ 24) ].

Definition be32 (x : Z) : list Byte.byte := rev (le32 x).

(** The bytes of a [wxUint32] in memory, and [wxUINT32_SWAP_ON_LE]. *)
Definition bytes_in_memory (little_endian : bool) (x : Z) : list Byte.byte :=
  if little_endian then le32 x else be32 x.

Definition wxUINT32_SWAP (x : Z) : Z :=
  (x mod 256) * 2 ^ 24 + (x / 2 ^ 8 mod 256) * 2 ^ 16
  + (x / 2 ^ 16 mod 256) * 2 ^ 8 + x / 2 ^ 24 mod 256.

Definition wxUINT32_SWAP_ON_LE (little_endian : bool) (x : Z) : Z :=
  if little_endian then wxUINT32_SWAP x else x.

(** Values of id3tag.h. *)
Definition ID3_FRAME_TITLE : string := "TIT2".
Definition ID3_FRAME_ARTIST : string := "TPE1".
Definition ID3_FRAME_ALBUM : string := "TALB".
Definition ID3_FRAME_TRACK : string := "TRCK".
Definition ID3_FRAME_YEAR : string := "TDRC".
Definition ID3_FRAME_GENRE : string := "TCON".
Definition ID3_FRAME_COMMENT : string := "COMM".

Inductive id3_field_textencoding : Type :=
| ID3_FIELD_TEXTENCODING_ISO_8859_1
| ID3_FIELD_TEXTENCODING_UTF_16.

(** The text fields [AddID3Chunk] sets in a frame: the full string of a
    comment (with the language zeroed), the description and the value of
    a user text, or the one string of any other frame.  The strings are
    kept as they are in the tags, not as the UCS-4 copies made of them. *)
Inductive id3_text : Type :=
| comment_text (fullstring : wxString)
| user_text (description value : wxString)
| strings_text (strings : list wxString).

Record id3_frame : Type := mk_id3_frame
  { frame_id : string; textencoding : id3_field_textencoding;
    text : id3_text }.

Section ID3.

Context {L : wxLocale}.

Variable K : TagKeys.

(** The frame id [AddID3Chunk] picks for a tag name. *)
Definition frame_name (n : wxString) : string :=
  if CmpNoCase n (TAG_TITLE K) =? 0 then ID3_FRAME_TITLE
  else if CmpNoCase n (TAG_ARTIST K) =? 0 then ID3_FRAME_ARTIST
  else if CmpNoCase n (TAG_ALBUM K) =? 0 then ID3_FRAME_ALBUM
  else if CmpNoCase n (TAG_YEAR K) =? 0 then ID3_FRAME_YEAR
  else if CmpNoCase n (TAG_GENRE K) =? 0 then ID3_FRAME_GENRE
  else if CmpNoCase n (TAG_COMMENTS K) =? 0 then ID3_FRAME_COMMENT
  else if CmpNoCase n (TAG_TRACK K) =? 0 then ID3_FRAME_TRACK
  else if CmpNoCase n (wxT "composer") =? 0 then "TCOM"
  else "TXXX".

(** The name that a frame id other than "TXXX" is picked for. *)
Definition frame_key (id : string) : option wxString :=
  if String.eqb id ID3_FRAME_TITLE then Some (TAG_TITLE K)
  else if String.eqb id ID3_FRAME_ARTIST then Some (TAG_ARTIST K)
  else if String.eqb id ID3_FRAME_ALBUM then Some (TAG_ALBUM K)
  else if String.eqb id ID3_FRAME_YEAR then Some (TAG_YEAR K)
  else if String.eqb id ID3_FRAME_GENRE then Some (TAG_GENRE K)
  else if String.eqb id ID3_FRAME_COMMENT then Some (TAG_COMMENTS K)
  else if String.eqb id ID3_FRAME_TRACK then Some (TAG_TRACK K)
  else if String.eqb id "TCOM" then Some (wxT "composer")
  else None.

(** The body of the loop of [AddID3Chunk]: the frame attached for one
    tag. *)
Definition frame_of (pair : wxString * wxString) : id3_frame :=
  let n := fst pair in
  let v := snd pair in
  let name := frame_name n in
  mk_id3_frame name
    (if negb (IsAscii n) || negb (IsAscii v)
     then ID3_FIELD_TEXTENCODING_UTF_16
     else ID3_FIELD_TEXTENCODING_ISO_8859_1)
    (if String.eqb name ID3_FRAME_COMMENT then comment_text v
     else if String.eqb name "TXXX" then user_text n v
     else strings_text [v]).

(** libid3tag: the options of a new tag, the two option bits (the second
    only when the library has it), and the rendering of a tag. *)
Variable default_options : Z.
Variable ID3_TAG_OPTION_COMPRESSION : Z.
Variable ID3_TAG_OPTION_ID3V2_3 : option Z.
Variable id3_tag_render : list id3_frame -> Z -> list Byte.byte.

(** Whether the machine stores the low byte of a word first. *)
Variable little_endian : bool.

Definition ID3_frames (tags : Tags) : list id3_frame :=
  map frame_of (GetRange tags).

Definition ID3_options : Z :=
  let options := Z.land default_options (Z.lnot ID3_TAG_OPTION_COMPRESSION) in
  match ID3_TAG_OPTION_ID3V2_3 with
  | Some bit => Z.lor options bit
  | None => options
  end.

(** The bytes of the tag, and [buffer]: the tag in an array of zeros of
    even length. *)
Definition ID3_rendered (tags : Tags) : list Byte.byte :=
  id3_tag_render (ID3_frames tags) ID3_options.

Definition ID3_len (tags : Tags) : Z :=
  let len := Z.of_nat (length (ID3_rendered tags)) in
  if negb (len mod 2 =? 0) then len + 1 else len.

Definition ID3_buffer (tags : Tags) : list Byte.byte :=
  ID3_rendered tags
  ++ replicate (Z.to_nat (ID3_len tags) - length (ID3_rendered tags)) Byte.x00.

(** [ExportPCM::AddID3Chunk] with libid3tag: what it returns, and the
    file as it leaves it.  [file] is the file as [wxFFile f(fName,
    "r+b")] finds it, [None] for a file that does not open. *)
Definition AddID3Chunk (file : option wxFFile.t) (tags : Tags) (sf_format : Z)
  : bool * option wxFFile.t :=
  let len := Z.of_nat (length (ID3_rendered tags)) in
  if len =? 0 then (true, file)
  else
    let len := ID3_len tags in
    let buffer := ID3_buffer tags in
    match file with
    | None => (false, None)
    | Some f =>
        let sz := uint32 len in
        let (ok, f) := wxFFile.SeekEnd f in
        if negb ok then (false, Some f)
        else
          let step :=
            if Z.land sf_format SF_FORMAT_TYPEMASK =? SF_FORMAT_WAV then
              let (n, f) := wxFFile.Write f [Byte.x69; Byte.x64; Byte.x33; Byte.x20] in
              (negb (4 =? n), sz, f)
            else
              let (n, f) := wxFFile.Write f [Byte.x49; Byte.x44; Byte.x33; Byte.x20] in
              (negb (4 =? n), wxUINT32_SWAP_ON_LE little_endian sz, f) in
          let '(failed, sz, f) := step in
          if failed then (false, Some f)
          else
            let (n, f) := wxFFile.Write f (bytes_in_memory little_endian sz) in
            if negb (4 =? n) then (false, Some f)
            else
              let (n, f) := wxFFile.Write f buffer in
              if negb (len =? n) then (false, Some f)
              else
                let sz := uint32 (uint32 (wxFFile.Tell f) - 8) in
                let sz :=
                  if Z.land sf_format SF_FORMAT_TYPEMASK =? SF_FORMAT_AIFF
                  then wxUINT32_SWAP_ON_LE little_endian sz else sz in
                let (ok, f) := wxFFile.Seek f 4 in
                if negb ok then (false, Some f)
                else
                  let (n, f) := wxFFile.Write f (bytes_in_memory little_endian sz) in
                  if negb (4 =? n) then (false, Some f)
                  else if negb (wxFFile.Flush f) then (false, Some f)
                  else if negb (wxFFile.Close f) then (false, Some f)
                  else (true, Some f)
    end.

End ID3.

(** A file and a renderer for examples: a 12-byte RIFF header with room
    to grow, and a tag of three bytes. *)
Module StudioFile.

Definition riff : wxFFile.t :=
  wxFFile.mk
    (map Ascii.byte_of_ascii (String.list_ascii_of_string "RIFF")
     ++ le32 4
     ++ map Ascii.byte_of_ascii (String.list_ascii_of_string "WAVE"))
    0 64.

Definition render (frames : list id3_frame) (options : Z) : list Byte.byte :=
  [Byte.x49; Byte.x44; Byte.x33].

Definition AddID3Chunk
  : option wxFFile.t -> Tags -> Z -> bool * option wxFFile.t :=
  AddID3Chunk (L := C_locale) standard_keys 0 2 (Some 8) render true.

End StudioFile.

(** * Properties *)

(** ** size_t arithmetic *)

Lemma lnot_complement (n : Z) :
  SizeT.in_range n -> SizeT.lnot n = SizeT.modulus - 1 - n.
Proof.
  unfold SizeT.in_range, SizeT.lnot, SizeT.wrap. intros Hn.
  replace (Z.lnot n) with (SizeT.modulus - 1 - n + (-1) * SizeT.modulus)
    by (unfold Z.lnot; lia).
  rewrite Z_mod_plus_full. apply Z.mod_small. lia.
Qed.

Lemma msb_low (n : Z) : 0 <= n < 2 ^ 63 -> SizeT.msb n = false.
Proof.
  intros Hn. unfold SizeT.msb, SizeT.width. change (64 - 1) with 63.
  apply Z.testbit_false; [lia|].
  rewrite Z.div_small by lia. reflexivity.
Qed.

Lemma msb_high (n : Z) : 2 ^ 63 <= n < 2 ^ 64 -> SizeT.msb n = true.
Proof.
  intros Hn. unfold SizeT.msb, SizeT.width. change (64 - 1) with 63.
  apply Z.testbit_true; [lia|].
  replace (n / 2 ^ 63) with 1; [reflexivity|].
  apply Z.div_unique with (r := n - 2 ^ 63); lia.
Qed.

Lemma lnot_involutive (n : Z) :
  SizeT.in_range n -> SizeT.lnot (SizeT.lnot n) = n.
Proof.
  intros Hn. rewrite (lnot_complement n Hn).
  rewrite lnot_complement; unfold SizeT.in_range in *; lia.
Qed.

Lemma sentinel_decodes (n : Z) :
  0 <= n < 2 ^ 63 ->
  SizeT.flush_requested (SizeT.lnot n) = true /\
  SizeT.decoded_len (SizeT.lnot n) = n.
Proof.
  intros Hn.
  assert (Hr : SizeT.in_range n)
    by (unfold SizeT.in_range, SizeT.modulus, SizeT.width; lia).
  assert (Hm : SizeT.msb (SizeT.lnot n) = true).
  { apply msb_high. rewrite lnot_complement by exact Hr.
    unfold SizeT.modulus, SizeT.width. lia. }
  unfold SizeT.flush_requested, SizeT.decoded_len. rewrite Hm.
  split; [reflexivity | apply lnot_involutive; exact Hr].
Qed.

(** How the converter reads the length [Process] passes for a block. *)
Lemma length_reading (il : Z) (last : bool) :
  0 <= il < 2 ^ 63 ->
  SizeT.flush_requested (if last then SizeT.lnot il else il) = last /\
  SizeT.decoded_len (if last then SizeT.lnot il else il) = il.
Proof.
  intros Hil. destruct last.
  - apply sentinel_decodes. exact Hil.
  - unfold SizeT.flush_requested, SizeT.decoded_len.
    rewrite (msb_low il Hil). split; reflexivity.
Qed.

(** ** What a run of the wrapper looks like *)

Section Runs.

Context {W : Type} (hd : handler W).

Lemma run_call {R : Type} (e : extE R) (w : W) :
  run hd (call e) w =
  mk_outcome [Call e (fst (hd R e w))] (snd (hd R e w)) (Some (fst (hd R e w))).
Proof. reflexivity. Qed.

(** [Process] on a constant-ratio converter is one [soxr_process] call. *)
Lemma run_Process_const (this : Resample) factor ib il last ob ol i0 o0 w :
  mbWantConstRateResampling this = true ->
  let e := soxr_process (mHandle this) ib
             (if last : bool then SizeT.lnot il else il) ob ol in
  run hd (Process this factor ib il last ob ol i0 o0) w =
  mk_outcome [Call e (fst (hd _ e w))] (snd (hd _ e w))
    (Some (finish_Process i0 o0 ob (fst (hd _ e w)))).
Proof. intros Hc. unfold Process. rewrite Hc. reflexivity. Qed.

(** On a variable-ratio converter it is [soxr_set_io_ratio] and then
    [soxr_process]. *)
Lemma run_Process_var (this : Resample) factor ib il last ob ol i0 o0 w :
  mbWantConstRateResampling this = false ->
  let s := soxr_set_io_ratio (mHandle this) (1 / factor)%float 0 in
  let w1 := snd (hd _ s w) in
  let e := soxr_process (mHandle this) ib
             (if last : bool then SizeT.lnot il else il) ob ol in
  run hd (Process this factor ib il last ob ol i0 o0) w =
  mk_outcome [Call s (fst (hd _ s w)); Call e (fst (hd _ e w1))]
    (snd (hd _ e w1))
    (Some (finish_Process i0 o0 ob (fst (hd _ e w1)))).
Proof. intros Hc. unfold Process. rewrite Hc. reflexivity. Qed.

Lemma run_SetMethod (b : bool) (w : W) :
  run hd (SetMethod b) w =
  mk_outcome [Call (ReadInt (setting_for b))
                     (fst (hd _ (ReadInt (setting_for b)) w))]
    (snd (hd _ (ReadInt (setting_for b)) w))
    (Some (fst (hd _ (ReadInt (setting_for b)) w))).
Proof. destruct b; reflexivity. Qed.

Lemma run_ctor_var (b : bool) (mn mx : float) (w : W) :
  PrimFloat.eqb mn mx = false ->
  let rd := ReadInt (setting_for b) in
  let m := fst (hd _ rd w) in
  let cr := soxr_create 1 mn 1 (soxr_quality_spec SOXR_HQ SOXR_VR) in
  let w1 := snd (hd _ rd w) in
  run hd (Resample_ctor b mn mx) w =
  mk_outcome [Call rd m; Call cr (fst (hd _ cr w1))] (snd (hd _ cr w1))
    (Some (mk_Resample m (fst (hd _ cr w1)) false)).
Proof.
  intros He. unfold Resample_ctor. destruct b; cbn; rewrite He; reflexivity.
Qed.

Lemma run_ctor_const (b : bool) (mn mx : float) (w : W) :
  PrimFloat.eqb mn mx = true ->
  let rd := ReadInt (setting_for b) in
  let m := fst (hd _ rd w) in
  let w1 := snd (hd _ rd w) in
  run hd (Resample_ctor b mn mx) w =
  match recipe_of_method m with
  | Some recipe =>
      let cr := soxr_create 1 mn 1 (soxr_quality_spec recipe 0) in
      mk_outcome [Call rd m; Call cr (fst (hd _ cr w1))] (snd (hd _ cr w1))
        (Some (mk_Resample m (fst (hd _ cr w1)) true))
  | None => mk_outcome [Call rd m] w1 None
  end.
Proof.
  intros He. unfold Resample_ctor.
  destruct b; cbn; rewrite He;
    destruct (recipe_of_method _); reflexivity.
Qed.

(** The mode of a constructed converter is the comparison of its bounds. *)
Lemma ctor_mode (b : bool) (mn mx : float) (w : W) (this : Resample) :
  value (run hd (Resample_ctor b mn mx) w) = Some this ->
  mbWantConstRateResampling this = PrimFloat.eqb mn mx.
Proof.
  destruct (PrimFloat.eqb mn mx) eqn:He.
  - rewrite (run_ctor_const b mn mx w He).
    destruct (recipe_of_method _); cbn; intros H; inversion H; reflexivity.
  - rewrite (run_ctor_var b mn mx w He).
    cbn; intros H; inversion H; reflexivity.
Qed.

End Runs.

(** ** The converter wrapper *)


(** C1 (as amended).  A converter constructed with equal bounds never
    touches the ratio again: [Process] makes no [soxr_set_io_ratio] call,
    the converter keeps the rates 1 : dMinFactor it was created with, and
    the run does not depend on [factor].  A converter constructed with
    unequal bounds first sets the input:output ratio of the underlying
    converter to the reciprocal [1 / factor], and then processes. *)
Theorem C1_factor_per_mode {W : Type} (hd : handler W) (w0 w : W)
    (useBestMethod : bool) (dMinFactor dMaxFactor : float) (this : Resample)
    (factor : float) (ib : list float) (il : Z) (last : bool)
    (ob : list float) (ol i0 o0 : Z) :
  value (run hd (Resample_ctor useBestMethod dMinFactor dMaxFactor) w0) = Some this ->
  let o := run hd (Process this factor ib il last ob ol i0 o0) w in
  if PrimFloat.eqb dMinFactor dMaxFactor then
    io_ratios (calls o) = [] /\
    rates_created
      (calls (run hd (Resample_ctor useBestMethod dMinFactor dMaxFactor) w0))
      = [(1%float, dMinFactor)] /\
    forall factor' : float,
      run hd (Process this factor' ib il last ob ol i0 o0) w = o
  else
    exists (status : soxr_error_t) (result : soxr_process_result),
      calls o =
        [ Call (soxr_set_io_ratio (mHandle this) (1 / factor)%float 0) status;
          Call (soxr_process (mHandle this) ib
                  (if last then SizeT.lnot il else il) ob ol) result ].
Proof.
  intros Hthis o. pose proof (ctor_mode hd _ _ _ _ _ Hthis) as Hmode.
  destruct (PrimFloat.eqb dMinFactor dMaxFactor) eqn:He.
  - split; [| split].
    + subst o. rewrite run_Process_const by exact Hmode. reflexivity.
    + revert Hthis. rewrite (run_ctor_const hd _ _ _ w0 He).
      destruct (recipe_of_method _); cbn; [reflexivity | discriminate].
    + intros factor'. subst o.
      rewrite !run_Process_const by exact Hmode. reflexivity.
  - subst o. rewrite run_Process_var by exact Hmode.
    eexists; eexists; reflexivity.
Qed.


(** C3.  In both modes [Process] makes one [soxr_process] call, and it
    makes it on the converter of the object ([mHandle]), with the input
    buffer, the output buffer and the output capacity it was given
    itself, and with the input length marked: the bitwise complement of
    [inBufferLen] when [lastFlag] is set and [inBufferLen] itself when it
    is not.  What the converter writes on that call, which on a flush
    request is its buffered state, is what [Process] leaves in the output
    buffer, and the counts the converter stores are the counts returned.
    For a length below 2^63 the converter reads the complement as a flush
    request for [inBufferLen] samples (top bit set, complement
    [2^64 - 1 - inBufferLen]) and the unmarked length as a plain
    length. *)
Theorem C3_last_block_sentinel {W : Type} (hd : handler W) (w : W)
    (this : Resample) (factor : float) (ib : list float) (il : Z)
    (last : bool) (ob : list float) (ol i0 o0 : Z) :
  let passed := if last then SizeT.lnot il else il in
  let p := run hd (Process this factor ib il last ob ol i0 o0) w in
  (exists r : soxr_process_result,
     process_exchanges (calls p) = [(mHandle this, ib, passed, ob, ol, r)] /\
     value p =
       Some (mk_ProcessResult (stored i0 (sp_idone r)) (stored o0 (sp_odone r))
               (overwrite ob (sp_written r)))) /\
  lengths_passed (calls p) = [passed] /\
  (0 <= il < 2 ^ 63 ->
   SizeT.lnot il = 2 ^ 64 - 1 - il /\
   SizeT.flush_requested passed = last /\
   SizeT.decoded_len passed = il).
Proof.
  intros passed p. split; [| split].
  - subst p. destruct (mbWantConstRateResampling this) eqn:Hc.
    + rewrite run_Process_const by exact Hc.
      eexists. split; reflexivity.
    + rewrite run_Process_var by exact Hc.
      eexists. split; reflexivity.
  - subst p. destruct (mbWantConstRateResampling this) eqn:Hc.
    + rewrite run_Process_const by exact Hc. reflexivity.
    + rewrite run_Process_var by exact Hc. reflexivity.
  - intros Hil. split.
    + apply lnot_complement.
      unfold SizeT.in_range, SizeT.modulus, SizeT.width. lia.
    + apply length_reading. exact Hil.
Qed.

(** C10.  With bounds that differ, whatever [useBestMethod] is and
    whatever the settings resolve to, the converter is created with the
    recipe [SOXR_HQ] and the flag [SOXR_VR]; the four presets are the
    recipes of the constant-ratio branch. *)
Theorem C10_variable_rate_profile {W : Type} (hd : handler W) (w : W)
    (useBestMethod : bool) (dMinFactor dMaxFactor : float) :
  PrimFloat.eqb dMinFactor dMaxFactor = false ->
  created_with
    (calls (run hd (Resample_ctor useBestMethod dMinFactor dMaxFactor) w))
    = [(1%float, dMinFactor, 1, soxr_quality_spec SOXR_HQ SOXR_VR)] /\
  map recipe_of_method intChoicesMethod = map Some preset_recipes.
Proof.
  intros He. rewrite (run_ctor_var hd _ _ _ w He). split; reflexivity.
Qed.

(** C1, as stated, at the factor 2: the ratio applied is 0.5, not 2. *)
Lemma C1_factor_is_inverted :
  io_ratios
    (calls (run Loopback.hd
              (Process (mk_Resample 1 (Some 1%positive) false) 2
                 [] 0 false [] 0 0 0) (∅, ∅)))
    = [0.5%float] /\
  io_ratios
    (calls (run Loopback.hd
              (Process (mk_Resample 1 (Some 1%positive) false) 2
                 [] 0 false [] 0 0 0) (∅, ∅)))
    <> [2%float].
Proof.
  split; [reflexivity |].
  intros H.
  apply (f_equal (fun l => match l with
                           | x :: _ => PrimFloat.eqb x 2
                           | [] => false
                           end)) in H.
  vm_compute in H. discriminate H.
Qed.

Lemma C1_factor_per_mode_witness :
  value (run Loopback.hd (Resample_ctor true 2 2) (∅, ∅))
    = Some (mk_Resample 3 (Some 1%positive) true) /\
  io_ratios
    (calls (run Loopback.hd
              (Process (mk_Resample 3 (Some 1%positive) true) 5
                 [] 0 false [] 0 0 0) (∅, ∅))) = [].
Proof.
  split; [reflexivity |].
  exact (proj1 (C1_factor_per_mode Loopback.hd (∅, ∅) (∅, ∅) true 2 2
                  (mk_Resample 3 (Some 1%positive) true) 5
                  [] 0 false [] 0 0 0 eq_refl)).
Defined.

Lemma C3_last_block_sentinel_witness :
  let this := mk_Resample 3 (Some 1%positive) true in
  let ob := [0%float; 0%float; 0%float; 0%float] in
  let first := run Delay.hd
                 (Process this 1 [1%float; 2%float; 3%float] 3 false ob 4 0 0)
                 (∅, {[ 1%positive := [] ]}) in
  let p := run Delay.hd (Process this 1 [] 0 true ob 4 0 0) (world first) in
  value first = Some (mk_ProcessResult 3 2 [1%float; 2%float; 0%float; 0%float]) /\
  process_exchanges (calls p)
    = [(Some 1%positive, [], SizeT.lnot 0, ob, 4,
        mk_process_result None (Some 0) (Some 1) [3%float])] /\
  value p = Some (mk_ProcessResult 0 1 [3%float; 0%float; 0%float; 0%float]) /\
  SizeT.lnot 0 = 2 ^ 64 - 1 - 0 /\
  SizeT.flush_requested (SizeT.lnot 0) = true /\
  SizeT.decoded_len (SizeT.lnot 0) = 0.
Proof.
  cbv zeta.
  assert (H : 0 <= 0 < 2 ^ 63) by lia.
  split; [reflexivity |]. split; [reflexivity |]. split; [reflexivity |].
  exact (proj2 (proj2 (C3_last_block_sentinel Delay.hd
                         (world (run Delay.hd
                                   (Process (mk_Resample 3 (Some 1%positive) true)
                                      1 [1%float; 2%float; 3%float] 3 false
                                      [0%float; 0%float; 0%float; 0%float]
                                      4 0 0)
                                   (∅, {[ 1%positive := [] ]})))
                         (mk_Resample 3 (Some 1%positive) true) 1 [] 0 true
                         [0%float; 0%float; 0%float; 0%float] 4 0 0)) H).
Defined.

Lemma C10_variable_rate_profile_witness :
  PrimFloat.eqb 0.5 2 = false /\
  created_with (calls (run Loopback.hd (Resample_ctor false 0.5 2) (∅, ∅)))
    = [(1%float, 0.5%float, 1, soxr_quality_spec SOXR_HQ SOXR_VR)].
Proof.
  split; [reflexivity |].
  exact (proj1 (C10_variable_rate_profile Loopback.hd (∅, ∅) false 0.5 2 eq_refl)).
Defined.

(** ** Failure and bounds *)

(** C4, as stated, on a converter whose creation was refused (output rate
    0): the object holds a null handle, the converter reports an error and
    stores nothing, and [Process] returns as produced count the value its
    uninitialised local had, here 7, not 0. *)
Lemma C4_failed_converter_garbage :
  let o := run Loopback.hd (Resample_ctor true 0 0) (∅, ∅) in
  let this := mk_Resample 3 None true in
  let p := run Loopback.hd
             (Process this 1 [1%float] 1 false [0%float] 1 5 7) (world o) in
  value o = Some this /\
  map sp_error (process_results (calls p)) = [Some "null pointer"%string] /\
  (exists res, value p = Some res /\ produced res = 7) /\
  ~ (forall res, value p = Some res -> produced res = 0).
Proof.
  cbv zeta. split; [reflexivity | split; [reflexivity | split]].
  - eexists; split; reflexivity.
  - intros H. specialize (H _ eq_refl). discriminate H.
Qed.

(** C4 (as amended).  The handle of the constructed object is what
    [soxr_create] returned, so a failed creation leaves a null handle in
    the object from construction on.  [Process] always returns: it makes
    one [soxr_process] call, drops its status, and returns the counts the
    converter stored; the produced count is 0 whenever the converter
    stored 0. *)
Theorem C4_failure_and_status {W : Type} (hd : handler W) (w0 w : W)
    (useBestMethod : bool) (dMinFactor dMaxFactor : float) (this : Resample)
    (factor : float) (ib : list float) (il : Z) (last : bool)
    (ob : list float) (ol i0 o0 : Z) :
  value (run hd (Resample_ctor useBestMethod dMinFactor dMaxFactor) w0) = Some this ->
  let p := run hd (Process this factor ib il last ob ol i0 o0) w in
  handles_created
    (calls (run hd (Resample_ctor useBestMethod dMinFactor dMaxFactor) w0))
    = [mHandle this] /\
  exists r : soxr_process_result,
    process_results (calls p) = [r] /\
    value p = Some (finish_Process i0 o0 ob r) /\
    (forall n : Z, sp_odone r = Some n -> produced (finish_Process i0 o0 ob r) = n).
Proof.
  intros Hthis p. split.
  - revert Hthis. destruct (PrimFloat.eqb dMinFactor dMaxFactor) eqn:He.
    + rewrite (run_ctor_const hd _ _ _ w0 He).
      destruct (recipe_of_method _); cbn; intros H; inversion H; reflexivity.
    + rewrite (run_ctor_var hd _ _ _ w0 He).
      cbn; intros H; inversion H; reflexivity.
  - subst p. destruct (mbWantConstRateResampling this) eqn:Hc.
    + rewrite run_Process_const by exact Hc.
      eexists; split; [reflexivity | split; [reflexivity |]].
      intros n Hn. cbn. rewrite Hn. reflexivity.
    + rewrite run_Process_var by exact Hc.
      eexists; split; [reflexivity | split; [reflexivity |]].
      intros n Hn. cbn. rewrite Hn. reflexivity.
Qed.

Lemma C4_failure_and_status_witness :
  value (run Loopback.hd (Resample_ctor false 0 0) (∅, ∅))
    = Some (mk_Resample 1 None true) /\
  handles_created (calls (run Loopback.hd (Resample_ctor false 0 0) (∅, ∅)))
    = [None].
Proof.
  split; [reflexivity |].
  exact (proj1 (C4_failure_and_status Loopback.hd (∅, ∅) (∅, ∅) false 0 0
                  (mk_Resample 1 None true) 1 [] 0 false [] 0 0 0 eq_refl)).
Defined.




(** ** The quality settings *)






(** * More of the code *)

Local Open Scope Z_scope.

(** ** Tags.cpp: the tag maps *)

Section TagsFacts.

Context {L : wxLocale}.

Implicit Types t : Tags.
Implicit Types name value key : wxString.

Lemma Tags_Clear_wf t : Tags_wf (Tags_Clear t).
Proof.
  split; cbn; intros ? ? H; rewrite lookup_empty in H; discriminate.
Qed.

(** What [SetTag] does for a name it accepts, by what [mXref] holds. *)
Lemma SetTag_accepted t name value :
  name <> [] -> IsAscii name = true ->
  SetTag t name value =
  match mXref t !! UpperCase name, value with
  | None, [] => t
  | Some found, [] =>
      with_maps t (delete (UpperCase name) (mXref t)) (delete found (mMap t))
  | None, _ :: _ =>
      with_maps t (<[UpperCase name := name]> (mXref t))
        (<[name := value]> (mMap t))
  | Some found, _ :: _ =>
      if bool_decide (found <> name) then
        with_maps t (<[UpperCase name := name]> (mXref t))
          (delete found (<[name := value]> (mMap t)))
      else
        with_maps t (mXref t) (<[found := value]> (mMap t))
  end.
Proof.
  intros Hne Ha. unfold SetTag. destruct name as [| c name']; [congruence |].
  rewrite Ha. reflexivity.
Qed.

Lemma SetTag_rejected t name value :
  name = [] \/ IsAscii name = false -> SetTag t name value = t.
Proof.
  intros [-> | Ha]; [reflexivity |]. unfold SetTag.
  destruct name as [| c name']; [reflexivity |]. rewrite Ha. reflexivity.
Qed.

Lemma SetTag_wf t name value : Tags_wf t -> Tags_wf (SetTag t name value).
Proof.
  intros [Hx Hm].
  destruct name as [| c name'] eqn:En; [exact (conj Hx Hm) |]. rewrite <- En.
  assert (Hne : name <> []) by (rewrite En; discriminate).
  destruct (IsAscii name) eqn:Ha;
    [| rewrite SetTag_rejected by (right; exact Ha); exact (conj Hx Hm)].
  rewrite (SetTag_accepted t name value Hne Ha).
  set (key := UpperCase name).
  destruct (mXref t !! key) as [found |] eqn:Ek.
  - destruct (Hx _ _ Ek) as [Hfk [fv Hfv]].
    destruct value as [| v0 value'] eqn:Ev; [| rewrite <- Ev].
    + (* erase *)
      split; cbn.
      * intros k n H. apply lookup_delete_Some in H as [Hk H].
        destruct (Hx _ _ H) as [Hu Hs]. split; [exact Hu |].
        rewrite lookup_delete_ne; [exact Hs |]. intros ->. congruence.
      * intros n v H. apply lookup_delete_Some in H as [Hn H].
        destruct (Hm _ _ H) as (Hxr & Hrest). split; [| exact Hrest].
        rewrite lookup_delete_ne; [exact Hxr |].
        intros Hk. fold key in Hk. rewrite <- Hk, Ek in Hxr. congruence.
    + assert (Hv : value <> []) by (rewrite Ev; discriminate).
      destruct (bool_decide (found <> name)) eqn:Ed.
      * apply bool_decide_eq_true in Ed.
        split; cbn.
        -- intros k n H. apply lookup_insert_Some in H as [[<- <-] | [Hk H]].
           ++ split; [reflexivity |].
              rewrite lookup_delete_ne by exact Ed.
              rewrite lookup_insert_eq. eauto.
           ++ destruct (Hx _ _ H) as [Hu Hs]. split; [exact Hu |].
              rewrite lookup_delete_ne by (intros ->; congruence).
              rewrite lookup_insert_ne; [exact Hs |].
              intros ->. apply Hk. exact Hu.
        -- intros n v H. apply lookup_delete_Some in H as [Hn H].
           apply lookup_insert_Some in H as [[<- <-] | [Hn' H]].
           ++ fold key. rewrite lookup_insert_eq. auto.
           ++ destruct (Hm _ _ H) as (Hxr & Hrest). split; [| exact Hrest].
              rewrite lookup_insert_ne; [exact Hxr |].
              intros Hk. rewrite <- Hk, Ek in Hxr. congruence.
      * apply bool_decide_eq_false in Ed.
        assert (Efn : found = name) by (destruct (decide (found = name)); tauto).
        subst found.
        split; cbn.
        -- intros k n H. destruct (Hx _ _ H) as [Hu [w Hw]].
           split; [exact Hu |].
           destruct (decide (n = name)) as [-> | Hn];
             [rewrite lookup_insert_eq | rewrite lookup_insert_ne by congruence];
             eauto.
        -- intros n v H. apply lookup_insert_Some in H as [[<- <-] | [Hn' H]].
           ++ fold key. rewrite Ek. auto.
           ++ exact (Hm _ _ H).
  - destruct value as [| v0 value'] eqn:Ev; [exact (conj Hx Hm) | rewrite <- Ev].
    assert (Hv : value <> []) by (rewrite Ev; discriminate).
    split; cbn.
    + intros k n H. apply lookup_insert_Some in H as [[<- <-] | [Hk H]].
      * split; [reflexivity |]. rewrite lookup_insert_eq. eauto.
      * destruct (Hx _ _ H) as [Hu [w Hw]]. split; [exact Hu |].
        destruct (decide (n = name)) as [-> | Hn];
          [rewrite lookup_insert_eq | rewrite lookup_insert_ne by congruence];
          eauto.
    + intros n v H. apply lookup_insert_Some in H as [[<- <-] | [Hn' H]].
      * fold key. rewrite lookup_insert_eq. auto.
      * destruct (Hm _ _ H) as (Hxr & Hrest). split; [| exact Hrest].
        rewrite lookup_insert_ne; [exact Hxr |].
        intros Hk. rewrite <- Hk, Ek in Hxr. congruence.
Qed.

Lemma SetTags_wf t (calls : list (wxString * wxString)) :
  Tags_wf t -> Tags_wf (SetTags t calls).
Proof.
  revert t. induction calls as [| [n v] calls IH]; intros t H; [exact H |].
  cbn. apply IH. apply SetTag_wf. exact H.
Qed.

End TagsFacts.

Section TagsLookup.

Context {L : wxLocale}.

Implicit Types t : Tags.
Implicit Types name value key : wxString.

(** X1.  The two maps of a [Tags] stay in agreement under any run of
    [SetTag] calls on cleared tags: every key of [mXref] leads to a name
    that [mMap] holds and whose upper case is the key; every name in
    [mMap] is a non-empty ASCII name with a non-empty value. *)
Theorem X1_tag_maps_agree t (calls : list (wxString * wxString)) :
  Tags_wf (SetTags (Tags_Clear t) calls).
Proof. apply SetTags_wf. apply Tags_Clear_wf. Qed.

(** X2.  A tag written with a non-empty ASCII name and a non-empty value
    is found under every spelling of the name that has the same upper
    case, and it is stored under the name as written. *)
Theorem X2_set_then_get t name value name' :
  name <> [] -> IsAscii name = true -> value <> [] ->
  UpperCase name' = UpperCase name ->
  HasTag (SetTag t name value) name' = true /\
  GetTag (SetTag t name value) name' = value /\
  mMap (SetTag t name value) !! name = Some value.
Proof.
  intros Hne Ha Hv Hu. rewrite (SetTag_accepted t name value Hne Ha).
  unfold HasTag, GetTag. rewrite Hu.
  destruct value as [| v0 value']; [congruence |].
  destruct (mXref t !! UpperCase name) as [found |] eqn:Ek.
  - destruct (bool_decide (found <> name)) eqn:Ed; cbn.
    + apply bool_decide_eq_true in Ed.
      rewrite lookup_insert_eq, lookup_delete_ne by exact Ed.
      rewrite lookup_insert_eq. auto.
    + apply bool_decide_eq_false in Ed.
      assert (found = name) as -> by (destruct (decide (found = name)); tauto).
      rewrite Ek, lookup_insert_eq. auto.
  - cbn. rewrite !lookup_insert_eq. auto.
Qed.

(** X3.  Writing an empty value under a non-empty ASCII name erases the
    tag: afterwards it is found under no spelling with that upper case,
    and no name with that upper case is listed. *)
Theorem X3_empty_value_erases t name name' :
  Tags_wf t -> name <> [] -> IsAscii name = true ->
  UpperCase name' = UpperCase name ->
  HasTag (SetTag t name []) name' = false /\
  GetTag (SetTag t name []) name' = [] /\
  (forall n v, (n, v) ∈ GetRange (SetTag t name []) ->
               UpperCase n <> UpperCase name).
Proof.
  intros Hwf Hne Ha Hu.
  pose proof (SetTag_wf t name [] Hwf) as [Hx' Hm'].
  assert (Hnone : mXref (SetTag t name []) !! UpperCase name = None).
  { rewrite (SetTag_accepted t name [] Hne Ha).
    destruct (mXref t !! UpperCase name) as [found |] eqn:Ek; cbn;
      [apply lookup_delete_eq | exact Ek]. }
  unfold HasTag, GetTag. rewrite Hu, Hnone.
  split; [reflexivity | split; [reflexivity |]].
  intros n v Hin Hc. apply elem_of_map_to_list in Hin.
  destruct (Hm' _ _ Hin) as (Hxr & _). rewrite Hc, Hnone in Hxr. discriminate.
Qed.

(** X4.  [SetTag] leaves every other tag alone: a name with another upper
    case is found, or not, as before, with the value it had. *)
Theorem X4_other_tags_untouched t name value name' :
  Tags_wf t -> UpperCase name' <> UpperCase name ->
  HasTag (SetTag t name value) name' = HasTag t name' /\
  GetTag (SetTag t name value) name' = GetTag t name'.
Proof.
  intros [Hx Hm] Hu.
  destruct name as [| c name0] eqn:En; [split; reflexivity | rewrite <- En in *].
  assert (Hne : name <> []) by (rewrite En; discriminate).
  destruct (IsAscii name) eqn:Ha;
    [| rewrite SetTag_rejected by (right; exact Ha); split; reflexivity].
  rewrite (SetTag_accepted t name value Hne Ha). unfold HasTag, GetTag.
  assert (Hother : forall other, mXref t !! UpperCase name' = Some other ->
                                 UpperCase other <> UpperCase name).
  { intros other H. destruct (Hx _ _ H) as [Ho _]. congruence. }
  destruct (mXref t !! UpperCase name) as [found |] eqn:Ek.
  - destruct (Hx _ _ Ek) as [Hfk _].
    destruct value as [| v0 value']; cbn.
    + rewrite lookup_delete_ne by congruence.
      destruct (mXref t !! UpperCase name') as [other |] eqn:Eo;
        [| split; reflexivity].
      rewrite lookup_delete_ne; [split; reflexivity |].
      intros ->. exact (Hother _ eq_refl Hfk).
    + destruct (bool_decide (found <> name)); cbn.
      * rewrite lookup_insert_ne by congruence.
        destruct (mXref t !! UpperCase name') as [other |] eqn:Eo;
          [| split; reflexivity].
        rewrite lookup_delete_ne by (intros ->; exact (Hother _ eq_refl Hfk)).
        rewrite lookup_insert_ne; [split; reflexivity |].
        intros ->. exact (Hother _ eq_refl eq_refl).
      * destruct (mXref t !! UpperCase name') as [other |] eqn:Eo;
          [| split; reflexivity].
        rewrite lookup_insert_ne; [split; reflexivity |].
        intros ->. exact (Hother _ eq_refl Hfk).
  - destruct value as [| v0 value']; cbn; [split; reflexivity |].
    rewrite lookup_insert_ne by congruence.
    destruct (mXref t !! UpperCase name') as [other |] eqn:Eo;
      [| split; reflexivity].
    rewrite lookup_insert_ne; [split; reflexivity |].
    intros ->. exact (Hother _ eq_refl eq_refl).
Qed.

(** X5.  On tags whose maps agree, [GetTag] never reaches its
    [wxASSERT(false)], and a tag is present exactly when [GetTag] gives a
    non-empty value. *)
Theorem X5_has_iff_value t name :
  Tags_wf t ->
  GetTag_asserts t name = false /\
  (HasTag t name = true <-> GetTag t name <> []).
Proof.
  intros [Hx Hm]. unfold GetTag_asserts, HasTag, GetTag.
  destruct (mXref t !! UpperCase name) as [found |] eqn:Ek.
  - destruct (Hx _ _ Ek) as [_ [v Hv]]. rewrite Hv.
    destruct (Hm _ _ Hv) as (_ & Hne & _). split; [reflexivity |].
    split; [intros _; exact Hne | reflexivity].
  - split; [reflexivity |]. split; [discriminate | congruence].
Qed.

(** X6.  On tags whose maps agree, no two listed tags have names that
    differ only in case. *)
Theorem X6_one_tag_per_key t n1 v1 n2 v2 :
  Tags_wf t ->
  (n1, v1) ∈ GetRange t -> (n2, v2) ∈ GetRange t ->
  UpperCase n1 = UpperCase n2 ->
  n1 = n2 /\ v1 = v2.
Proof.
  intros [Hx Hm] H1 H2 Hu.
  apply elem_of_map_to_list in H1. apply elem_of_map_to_list in H2.
  destruct (Hm _ _ H1) as (Hx1 & _). destruct (Hm _ _ H2) as (Hx2 & _).
  rewrite Hu in Hx1. assert (n1 = n2) as -> by congruence.
  split; [reflexivity | congruence].
Qed.

End TagsLookup.

Lemma EqualMaps_spec (map1 map2 : gmap wxString wxString) :
  EqualMaps map1 map2 = true <-> map1 = map2.
Proof.
  unfold EqualMaps. split.
  - destruct (size map1 =? size map2)%nat eqn:Es; cbn; [| discriminate].
    apply Nat.eqb_eq in Es. intros Hall. symmetry.
    apply map_subseteq_size_eq; [| lia].
    apply map_subseteq_spec. intros k v Hk.
    rewrite forallb_forall in Hall.
    apply elem_of_map_to_list, list_elem_of_In in Hk.
    specialize (Hall _ Hk). cbn in Hall.
    apply bool_decide_eq_true in Hall. exact Hall.
  - intros ->. rewrite Nat.eqb_refl. cbn. apply forallb_forall.
    intros [k v] Hin. apply list_elem_of_In, elem_of_map_to_list in Hin.
    cbn. apply bool_decide_eq_true. exact Hin.
Qed.

(** X7.  [operator==] on tags decides equality: it holds exactly when the
    two objects have the same maps, genres and edit flags, although hash
    maps cannot be compared by walking them in step. *)
Theorem X7_tags_equality (lhs rhs : Tags) :
  Tags_eq lhs rhs = true <-> lhs = rhs.
Proof.
  unfold Tags_eq. split.
  - destruct (EqualMaps (mXref lhs) (mXref rhs)) eqn:Ex; cbn; [| discriminate].
    destruct (EqualMaps (mMap lhs) (mMap rhs)) eqn:Em; cbn; [| discriminate].
    apply EqualMaps_spec in Ex. apply EqualMaps_spec in Em.
    rewrite !andb_true_iff. intros [[Hg Ht] Hn].
    apply bool_decide_eq_true in Hg.
    apply eqb_prop in Ht. apply eqb_prop in Hn.
    destruct lhs, rhs; cbn in *; congruence.
  - intros ->.
    rewrite (proj2 (EqualMaps_spec _ _) eq_refl).
    rewrite (proj2 (EqualMaps_spec _ _) eq_refl). cbn.
    rewrite !eqb_reflx, bool_decide_eq_true_2 by reflexivity. reflexivity.
Qed.

Lemma LoadDefaults_wf {L : wxLocale} (t : Tags)
    (entries : list (wxString * wxString)) :
  Tags_wf t -> Tags_wf (LoadDefaults t entries).
Proof.
  revert t. induction entries as [| e entries IH]; intros t H; [exact H |].
  change (LoadDefaults t (e :: entries))
    with (LoadDefaults (if bool_decide (fst e = wxT "ID3V2") then t
                        else SetTag t (fst e) (snd e)) entries).
  apply IH. destruct (bool_decide (fst e = wxT "ID3V2")); [exact H |].
  apply SetTag_wf. exact H.
Qed.

Lemma Tags_new_wf {L : wxLocale} (entries : list (wxString * wxString))
    (file : option (list wxString)) :
  Tags_wf (Tags_new entries file).
Proof.
  assert (H : Tags_wf (LoadDefaults (mk_Tags true true ∅ ∅ []) entries)).
  { apply LoadDefaults_wf.
    split; cbn; intros ? ? H; rewrite lookup_empty in H; discriminate. }
  unfold Tags_new, LoadGenres. destruct file; exact H.
Qed.

Lemma example_tags_wf : Tags_wf (L := C_locale) example_tags.
Proof.
  apply SetTags_wf.
  split; cbn; intros ? ? H; rewrite lookup_empty in H; discriminate.
Qed.

Lemma X2_set_then_get_witness :
  GetTag (L := C_locale)
    (SetTag (L := C_locale) example_tags (wxT "Year") (wxT "1999"))
    (wxT "YEAR") = wxT "1999".
Proof.
  refine (proj1 (proj2 (X2_set_then_get (L := C_locale) example_tags
                          (wxT "Year") (wxT "1999") (wxT "YEAR") _ _ _ _)));
    [discriminate | reflexivity | discriminate | reflexivity].
Defined.

Lemma X3_empty_value_erases_witness :
  HasTag (L := C_locale)
    (SetTag (L := C_locale) example_tags (wxT "TITLE") []) (wxT "title")
    = false.
Proof.
  refine (proj1 (X3_empty_value_erases (L := C_locale) example_tags
                   (wxT "TITLE") (wxT "title") example_tags_wf _ _ _));
    [discriminate | reflexivity | reflexivity].
Defined.

Lemma X4_other_tags_untouched_witness :
  GetTag (L := C_locale)
    (SetTag (L := C_locale) example_tags (wxT "TITLE") (wxT "Other"))
    (wxT "Artist")
  = GetTag (L := C_locale) example_tags (wxT "Artist").
Proof.
  refine (proj2 (X4_other_tags_untouched (L := C_locale) example_tags
                   (wxT "TITLE") (wxT "Other") (wxT "Artist")
                   example_tags_wf _)).
  vm_compute. discriminate.
Defined.

Lemma X5_has_iff_value_witness :
  GetTag_asserts (L := C_locale) example_tags (wxT "ARTIST") = false.
Proof.
  exact (proj1 (X5_has_iff_value (L := C_locale) example_tags (wxT "ARTIST")
                  example_tags_wf)).
Defined.

Lemma X6_one_tag_per_key_witness :
  (wxT "Title", wxT "Song") ∈ GetRange example_tags /\
  (wxT "Title" = wxT "Title" /\ wxT "Song" = wxT "Song").
Proof.
  assert (H : (wxT "Title", wxT "Song") ∈ GetRange example_tags)
    by (apply elem_of_map_to_list; reflexivity).
  split; [exact H |].
  exact (X6_one_tag_per_key (L := C_locale) example_tags _ _ _ _
           example_tags_wf H H eq_refl).
Defined.

(** ** Tags.cpp: genres *)

Lemma CmpNoCase_length {L : wxLocale} (a b : wxString) :
  CmpNoCase a b = 0 -> length a = length b.
Proof.
  revert b. induction a as [| x a IH]; intros [| y b]; cbn;
    try discriminate; [reflexivity |].
  destruct (towlower x =? towlower y)%N.
  - intros H. f_equal. exact (IH _ H).
  - destruct (towlower x <? towlower y)%N; discriminate.
Qed.

Lemma DefaultGenres_head :
  exists rest : list wxString,
    DefaultGenres = wxT "Blues" :: wxT "Classic Rock" :: rest.
Proof. eexists. reflexivity. Qed.

Lemma Blues_not_Classic_Rock :
  length (wxT "Blues") <> length (wxT "Classic Rock").
Proof. vm_compute. discriminate. Qed.

(** X8.  [GetGenre(name)] returns at the first default genre that
    [CmpNoCase] tells apart from [name]: it gives 1 for a name that is
    "Blues" up to case and 0 for every other name, so never the number of
    a genre beyond the second one and never 255. *)
Theorem X8_genre_number {L : wxLocale} (name : wxString) :
  GetGenre name = (if CmpNoCase name (wxT "Blues") =? 0 then 1 else 0).
Proof.
  unfold GetGenre. destruct DefaultGenres_head as [rest ->].
  generalize (wxT "Blues") (wxT "Classic Rock") Blues_not_Classic_Rock.
  intros g0 g1 Hlen. cbn [GetGenre_from].
  destruct (CmpNoCase name g0 =? 0) eqn:E0; cbn [negb]; [| reflexivity].
  apply Z.eqb_eq, CmpNoCase_length in E0.
  destruct (CmpNoCase name g1 =? 0) eqn:E1; cbn [negb]; [| reflexivity].
  apply Z.eqb_eq, CmpNoCase_length in E1.
  exfalso. apply Hlen. congruence.
Qed.

(** ** Tags.cpp: writing the tags as XML and reading them back *)

Section TagsRoundTrip.

Context {L : wxLocale}.

Variable good : wxString -> bool.

Hypothesis good_name : good (wxT "name") = true.
Hypothesis good_value : good (wxT "value") = true.

(** The handler on a tag element as [WriteXML] writes it. *)
Lemma HandleXMLTag_written (t : Tags) (n v : wxString) :
  good n = true -> good v = true -> n <> wxT "id3v2" ->
  HandleXMLTag good t (wxT "tag") [wxT "name"; n; wxT "value"; v]
  = Some (true, SetTag t n v).
Proof.
  intros Hn Hv Hid. unfold HandleXMLTag.
  rewrite (bool_decide_eq_false_2 (wxT "tag" = wxT "tags")) by discriminate.
  rewrite (bool_decide_eq_true_2 (wxT "tag" = wxT "tag")) by reflexivity.
  assert (Hr : read_attrs good [wxT "name"; n; wxT "value"; v] [] []
               = Some (n, v)).
  { cbn [read_attrs]. change (wxT "name") with (110%N :: wxT "ame") at 1.
    cbv iota. fold (wxT "name"). rewrite good_name, Hn. cbn [negb orb].
    rewrite (bool_decide_eq_true_2 (wxT "name" = wxT "name")) by reflexivity.
    change (wxT "value") with (118%N :: wxT "alue") at 1.
    cbv iota. fold (wxT "value"). rewrite good_value, Hv. cbn [negb orb].
    rewrite (bool_decide_eq_false_2 (wxT "value" = wxT "name")) by discriminate.
    rewrite (bool_decide_eq_true_2 (wxT "value" = wxT "value")) by reflexivity.
    reflexivity. }
  rewrite Hr. rewrite (bool_decide_eq_false_2 _ Hid). reflexivity.
Qed.

(** The elements of what [WriteXML] writes. *)
Lemma elements_of_written (pairs : list (wxString * wxString)) :
  elements_of (WriteXML_pairs pairs)
  = (wxT "tags", [])
    :: map (fun p => (wxT "tag", [wxT "name"; fst p; wxT "value"; snd p]))
         pairs.
Proof.
  unfold WriteXML_pairs. cbn [app elements_of].
  assert (Hrest : forall l,
    elements_of (flat_map (fun p => [ XStartTag (wxT "tag");
                                      XWriteAttr (wxT "name") (fst p);
                                      XWriteAttr (wxT "value") (snd p);
                                      XEndTag (wxT "tag") ]) l
                 ++ [XEndTag (wxT "tags")])
    = map (fun p => (wxT "tag", [wxT "name"; fst p; wxT "value"; snd p])) l).
  { induction l as [| p l IH]; [reflexivity |].
    cbn [flat_map app map elements_of attrs_of]. rewrite IH. reflexivity. }
  rewrite Hrest. f_equal. f_equal.
  destruct pairs as [| p pairs]; reflexivity.
Qed.

(** Reading the tag elements of a list of pairs is a run of [SetTag]. *)
Lemma read_elements_written (t : Tags) (pairs : list (wxString * wxString)) :
  (forall p, p ∈ pairs ->
             good (fst p) = true /\ good (snd p) = true /\
             fst p <> wxT "id3v2") ->
  read_elements good t
    (map (fun p => (wxT "tag", [wxT "name"; fst p; wxT "value"; snd p])) pairs)
  = Some (SetTags t pairs).
Proof.
  revert t. induction pairs as [| p pairs IH]; intros t Hall; [reflexivity |].
  destruct (Hall p (list_elem_of_here _ _)) as (Hn & Hv & Hid).
  cbn [map read_elements].
  rewrite (HandleXMLTag_written t _ _ Hn Hv Hid).
  rewrite IH by (intros q Hq; apply Hall; right; exact Hq).
  reflexivity.
Qed.

End TagsRoundTrip.

Section TagsRebuild.

Context {L : wxLocale}.

(** Writing tags whose keys are all new adds them to the two maps. *)
Lemma SetTags_fresh (pairs : list (wxString * wxString)) (t : Tags) :
  (forall p, p ∈ pairs ->
             fst p <> [] /\ IsAscii (fst p) = true /\ snd p <> []) ->
  NoDup ((fun p => UpperCase (fst p)) <$> pairs) ->
  (forall p, p ∈ pairs -> mXref t !! UpperCase (fst p) = None) ->
  SetTags t pairs =
  with_maps t
    (list_to_map ((fun p => (UpperCase (fst p), fst p)) <$> pairs) ∪ mXref t)
    (list_to_map pairs ∪ mMap t).
Proof.
  revert t. induction pairs as [| [n v] pairs IH]; intros t Hok Hnd Hnew.
  - cbn. rewrite !(left_id_L ∅ (∪)). destruct t; reflexivity.
  - destruct (Hok (n, v) (list_elem_of_here _ _)) as (Hne & Ha & Hv).
    cbn in Hne, Ha, Hv.
    pose proof (Hnew (n, v) (list_elem_of_here _ _)) as Hk.
    change (mXref t !! UpperCase n = None) in Hk.
    apply NoDup_cons in Hnd as [Hnotin Hnd].
    change (SetTags t ((n, v) :: pairs)) with (SetTags (SetTag t n v) pairs).
    assert (Hs : SetTag t n v =
                 with_maps t (<[UpperCase n := n]> (mXref t))
                   (<[n := v]> (mMap t))).
    { rewrite (SetTag_accepted t n v Hne Ha), Hk.
      destruct v; [congruence | reflexivity]. }
    rewrite Hs.
    rewrite IH; [| intros q Hq; apply Hok; right; exact Hq | exact Hnd |].
    + cbn [fmap list_fmap list_to_map foldr fst snd uncurry with_maps
             mXref mMap mEditTitle mEditTrackNumber mGenres].
      unfold with_maps. cbn [mEditTitle mEditTrackNumber mGenres mXref mMap].
      f_equal.
      * rewrite <- insert_union_l. symmetry. apply insert_union_r.
        apply not_elem_of_list_to_map_1. rewrite <- list_fmap_compose.
        exact Hnotin.
      * rewrite <- insert_union_l. symmetry. apply insert_union_r.
        apply not_elem_of_list_to_map_1. intros Hin.
        apply Hnotin. apply list_elem_of_fmap in Hin as [[n' v'] [Hn' Hin]].
        cbn in Hn'. subst n'. apply list_elem_of_fmap.
        exists (n, v'). split; [reflexivity | exact Hin].
    + intros q Hq. cbn.
      rewrite lookup_insert_ne; [apply Hnew; right; exact Hq |].
      intros Heq. apply Hnotin. apply list_elem_of_fmap.
      exists q. split; [exact Heq | exact Hq].
Qed.

End TagsRebuild.

(** X9.  Tags written by [WriteXML] and read back through [HandleXMLTag]
    into cleared tags are the tags that were written, in whatever order
    the hash map lists them, provided the maps agree, every name and
    value passes [IsGoodString], and no tag is named "id3v2" (which the
    reader skips). *)
Theorem X9_xml_round_trip {L : wxLocale} (good : wxString -> bool)
    (t : Tags) (order : list (wxString * wxString)) :
  good (wxT "name") = true -> good (wxT "value") = true ->
  Tags_wf t ->
  (forall n v, (n, v) ∈ GetRange t ->
               good n = true /\ good v = true /\ n <> wxT "id3v2") ->
  order ≡ₚ GetRange t ->
  read_elements good (Tags_Clear t) (elements_of (WriteXML_pairs order))
  = Some t.
Proof.
  intros Hgn Hgv [Hx Hm] Hgood Hperm.
  assert (Hin : forall p, p ∈ order -> mMap t !! fst p = Some (snd p)).
  { intros [n v] Hp. rewrite Hperm in Hp.
    apply elem_of_map_to_list in Hp. exact Hp. }
  rewrite elements_of_written. cbn [read_elements].
  unfold HandleXMLTag at 1.
  rewrite (bool_decide_eq_true_2 (wxT "tags" = wxT "tags")) by reflexivity.
  rewrite (read_elements_written good Hgn Hgv).
  2:{ intros [n v] Hp. apply Hgood. rewrite <- Hperm. exact Hp. }
  f_equal. rewrite SetTags_fresh.
  - unfold with_maps, Tags_Clear.
    cbn [mEditTitle mEditTrackNumber mGenres mXref mMap].
    rewrite !(right_id_L ∅ (∪)).
    assert (Emap : list_to_map order = mMap t).
    { rewrite <- (list_to_map_to_list (mMap t)).
      apply list_to_map_proper; [| exact Hperm].
      rewrite Hperm. apply NoDup_fst_map_to_list. }
    assert (Exref : list_to_map ((fun p => (UpperCase (fst p), fst p)) <$> order)
                    = mXref t).
    { apply map_eq. intros k. apply option_eq. intros nm.
      rewrite <- elem_of_list_to_map.
      - rewrite list_elem_of_fmap. split.
        + intros [[n v] [Heq Hp]]. cbn in Heq. inversion Heq; subst.
          destruct (Hm _ _ (Hin _ Hp)) as (Hr & _). exact Hr.
        + intros Hk. destruct (Hx _ _ Hk) as [Hu [v Hv]].
          exists (nm, v). split; [cbn [fst]; rewrite Hu; reflexivity |].
          rewrite Hperm. apply elem_of_map_to_list. exact Hv.
      - rewrite <- list_fmap_compose.
        apply NoDup_fmap_2_strong.
        + intros [n1 v1] [n2 v2] H1 H2 Hu. unfold compose in Hu. cbn [fst] in Hu.
          pose proof (Hin _ H1) as L1. pose proof (Hin _ H2) as L2.
          cbn [fst snd] in L1, L2.
          destruct (Hm _ _ L1) as (R1 & _). destruct (Hm _ _ L2) as (R2 & _).
          rewrite Hu in R1. assert (n1 = n2) by congruence. subst n2.
          f_equal. congruence.
        + rewrite Hperm. apply NoDup_map_to_list. }
    rewrite Emap, Exref. destruct t; reflexivity.
  - intros [n v] Hp. destruct (Hm _ _ (Hin _ Hp)) as (_ & Hv & Hn & Ha).
    auto.
  - apply NoDup_fmap_2_strong.
    + intros [n1 v1] [n2 v2] H1 H2 Hu. unfold compose in Hu. cbn [fst] in Hu.
      pose proof (Hin _ H1) as L1. pose proof (Hin _ H2) as L2.
      cbn [fst snd] in L1, L2.
      destruct (Hm _ _ L1) as (R1 & _). destruct (Hm _ _ L2) as (R2 & _).
      rewrite Hu in R1. assert (n1 = n2) by congruence. subst n2.
      f_equal. congruence.
    + rewrite Hperm. apply NoDup_map_to_list.
  - intros p _. apply lookup_empty.
Qed.

Lemma example_tags_range :
  GetRange example_tags
  = [ (wxT "artist", wxT "Me"); (wxT "Title", wxT "Song") ].
Proof. vm_compute. reflexivity. Qed.

Lemma X9_xml_round_trip_witness :
  read_elements (L := C_locale) (fun _ => true)
    (Tags_Clear example_tags) (elements_of (WriteXML example_tags))
  = Some example_tags.
Proof.
  apply (X9_xml_round_trip (L := C_locale) (fun _ => true) example_tags
           (GetRange example_tags) eq_refl eq_refl example_tags_wf).
  - intros n v Hin. rewrite example_tags_range in Hin.
    apply list_elem_of_In in Hin.
    destruct Hin as [H | [H | []]]; inversion H; subst;
      (split; [reflexivity | split; [reflexivity | discriminate]]).
  - reflexivity.
Defined.

(** ** ExportPCM.cpp: AdjustString *)

Lemma ascii7_7bit (c : char) : (Byte.to_N (ascii7 c) <? 128)%N = true.
Proof. destruct c; reflexivity. Qed.

Lemma ascii7_NUL (c : char) : Byte.eqb (ascii7 c) NUL = Byte.eqb c NUL.
Proof. destruct c; reflexivity. Qed.

Lemma ascii7_printable (c : char) :
  ((32 <=? Byte.to_N c) && (Byte.to_N c <=? 126))%N = true -> ascii7 c = c.
Proof. destruct c; (reflexivity || discriminate). Qed.

Lemma c_str_not_NUL (buf : list char) : Forall not_NUL (c_str buf).
Proof.
  induction buf as [| c buf IH]; cbn; [constructor |].
  destruct (Byte.eqb c NUL) eqn:E; constructor; assumption.
Qed.

Lemma c_str_app_NUL (a rest : list char) :
  Forall not_NUL a -> c_str (a ++ NUL :: rest) = a.
Proof.
  induction 1 as [| c a Hc Ha IH]; cbn; [reflexivity |].
  rewrite Hc, IH. reflexivity.
Qed.

Lemma c_str_app_replicate (a : list char) (m : nat) :
  Forall not_NUL a -> c_str (a ++ replicate m NUL) = a.
Proof.
  intros Ha. destruct m as [| m]; cbn [replicate].
  - rewrite app_nil_r. induction Ha as [| c a Hc Ha IH]; cbn;
      [reflexivity | rewrite Hc, IH; reflexivity].
  - apply c_str_app_NUL. exact Ha.
Qed.

Lemma ascii7_not_NUL (s : list char) :
  Forall not_NUL s -> Forall not_NUL (map ascii7 s).
Proof.
  induction 1 as [| c s Hc Hs IH]; cbn; constructor; [| exact IH].
  unfold not_NUL. rewrite ascii7_NUL. exact Hc.
Qed.

(** [strncpy] into a zeroed array leaves the string followed by NULs. *)
Lemma strncpy_zeroed (src : list char) (n m : nat) :
  (n <= m)%nat ->
  strncpy (replicate m NUL) src n =
  Some (take n (c_str src)
        ++ replicate (m - length (take n (c_str src))) NUL).
Proof.
  intros Hnm. unfold strncpy. rewrite length_replicate.
  replace (n <=? m)%nat with true by (symmetry; apply Nat.leb_le; exact Hnm).
  f_equal. rewrite take_app, take_replicate, drop_replicate.
  rewrite <- app_assoc. f_equal. rewrite <- replicate_add. f_equal.
  rewrite length_take. lia.
Qed.

Lemma insert_at_length {A : Type} (l rest : list A) (x y : A) :
  <[length l := x]> (l ++ y :: rest) = l ++ x :: rest.
Proof.
  replace (length l) with (length l + 0)%nat by lia.
  rewrite insert_app_r. reflexivity.
Qed.

(** The conversion loop on a string followed by a NUL, writing into
    NULs. *)
Lemma ascii7_loop_spec (s done_src done rest : list char) (k m : nat) :
  Forall not_NUL s -> length done_src = length done ->
  (length s < k)%nat -> (length s < m)%nat ->
  ascii7_loop k (length done) (done_src ++ s ++ NUL :: rest)
    (done ++ replicate m NUL)
  = (done ++ map ascii7 s ++ replicate (m - length s) NUL,
     (length done + length s + 1)%nat).
Proof.
  intros Hs. revert done_src done k m.
  induction Hs as [| c s Hc Hs IH]; intros done_src done k m Hlen Hk Hm.
  - destruct k as [| k]; [cbn in Hk; lia |]. cbn [ascii7_loop app length map].
    rewrite <- Hlen, nth_middle. cbn [Byte.eqb NUL].
    replace (Byte.eqb Byte.x00 Byte.x00) with true by reflexivity.
    rewrite Hlen. destruct m as [| m]; [cbn in Hm; lia |].
    cbn [replicate].
    rewrite insert_at_length. cbn.
    f_equal; try lia; reflexivity.
  - destruct k as [| k]; [cbn in Hk; lia |].
    destruct m as [| m]; [cbn in Hm; lia |].
    cbn [ascii7_loop app length map replicate].
    rewrite <- Hlen, nth_middle, Hc, Hlen.
    rewrite insert_at_length.
    specialize (IH (done_src ++ [c]) (done ++ [ascii7 c]) k m).
    rewrite !length_app in IH. cbn [length] in IH.
    rewrite <- !app_assoc in IH. cbn [app] in IH.
    replace (S (length done)) with (length done + 1)%nat by lia.
    rewrite IH by (cbn in Hk, Hm; lia).
    f_equal; try lia; reflexivity.
Qed.

Lemma poke_NUL_in_tail (a : list char) (m i : nat) :
  (length a <= i < length a + m)%nat ->
  poke (a ++ replicate m NUL) i NUL = Some (a ++ replicate m NUL).
Proof.
  intros Hi. unfold poke. rewrite length_app, length_replicate.
  replace (i <? length a + m)%nat with true by (symmetry; apply Nat.ltb_lt; lia).
  f_equal. apply list_insert_id.
  rewrite lookup_app_r by lia. apply lookup_replicate_2. lia.
Qed.

Lemma poke_at_length (a : list char) (m : nat) (c : char) :
  (0 < m)%nat ->
  poke (a ++ replicate m NUL) (length a) c
  = Some ((a ++ [c]) ++ replicate (m - 1) NUL).
Proof.
  intros Hm. unfold poke. rewrite length_app, length_replicate.
  replace (length a <? length a + m)%nat with true
    by (symmetry; apply Nat.ltb_lt; lia).
  destruct m as [| m]; [lia |]. cbn [replicate].
  rewrite insert_at_length, <- app_assoc. cbn. rewrite Nat.sub_0_r.
  reflexivity.
Qed.

Lemma AdjustString_closed {C : wxConv} (wxStr : wxString) (sf_format : Z) :
  AdjustString wxStr sf_format =
  match wxStr, mb_str_for wxStr with
  | _ :: _, Some bytes =>
      let text := adjusted_text wxStr sf_format bytes in
      Chars (text ++ replicate ((length wxStr + 4) * 2 - length text) NUL)
  | _, _ => NoString
  end.
Proof.
  unfold AdjustString. destruct wxStr as [| w0 ws] eqn:Ew; [reflexivity |].
  rewrite <- Ew. set (sz := length wxStr).
  assert (Hsz : sz = S (length ws)) by (subst sz; rewrite Ew; reflexivity).
  rewrite Hsz at 1. cbv iota beta.
  destruct (mb_str_for wxStr) as [bytes |]; [| reflexivity].
  set (sr := ((sz + 4) * 2)%nat).
  rewrite strncpy_zeroed by (subst sr; lia).
  unfold adjusted_text. fold sz.
  set (s := take sz (c_str bytes)).
  assert (Hs : Forall not_NUL s) by (apply Forall_take, c_str_not_NUL).
  assert (Hls : (length s <= sz)%nat) by (subst s; rewrite length_take; lia).
  assert (Hloop :
    ascii7_loop sr 0 (s ++ replicate (sr - length s) NUL) (replicate sr NUL)
    = (map ascii7 s ++ replicate (sr - length s) NUL, S (length s))).
  { replace (sr - length s)%nat with (S (sr - length s - 1)) at 1
      by (subst sr; lia).
    cbn [replicate].
    pose proof (ascii7_loop_spec s [] [] (replicate (sr - length s - 1) NUL)
                  sr sr Hs eq_refl) as H.
    cbn [app length] in H. rewrite H by (subst sr; lia).
    f_equal. lia. }
  rewrite Hloop.
  set (a := map ascii7 s).
  assert (Hla : length a = length s) by (subst a; apply length_map).
  assert (Ha : Forall not_NUL a) by (subst a; apply ascii7_not_NUL; exact Hs).
  rewrite <- Hla.
  rewrite poke_NUL_in_tail by (subst sr; lia).
  rewrite (c_str_app_replicate a _ Ha). rewrite Hla.
  destruct (is_aiff sf_format); cbn [andb];
    [| rewrite app_nil_r, ?Hla; reflexivity].
  destruct (negb (Z.of_nat (length s) mod 2 =? 0));
    [| rewrite app_nil_r, ?Hla; reflexivity].
  unfold strcat_space. rewrite (c_str_app_replicate a _ Ha).
  rewrite poke_at_length by (subst sr; lia).
  rewrite poke_NUL_in_tail by (rewrite length_app; cbn; subst sr; lia).
  f_equal. f_equal. f_equal. rewrite length_app. cbn. lia.
Qed.

Lemma adjusted_text_7bit (wxStr : wxString) (sf_format : Z) (bytes : list char) :
  Forall (fun c => (1 <= Byte.to_N c < 128)%N)
    (adjusted_text wxStr sf_format bytes).
Proof.
  unfold adjusted_text. apply Forall_app. split.
  - assert (Hs : Forall not_NUL (take (length wxStr) (c_str bytes)))
      by (apply Forall_take, c_str_not_NUL).
    induction Hs as [| c s Hc Hs IH]; cbn; constructor; [| exact IH].
    pose proof (ascii7_7bit c) as H7. apply N.ltb_lt in H7.
    split; [| exact H7].
    assert (Hn : Byte.eqb (ascii7 c) NUL = false)
      by (rewrite ascii7_NUL; exact Hc).
    destruct (N.eq_dec (Byte.to_N (ascii7 c)) 0%N) as [E | E]; [| lia].
    exfalso. assert (Hz : Byte.of_N (Byte.to_N (ascii7 c)) = Some NUL)
      by (rewrite E; reflexivity).
    rewrite Byte.of_to_N in Hz. inversion Hz as [Hz'].
    rewrite Hz' in Hn. discriminate Hn.
  - destruct (is_aiff sf_format && _); repeat constructor; cbn; lia.
Qed.

Lemma adjusted_text_not_NUL (wxStr : wxString) (sf_format : Z) (bytes : list char) :
  Forall not_NUL (adjusted_text wxStr sf_format bytes).
Proof.
  unfold adjusted_text. apply Forall_app. split.
  - apply ascii7_not_NUL, Forall_take, c_str_not_NUL.
  - destruct (is_aiff sf_format && _); repeat constructor.
Qed.

Lemma adjusted_text_length (wxStr : wxString) (sf_format : Z) (bytes : list char) :
  (length (adjusted_text wxStr sf_format bytes) <= S (length wxStr))%nat /\
  (is_aiff sf_format = true ->
   Z.of_nat (length (adjusted_text wxStr sf_format bytes)) mod 2 = 0).
Proof.
  unfold adjusted_text. rewrite length_app, length_map.
  set (s := take (length wxStr) (c_str bytes)).
  assert (Hls : (length s <= length wxStr)%nat)
    by (subst s; rewrite length_take; lia).
  split.
  - destruct (is_aiff sf_format && _); cbn; lia.
  - intros ->. cbn [andb].
    destruct (Z.of_nat (length s) mod 2 =? 0) eqn:E; cbn [negb length].
    + apply Z.eqb_eq in E. rewrite Nat.add_0_r. exact E.
    + apply Z.eqb_neq in E. rewrite Nat2Z.inj_add. cbn.
      pose proof (Z.mod_pos_bound (Z.of_nat (length s)) 2 ltac:(lia)) as Hb.
      rewrite Z.add_mod by lia.
      replace (Z.of_nat (length s) mod 2) with 1 by lia. reflexivity.
Qed.

(** X10.  [AdjustString] never writes outside its two arrays, and what it
    returns is known in full: no string for an empty string or one that
    neither conversion takes; and else an array of [(sz+4)*2] chars that
    holds the converted chars before the first NUL, [sz] of them at most,
    each through the table, then a space when that makes an odd number of
    chars even for AIFF, and NULs to the end. *)
Theorem X10_AdjustString_result {C : wxConv} (wxStr : wxString) (sf_format : Z) :
  AdjustString wxStr sf_format <> Overrun /\
  AdjustString wxStr sf_format =
  match wxStr, mb_str_for wxStr with
  | _ :: _, Some bytes =>
      let text := adjusted_text wxStr sf_format bytes in
      Chars (text ++ replicate ((length wxStr + 4) * 2 - length text) NUL)
  | _, _ => NoString
  end.
Proof.
  split; [| apply AdjustString_closed].
  rewrite AdjustString_closed.
  destruct wxStr; [discriminate |]. destruct (mb_str_for _); discriminate.
Qed.

(** X11.  Every string [AdjustString] returns is 7-bit: the chars up to
    its terminator are all between 1 and 127; there are no more of them
    than the string had characters, plus one; for an AIFF file their
    number is even; and the array has room for them and the terminator. *)
Theorem X11_AdjustString_7bit {C : wxConv} (wxStr : wxString)
    (sf_format : Z) (buf : list char) :
  AdjustString wxStr sf_format = Chars buf ->
  Forall (fun c => (1 <= Byte.to_N c < 128)%N) (c_str buf) /\
  (length (c_str buf) <= S (length wxStr))%nat /\
  (is_aiff sf_format = true -> Z.of_nat (length (c_str buf)) mod 2 = 0) /\
  (length (c_str buf) < length buf)%nat.
Proof.
  rewrite AdjustString_closed. intros H.
  destruct wxStr as [| w0 ws] eqn:Ew; [discriminate |]. rewrite <- Ew in *.
  destruct (mb_str_for wxStr) as [bytes |]; [| discriminate].
  cbv zeta in H. inversion H as [Hb]. clear H.
  pose proof (adjusted_text_length wxStr sf_format bytes) as [Hlen Heven].
  rewrite c_str_app_replicate by apply adjusted_text_not_NUL.
  split; [apply adjusted_text_7bit |].
  split; [exact Hlen |]. split; [exact Heven |].
  rewrite length_app, length_replicate. lia.
Qed.

Lemma X11_AdjustString_7bit_witness :
  AdjustString (C := latin1_conv) [67; 97; 102; 233]%N SF_FORMAT_AIFF
    = Chars (map Ascii.byte_of_ascii (String.list_ascii_of_string "Cafe")
             ++ replicate 12 NUL) /\
  (length (c_str (map Ascii.byte_of_ascii (String.list_ascii_of_string "Cafe")
                  ++ replicate 12 NUL)) <= 5)%nat.
Proof.
  assert (H : AdjustString (C := latin1_conv) [67; 97; 102; 233]%N SF_FORMAT_AIFF
              = Chars (map Ascii.byte_of_ascii
                         (String.list_ascii_of_string "Cafe")
                       ++ replicate 12 NUL)) by reflexivity.
  split; [exact H |].
  exact (proj1 (proj2 (X11_AdjustString_7bit (C := latin1_conv)
                         [67; 97; 102; 233]%N SF_FORMAT_AIFF _ H))).
Defined.

(** X12.  Text that converts to printable ASCII, a byte per character at
    most, comes out of [AdjustString] as it went in, with only the space
    that AIFF needs after an odd number of chars. *)
Theorem X12_printable_text_kept {C : wxConv} (wxStr : wxString)
    (sf_format : Z) (bytes : list char) :
  wxStr <> [] -> mb_str_for wxStr = Some bytes ->
  Forall printable bytes -> (length bytes <= length wxStr)%nat ->
  exists buf : list char,
    AdjustString wxStr sf_format = Chars buf /\
    c_str buf =
      bytes ++ (if is_aiff sf_format
                   && negb (Z.of_nat (length bytes) mod 2 =? 0)
                then [Byte.x20] else []).
Proof.
  intros Hne Hconv Hp Hlen.
  eexists. split.
  { rewrite AdjustString_closed. destruct wxStr as [| w0 ws] eqn:Ew; [congruence |].
    rewrite <- Ew in *. rewrite Hconv. reflexivity. }
  cbv zeta.
  rewrite c_str_app_replicate by apply adjusted_text_not_NUL.
  unfold adjusted_text.
  assert (Hc : c_str bytes = bytes).
  { clear Hlen Hconv. induction Hp as [| c bs Hc Hbs IH]; cbn; [reflexivity |].
    replace (Byte.eqb c NUL) with false; [rewrite IH; reflexivity |].
    symmetry. unfold printable in Hc. destruct c; cbn in Hc; (reflexivity || lia). }
  rewrite Hc, take_ge by exact Hlen.
  assert (Hm : map ascii7 bytes = bytes).
  { clear Hlen Hconv Hc. induction Hp as [| c bs Hc Hbs IH]; cbn; [reflexivity |].
    rewrite IH. f_equal. apply ascii7_printable. unfold printable in Hc.
    apply andb_true_iff. split; apply N.leb_le; lia. }
  rewrite Hm. reflexivity.
Qed.

Lemma X12_printable_text_kept_witness :
  exists buf : list char,
    AdjustString (C := latin1_conv) (wxT "Song") SF_FORMAT_WAV = Chars buf /\
    c_str buf = map Ascii.byte_of_ascii (String.list_ascii_of_string "Song").
Proof.
  destruct (X12_printable_text_kept (C := latin1_conv) (wxT "Song")
              SF_FORMAT_WAV
              (map Ascii.byte_of_ascii (String.list_ascii_of_string "Song")))
    as [buf [H1 H2]].
  - discriminate.
  - reflexivity.
  - repeat constructor; cbn; lia.
  - cbn; lia.
  - exists buf. split; [exact H1 |]. rewrite H2. reflexivity.
Defined.

(** ** ExportPCM.cpp: AddStrings *)

Lemma AdjustString_Chars {C : wxConv} (wxStr : wxString) (sf_format : Z)
    (buf : list char) :
  AdjustString wxStr sf_format = Chars buf ->
  exists bytes : list char,
    mb_str_for wxStr = Some bytes /\
    buf = adjusted_text wxStr sf_format bytes
          ++ replicate ((length wxStr + 4) * 2
                        - length (adjusted_text wxStr sf_format bytes)) NUL.
Proof.
  rewrite AdjustString_closed. intros H.
  destruct wxStr as [| w0 ws] eqn:Ew; [discriminate |]. rewrite <- Ew in *.
  destruct (mb_str_for wxStr) as [bytes |]; [| discriminate].
  cbv zeta in H. injection H as <-. eauto.
Qed.

Lemma omap_option_list {A B : Type} (f : A -> option B) (x : A) (l : list A) :
  omap f (x :: l) = option_list (f x) ++ omap f l.
Proof. cbn. destruct (f x); reflexivity. Qed.

Section AddStringsFacts.

Context {L : wxLocale} {C : wxConv}.

Lemma add_string_call (tags : Tags) (sf_format : Z) (key : wxString)
    (id : SF_STR) :
  add_string tags sf_format key id =
  Some (option_list (string_call tags sf_format (key, id))).
Proof.
  unfold add_string, string_call. cbn [fst snd].
  destruct (HasTag tags key); [| reflexivity].
  rewrite AdjustString_closed.
  destruct (GetTag tags key) as [| w0 ws]; [reflexivity |].
  destruct (mb_str_for (w0 :: ws)); reflexivity.
Qed.

Lemma add_string_In (tags : Tags) (sf_format : Z) (key : wxString)
    (id : SF_STR) (calls : list sf_set_string_call) (c : sf_set_string_call) :
  add_string tags sf_format key id = Some calls -> In c calls ->
  fst c = id /\ HasTag tags key = true /\
  AdjustString (GetTag tags key) sf_format = Chars (snd c).
Proof.
  unfold add_string. intros H Hin.
  destruct (HasTag tags key); [| injection H as <-; destruct Hin].
  destruct (AdjustString (GetTag tags key) sf_format) as [| buf |];
    [injection H as <-; destruct Hin | | discriminate].
  injection H as <-. destruct Hin as [<- | []]. auto.
Qed.

Lemma then_string_Some (a b : option (list sf_set_string_call))
    (cs : list sf_set_string_call) :
  then_string a b = Some cs ->
  exists ca cb, a = Some ca /\ b = Some cb /\ cs = ca ++ cb.
Proof.
  destruct a as [ca |], b as [cb |]; cbn; try discriminate.
  intros [= <-]. eauto.
Qed.

Lemma then_string_In (tags : Tags) (sf_format : Z)
    (before : option (list sf_set_string_call)) (key : wxString) (id : SF_STR)
    (cs : list sf_set_string_call) (c : sf_set_string_call) :
  then_string before (add_string tags sf_format key id) = Some cs ->
  In c cs ->
  (exists ca, before = Some ca /\ In c ca) \/
  (fst c = id /\ HasTag tags key = true /\
   AdjustString (GetTag tags key) sf_format = Chars (snd c)).
Proof.
  intros H Hin. apply then_string_Some in H as (ca & cb & -> & Hb & ->).
  apply in_app_or in Hin as [Hin | Hin]; [left; eauto |].
  right. eapply add_string_In; eassumption.
Qed.

Lemma AddStrings_true (K : TagKeys) (tags : Tags) (sf_format : Z) :
  exists calls : list sf_set_string_call,
    AddStrings K tags sf_format = Some (true, calls).
Proof.
  unfold AddStrings. rewrite !add_string_call. cbn [then_string]. eauto.
Qed.

End AddStringsFacts.

(** X13.  [ExportPCM::AddStrings] makes no write outside an array and
    returns [true]; the [sf_set_string] calls it makes are those of the
    title, album, artist, comments, year, genre, copyright, software and
    track tag, in this order, each one only for a tag that is there and
    has a value that converts. *)
Theorem X13_AddStrings_calls {L : wxLocale} {C : wxConv} (K : TagKeys)
    (tags : Tags) (sf_format : Z) :
  AddStrings K tags sf_format =
  Some (true, omap (string_call tags sf_format) (string_tags K)).
Proof.
  unfold AddStrings. rewrite !add_string_call. cbn [then_string].
  unfold string_tags. rewrite !omap_option_list.
  change (omap (string_call tags sf_format) []) with (@nil sf_set_string_call).
  rewrite app_nil_r, <- !app_assoc. reflexivity.
Qed.

(** X14.  Every string that [ExportPCM::AddStrings] hands to libsndfile
    is the adjusted value of a tag that is there, under the id of that
    tag; it ends with a NUL inside its array, and the chars before the
    NUL are 7-bit. *)
Theorem X14_AddStrings_strings {L : wxLocale} {C : wxConv} (K : TagKeys)
    (tags : Tags) (sf_format : Z) (ok : bool)
    (calls : list sf_set_string_call) (id : SF_STR) (buf : list char) :
  AddStrings K tags sf_format = Some (ok, calls) -> In (id, buf) calls ->
  ok = true /\
  (exists key : wxString,
     In (key, id) (string_tags K) /\ HasTag tags key = true /\
     AdjustString (GetTag tags key) sf_format = Chars buf) /\
  Forall (fun c => (1 <= Byte.to_N c < 128)%N) (c_str buf) /\
  (length (c_str buf) < length buf)%nat.
Proof.
  unfold AddStrings. intros H Hin.
  match type of H with
  | match ?chain with _ => _ end = _ => destruct chain as [cs |] eqn:E
  end; [| discriminate].
  injection H as <- <-. split; [reflexivity |].
  assert (Hkey : exists key : wxString,
             In (key, id) (string_tags K) /\ HasTag tags key = true /\
             AdjustString (GetTag tags key) sf_format = Chars buf).
  { unfold string_tags.
    repeat match goal with
           | E1 : then_string _ (add_string _ _ ?key _) = Some _,
             H1 : In _ _ |- _ =>
               destruct (then_string_In _ _ _ _ _ _ _ E1 H1)
                 as [(? & ? & ?) | (Hi & Hh & Ha)];
               clear E1 H1;
               [| exists key; cbn [fst snd] in Hi, Ha; subst id;
                  split; [cbn; tauto | split; [exact Hh | exact Ha]]]
           end.
    match goal with
    | E1 : add_string _ _ _ _ = Some _, H1 : In _ _ |- _ =>
        destruct (add_string_In _ _ _ _ _ _ E1 H1) as (Hi & Hh & Ha)
    end.
    cbn [fst snd] in Hi, Ha. subst id.
    eexists. split; [| split; [exact Hh | exact Ha]]. cbn; tauto. }
  split; [exact Hkey |].
  destruct Hkey as (key & _ & _ & Ha).
  apply AdjustString_Chars in Ha as (bytes & _ & ->).
  pose proof (adjusted_text_length (GetTag tags key) sf_format bytes) as [Hlen _].
  rewrite c_str_app_replicate by apply adjusted_text_not_NUL.
  split; [apply adjusted_text_7bit |].
  rewrite length_app, length_replicate. lia.
Qed.

Lemma example_tags_strings :
  AddStrings (L := C_locale) (C := latin1_conv) standard_keys example_tags
    SF_FORMAT_AIFF =
  Some (true,
        [ (SF_STR_TITLE,
           map Ascii.byte_of_ascii (String.list_ascii_of_string "Song")
           ++ replicate 12 NUL);
          (SF_STR_ARTIST,
           map Ascii.byte_of_ascii (String.list_ascii_of_string "Me")
           ++ replicate 10 NUL) ]).
Proof. vm_compute. reflexivity. Qed.

Lemma X14_AddStrings_strings_witness :
  exists key : wxString,
    In (key, SF_STR_ARTIST) (string_tags standard_keys) /\
    HasTag (L := C_locale) example_tags key = true.
Proof.
  destruct (X14_AddStrings_strings (L := C_locale) (C := latin1_conv)
              standard_keys example_tags SF_FORMAT_AIFF true _
              SF_STR_ARTIST _ example_tags_strings
              (or_intror (or_introl eq_refl)))
    as (_ & (key & Hk & Hh & _) & _).
  exists key. split; assumption.
Defined.

(** ** ExportPCM.cpp: the format options *)

Lemma upto_In (num i : Z) : In i (upto num) <-> 0 <= i < num.
Proof.
  unfold upto. rewrite in_map_iff. split.
  - intros (k & <- & Hk). apply in_seq in Hk. lia.
  - intros H. exists (Z.to_nat i). split; [lia |]. apply in_seq. lia.
Qed.

Section OptionsFacts.

Variable sf_num_headers : Z.
Variable sf_header_index_name : Z -> wxString.
Variable sf_header_index_to_type : Z -> Z.
Variable sf_num_encodings : Z.
Variable sf_encoding_index_name : Z -> wxString.
Variable sf_encoding_index_to_subtype : Z -> Z.
Variable sf_num_simple_formats : Z.
Variable sf_simple_format : Z -> SF_FORMAT_INFO.
Variable sf_format_check : SF_INFO -> Z.

Local Abbreviation valid_with fmt :=
  (fun i => ValidatePair sf_format_check
              (Z.lor fmt (sf_encoding_index_to_subtype i))).

Lemma header_loop_names (fmt : Z) (l : list Z) (st : list wxString * Z) :
  fst (fold_left (header_step sf_header_index_name sf_header_index_to_type fmt)
         l st)
  = fst st ++ map sf_header_index_name l.
Proof.
  revert st. induction l as [| i l IH]; intros st; cbn [fold_left map].
  - symmetry. apply app_nil_r.
  - rewrite IH. cbn [header_step fst]. rewrite <- app_assoc. reflexivity.
Qed.

Lemma header_loop_choice (fmt : Z) (l : list Z) (st : list wxString * Z) :
  let c := snd (fold_left (header_step sf_header_index_name
                             sf_header_index_to_type fmt) l st) in
  (In c l /\ sf_header_index_to_type c = Z.land fmt SF_FORMAT_TYPEMASK) \/
  (c = snd st /\
   forall i, In i l ->
     sf_header_index_to_type i <> Z.land fmt SF_FORMAT_TYPEMASK).
Proof.
  revert st. induction l as [| i l IH]; intros st; cbn [fold_left].
  - right. split; [reflexivity | intros i []].
  - specialize (IH (header_step sf_header_index_name sf_header_index_to_type
                      fmt st i)).
    cbv zeta in *. destruct IH as [[Hin Ht] | [Hc Hno]].
    + left. split; [right; exact Hin | exact Ht].
    + rewrite Hc. cbn [header_step snd].
      destruct (Z.eqb_spec (Z.land fmt SF_FORMAT_TYPEMASK)
                  (sf_header_index_to_type i)) as [E | E].
      * left. split; [left; reflexivity | symmetry; exact E].
      * right. split; [reflexivity |].
        intros j [<- | Hj]; [congruence | apply Hno, Hj].
Qed.

Lemma encoding_loop_lists (fmt : Z) (l : list Z) (st : encoding_loop) :
  let st' := fold_left (encoding_step sf_encoding_index_name
                          sf_encoding_index_to_subtype sf_format_check fmt)
               l st in
  el_names st' =
    el_names st ++ map sf_encoding_index_name
                     (List.filter (valid_with (Z.land fmt SF_FORMAT_TYPEMASK)) l) /\
  el_formats st' =
    el_formats st ++ map sf_encoding_index_to_subtype
                       (List.filter (valid_with (Z.land fmt SF_FORMAT_TYPEMASK)) l).
Proof.
  revert st. induction l as [| i l IH]; intros st; cbn [fold_left List.filter].
  - cbn. rewrite !app_nil_r. split; reflexivity.
  - specialize (IH (encoding_step sf_encoding_index_name
                      sf_encoding_index_to_subtype sf_format_check fmt st i)).
    cbv zeta in *. destruct IH as [IHn IHf]. rewrite IHn, IHf.
    unfold encoding_step.
    destruct (ValidatePair sf_format_check
                (Z.lor (Z.land fmt SF_FORMAT_TYPEMASK)
                   (sf_encoding_index_to_subtype i))).
    + destruct (Z.land fmt SF_FORMAT_SUBMASK =? sf_encoding_index_to_subtype i);
        cbn [el_names el_formats map]; rewrite <- !app_assoc; split; reflexivity.
    + split; reflexivity.
Qed.

Lemma encoding_loop_inv (fmt : Z) (l : list Z) (st : encoding_loop) :
  encoding_inv st ->
  encoding_inv (fold_left (encoding_step sf_encoding_index_name
                             sf_encoding_index_to_subtype sf_format_check fmt)
                  l st).
Proof.
  revert st. induction l as [| i l IH]; intros st Hst; cbn [fold_left];
    [exact Hst |].
  apply IH. clear IH. destruct Hst as (Hn & Hs & Hc & Hne).
  unfold encoding_step.
  destruct (ValidatePair sf_format_check _); [| repeat split; auto; lia].
  destruct (Z.land fmt SF_FORMAT_SUBMASK =? sf_encoding_index_to_subtype i);
    unfold encoding_inv; cbn [el_names el_formats el_sel el_choice];
    rewrite !length_app; cbn [length]; repeat split; try lia.
Qed.

Lemma encoding_loop_no_match (fmt : Z) (l : list Z) (st : encoding_loop) :
  (forall i, In i l -> ValidatePair sf_format_check
                         (Z.lor (Z.land fmt SF_FORMAT_TYPEMASK)
                            (sf_encoding_index_to_subtype i)) = true ->
     sf_encoding_index_to_subtype i <> Z.land fmt SF_FORMAT_SUBMASK) ->
  el_choice (fold_left (encoding_step sf_encoding_index_name
                          sf_encoding_index_to_subtype sf_format_check fmt)
               l st)
  = el_choice st.
Proof.
  revert st. induction l as [| i l IH]; intros st Hno; cbn [fold_left];
    [reflexivity |].
  rewrite IH by (intros j Hj; apply Hno; right; exact Hj).
  unfold encoding_step.
  destruct (ValidatePair sf_format_check _) eqn:Ev; [| reflexivity].
  destruct (Z.eqb_spec (Z.land fmt SF_FORMAT_SUBMASK)
              (sf_encoding_index_to_subtype i)) as [E | E]; [| reflexivity].
  exfalso. apply (Hno i (or_introl eq_refl) Ev). symmetry. exact E.
Qed.

Lemma encoding_loop_match (fmt : Z) (l : list Z) (st : encoding_loop) :
  NoDup (map sf_encoding_index_to_subtype l) ->
  el_sel st = Z.of_nat (length (el_formats st)) ->
  (exists i, In i l /\
     ValidatePair sf_format_check
       (Z.lor (Z.land fmt SF_FORMAT_TYPEMASK)
          (sf_encoding_index_to_subtype i)) = true /\
     sf_encoding_index_to_subtype i = Z.land fmt SF_FORMAT_SUBMASK) ->
  let st' := fold_left (encoding_step sf_encoding_index_name
                          sf_encoding_index_to_subtype sf_format_check fmt)
               l st in
  0 <= el_choice st' /\
  el_formats st' !! Z.to_nat (el_choice st') = Some (Z.land fmt SF_FORMAT_SUBMASK).
Proof.
  revert st. induction l as [| i l IH]; intros st Hnd Hsel (j & Hj & Hv & He);
    [destruct Hj |].
  cbn [fold_left]. cbv zeta.
  cbn [map] in Hnd. apply NoDup_cons in Hnd as [Hi Hnd].
  set (st1 := encoding_step sf_encoding_index_name sf_encoding_index_to_subtype
                sf_format_check fmt st i).
  destruct (ValidatePair sf_format_check
              (Z.lor (Z.land fmt SF_FORMAT_TYPEMASK)
                 (sf_encoding_index_to_subtype i))) eqn:Ev.
  - destruct (Z.eqb_spec (Z.land fmt SF_FORMAT_SUBMASK)
                (sf_encoding_index_to_subtype i)) as [E | E].
    + assert (H1 : st1 = mk_encoding_loop
                           (el_names st ++ [sf_encoding_index_name i])
                           (el_formats st ++ [sf_encoding_index_to_subtype i])
                           (el_sel st) (el_sel st)).
      { subst st1. unfold encoding_step. rewrite Ev.
        destruct (Z.eqb_spec (Z.land fmt SF_FORMAT_SUBMASK)
                    (sf_encoding_index_to_subtype i)); [reflexivity | contradiction]. }
      rewrite encoding_loop_no_match.
      2:{ intros k Hk _ Ek. apply Hi. apply list_elem_of_In. rewrite <- E, <- Ek.
          apply in_map. exact Hk. }
      destruct (encoding_loop_lists fmt l st1) as [_ Hf]. rewrite Hf, H1.
      cbn [el_choice el_formats]. rewrite Hsel. split; [lia |].
      rewrite Nat2Z.id, <- app_assoc. rewrite lookup_app_r by lia.
      rewrite Nat.sub_diag. cbn. rewrite E. reflexivity.
    + apply IH; [exact Hnd | |].
      * subst st1. unfold encoding_step. rewrite Ev.
        destruct (Z.eqb_spec (Z.land fmt SF_FORMAT_SUBMASK)
                    (sf_encoding_index_to_subtype i)); [contradiction |].
        cbn [el_sel el_formats]. rewrite length_app. cbn [length]. lia.
      * exists j. destruct Hj as [<- | Hj]; [congruence | auto].
  - assert (H1 : st1 = st) by (subst st1; unfold encoding_step; rewrite Ev; reflexivity).
    rewrite H1. apply IH; [exact Hnd | exact Hsel |].
    exists j. destruct Hj as [<- | Hj]; [congruence | auto].
Qed.

Lemma simple_loop_found (sfs : list Z) (fmt sel size : Z) :
  simple_loop sfs fmt sel size =
  if (sel =? wxNOT_FOUND) && existsb (Z.eqb fmt) sfs then size - 1 else sel.
Proof.
  induction sfs as [| enc sfs IH]; cbn [simple_loop existsb].
  - rewrite andb_false_r. reflexivity.
  - destruct (sel =? wxNOT_FOUND); cbn [andb]; [| exact IH].
    destruct (fmt =? enc); cbn [orb]; [reflexivity |].
    rewrite IH. reflexivity.
Qed.

Lemma choice_step_inv (fmt : Z) (sfs : list Z)
    (st : list wxString * list Z * Z) (i : Z) :
  choice_inv sf_format_check fmt sfs st ->
  choice_inv sf_format_check fmt sfs
    (choice_step sf_encoding_index_name sf_encoding_index_to_subtype
       sf_format_check fmt sfs st i).
Proof.
  destruct st as [[names formats] sel]. intros (Hn & Hv & Hs).
  unfold choice_step.
  destruct (ValidatePair sf_format_check
              (Z.lor fmt (sf_encoding_index_to_subtype i))) eqn:Ev;
    [| split; [exact Hn | split; [exact Hv | exact Hs]]].
  unfold choice_inv. rewrite !length_app. cbn [length].
  split; [lia |]. split.
  { apply Forall_app. split; [exact Hv |]. constructor; [exact Ev | constructor]. }
  rewrite simple_loop_found.
  destruct Hs as [-> | (H0 & enc & Hl & Hin)].
  - change (wxNOT_FOUND =? wxNOT_FOUND) with true. cbn [andb].
    destruct (existsb (Z.eqb (Z.lor fmt (sf_encoding_index_to_subtype i))) sfs)
      eqn:Ex; [| left; reflexivity].
    right. split; [lia |]. exists (sf_encoding_index_to_subtype i). split.
    + replace (Z.to_nat (Z.of_nat (length formats + 1) - 1)) with (length formats)
        by lia.
      rewrite lookup_app_r by lia. rewrite Nat.sub_diag. reflexivity.
    + apply existsb_exists in Ex as (x & Hx & Exx).
      apply Z.eqb_eq in Exx. rewrite Exx. exact Hx.
  - replace (sel =? wxNOT_FOUND) with false
      by (symmetry; apply Z.eqb_neq; unfold wxNOT_FOUND; lia).
    cbn [andb]. right. split; [exact H0 |]. exists enc. split; [| exact Hin].
    apply lookup_app_l_Some. exact Hl.
Qed.

Lemma choice_loop_inv (fmt : Z) (sfs : list Z) (l : list Z)
    (st : list wxString * list Z * Z) :
  choice_inv sf_format_check fmt sfs st ->
  choice_inv sf_format_check fmt sfs
    (fold_left (choice_step sf_encoding_index_name sf_encoding_index_to_subtype
                  sf_format_check fmt sfs) l st).
Proof.
  revert st. induction l as [| i l IH]; intros st Hst; cbn [fold_left];
    [exact Hst |].
  apply IH, choice_step_inv, Hst.
Qed.

Lemma choice_loop_lists (fmt : Z) (sfs : list Z) (l : list Z)
    (st : list wxString * list Z * Z) :
  let st' := fold_left (choice_step sf_encoding_index_name
                          sf_encoding_index_to_subtype sf_format_check fmt sfs)
               l st in
  fst (fst st') =
    fst (fst st) ++ map sf_encoding_index_name (List.filter (valid_with fmt) l) /\
  snd (fst st') =
    snd (fst st) ++ map sf_encoding_index_to_subtype
                      (List.filter (valid_with fmt) l).
Proof.
  revert st. induction l as [| i l IH]; intros st; cbn [fold_left List.filter].
  - cbn. rewrite !app_nil_r. split; reflexivity.
  - specialize (IH (choice_step sf_encoding_index_name
                      sf_encoding_index_to_subtype sf_format_check fmt sfs st i)).
    cbv zeta in *. destruct IH as [IHn IHf]. rewrite IHn, IHf.
    destruct st as [[names formats] sel]. unfold choice_step.
    destruct (ValidatePair sf_format_check
                (Z.lor fmt (sf_encoding_index_to_subtype i)));
      cbn [fst snd map]; rewrite <- ?app_assoc; split; reflexivity.
Qed.

Lemma choice_loop_kept (fmt : Z) (sfs : list Z) (l : list Z)
    (st : list wxString * list Z * Z) :
  snd st <> wxNOT_FOUND ->
  snd (fold_left (choice_step sf_encoding_index_name
                    sf_encoding_index_to_subtype sf_format_check fmt sfs) l st)
  = snd st.
Proof.
  revert st. induction l as [| i l IH]; intros st Hs; cbn [fold_left];
    [reflexivity |].
  assert (H1 : snd (choice_step sf_encoding_index_name
                      sf_encoding_index_to_subtype sf_format_check fmt sfs st i)
               = snd st).
  { destruct st as [[names formats] sel]. cbn [snd] in *. unfold choice_step.
    destruct (ValidatePair sf_format_check _); [| reflexivity].
    cbn [snd]. rewrite simple_loop_found.
    replace (sel =? wxNOT_FOUND) with false
      by (symmetry; apply Z.eqb_neq; exact Hs).
    reflexivity. }
  rewrite IH by (rewrite H1; exact Hs). exact H1.
Qed.

Lemma choice_loop_finds (fmt : Z) (sfs : list Z) (l : list Z)
    (st : list wxString * list Z * Z) :
  (exists i, In i l /\
     ValidatePair sf_format_check
       (Z.lor fmt (sf_encoding_index_to_subtype i)) = true /\
     In (Z.lor fmt (sf_encoding_index_to_subtype i)) sfs) ->
  snd (fold_left (choice_step sf_encoding_index_name
                    sf_encoding_index_to_subtype sf_format_check fmt sfs) l st)
  <> wxNOT_FOUND.
Proof.
  revert st. induction l as [| i l IH]; intros st (j & Hj & Hv & Hs);
    [destruct Hj |].
  cbn [fold_left]. destruct Hj as [<- | Hj]; [| apply IH; eauto].
  assert (Hstep : snd (choice_step sf_encoding_index_name
                         sf_encoding_index_to_subtype sf_format_check fmt sfs
                         st i) <> wxNOT_FOUND).
  { destruct st as [[names formats] sel]. unfold choice_step. rewrite Hv.
    cbn [snd]. rewrite simple_loop_found.
    destruct (Z.eqb_spec sel wxNOT_FOUND) as [E | E]; cbn [andb]; [| exact E].
    replace (existsb _ sfs) with true.
    - rewrite length_app. cbn [length]. unfold wxNOT_FOUND. lia.
    - symmetry. apply existsb_exists. eexists. split; [exact Hs |].
      apply Z.eqb_refl. }
  rewrite choice_loop_kept; exact Hstep.
Qed.

Local Abbreviation ctor :=
  (ExportPCMOptions_ctor sf_num_headers sf_header_index_name
     sf_header_index_to_type sf_num_encodings sf_encoding_index_name
     sf_encoding_index_to_subtype sf_format_check).

Local Abbreviation on_header_choice :=
  (OnHeaderChoice sf_header_index_to_type sf_num_encodings
     sf_encoding_index_name sf_encoding_index_to_subtype sf_num_simple_formats
     sf_simple_format sf_format_check).

Local Abbreviation simple_formats :=
  (map (fun i => fi_format (sf_simple_format i)) (upto sf_num_simple_formats)).

(** X15.  The constructor of [ExportPCMOptions] lists the names of all
    headers; when one of them has the type of the format, the header it
    picks is such a one. *)
Theorem X15_ctor_header_choice (fmt i : Z) :
  0 <= i < sf_num_headers ->
  sf_header_index_to_type i = Z.land fmt SF_FORMAT_TYPEMASK ->
  mHeaderNames (ctor fmt) = map sf_header_index_name (upto sf_num_headers) /\
  0 <= mHeaderFromChoice (ctor fmt) < sf_num_headers /\
  sf_header_index_to_type (mHeaderFromChoice (ctor fmt))
    = Z.land fmt SF_FORMAT_TYPEMASK.
Proof.
  intros Hi Ht. unfold ExportPCMOptions_ctor.
  cbn [mHeaderNames mHeaderFromChoice].
  split; [apply header_loop_names |].
  destruct (header_loop_choice fmt (upto sf_num_headers) ([], 0))
    as [[Hin Hc] | [_ Hno]].
  - split; [apply upto_In, Hin | exact Hc].
  - exfalso. apply (Hno i); [apply upto_In, Hi | exact Ht].
Qed.

(** X16.  The constructor of [ExportPCMOptions] lists the encodings that
    are valid with the header type of the format, by name and by
    subtype, in the order of the library; the encoding it picks is one
    of the list, unless the list is empty. *)
Theorem X16_ctor_encoding_lists (fmt : Z) :
  mEncodingNames (ctor fmt) =
    map sf_encoding_index_name
      (List.filter (valid_with (Z.land fmt SF_FORMAT_TYPEMASK))
         (upto sf_num_encodings)) /\
  mEncodingFormats (ctor fmt) =
    map sf_encoding_index_to_subtype
      (List.filter (valid_with (Z.land fmt SF_FORMAT_TYPEMASK))
         (upto sf_num_encodings)) /\
  0 <= mEncodingFromChoice (ctor fmt)
    < Z.max 1 (Z.of_nat (length (mEncodingFormats (ctor fmt)))).
Proof.
  unfold ExportPCMOptions_ctor.
  cbn [mEncodingNames mEncodingFormats mEncodingFromChoice].
  destruct (encoding_loop_lists fmt (upto sf_num_encodings)
              (mk_encoding_loop [] [] 0 0)) as [Hn Hf].
  split; [exact Hn |]. split; [exact Hf |].
  destruct (encoding_loop_inv fmt (upto sf_num_encodings)
              (mk_encoding_loop [] [] 0 0)) as (_ & _ & Hc & Hne).
  { repeat split; cbn; try lia. congruence. }
  destruct (el_formats (fold_left _ (upto sf_num_encodings) _)) as [| e es];
    [cbn in *; lia |].
  specialize (Hne ltac:(discriminate)). lia.
Qed.

(** X17.  When the library has the header type of the format, has its
    encoding as a valid one with that type, and gives no subtype to two
    encodings, the choices that the constructor of [ExportPCMOptions]
    makes stand for the format: [GetFormat] at them gives the type and
    the subtype of the format. *)
Theorem X17_ctor_then_GetFormat (fmt i j : Z) :
  NoDup (map sf_encoding_index_to_subtype (upto sf_num_encodings)) ->
  0 <= i < sf_num_headers ->
  sf_header_index_to_type i = Z.land fmt SF_FORMAT_TYPEMASK ->
  0 <= j < sf_num_encodings ->
  sf_encoding_index_to_subtype j = Z.land fmt SF_FORMAT_SUBMASK ->
  ValidatePair sf_format_check
    (Z.land fmt (Z.lor SF_FORMAT_TYPEMASK SF_FORMAT_SUBMASK)) = true ->
  GetFormat sf_header_index_to_type (ctor fmt) (mHeaderFromChoice (ctor fmt))
    (mEncodingFromChoice (ctor fmt))
  = Some (Z.land fmt (Z.lor SF_FORMAT_TYPEMASK SF_FORMAT_SUBMASK)).
Proof.
  intros Hnd Hi Ht Hj Hs Hv. rewrite Z.land_lor_distr_r in Hv |- *.
  unfold GetFormat, ExportPCMOptions_ctor.
  cbn [mHeaderFromChoice mEncodingFromChoice mEncodingFormats].
  destruct (header_loop_choice fmt (upto sf_num_headers) ([], 0))
    as [[_ Hc] | [_ Hno]];
    [| exfalso; apply (Hno i); [apply upto_In, Hi | exact Ht]].
  rewrite Hc.
  destruct (encoding_loop_match fmt (upto sf_num_encodings)
              (mk_encoding_loop [] [] 0 0) Hnd eq_refl) as [H0 Hl].
  { exists j. split; [apply upto_In, Hj |]. rewrite Hs. split; [exact Hv | reflexivity]. }
  replace (_ <? 0) with false by (symmetry; apply Z.ltb_ge; exact H0).
  rewrite Hl. reflexivity.
Qed.

(** X18.  [OnHeaderChoice] lists the encodings that are valid with the
    header chosen, by name and by subtype, in the order of the library,
    and leaves the header members as they are; the encoding it selects
    is one of the list, unless the list is empty. *)
Theorem X18_OnHeaderChoice_lists (this : ExportPCMOptions) (h : Z) :
  let fmt := header_format sf_header_index_to_type h in
  mEncodingNames (on_header_choice this h) =
    map sf_encoding_index_name
      (List.filter (valid_with fmt) (upto sf_num_encodings)) /\
  mEncodingFormats (on_header_choice this h) =
    map sf_encoding_index_to_subtype
      (List.filter (valid_with fmt) (upto sf_num_encodings)) /\
  mHeaderNames (on_header_choice this h) = mHeaderNames this /\
  mHeaderFromChoice (on_header_choice this h) = mHeaderFromChoice this /\
  0 <= mEncodingFromChoice (on_header_choice this h)
    < Z.max 1 (Z.of_nat (length (mEncodingFormats (on_header_choice this h)))).
Proof.
  intros fmt. unfold OnHeaderChoice. fold fmt.
  pose proof (choice_loop_lists fmt simple_formats (upto sf_num_encodings)
                ([], [], wxNOT_FOUND)) as Hl.
  pose proof (choice_loop_inv fmt simple_formats (upto sf_num_encodings)
                ([], [], wxNOT_FOUND)) as Hi.
  cbv zeta in Hl.
  destruct (fold_left _ (upto sf_num_encodings) _) as [[names formats] sel].
  cbn [fst snd app] in Hl. destruct Hl as [Hn Hf].
  cbn [mEncodingNames mEncodingFormats mHeaderNames mHeaderFromChoice
         mEncodingFromChoice].
  repeat (split; [first [exact Hn | exact Hf | reflexivity] |]).
  destruct Hi as (_ & _ & Hs).
  { split; [reflexivity |]. split; [constructor | left; reflexivity]. }
  destruct Hs as [-> | (H0 & enc & Hl & _)].
  - change (wxNOT_FOUND =? wxNOT_FOUND) with true. cbv iota. lia.
  - replace (sel =? wxNOT_FOUND) with false
      by (symmetry; apply Z.eqb_neq; unfold wxNOT_FOUND; lia).
    apply lookup_lt_Some in Hl. lia.
Qed.

Lemma OnHeaderChoice_selected (this : ExportPCMOptions) (h j : Z) :
  0 <= j < sf_num_encodings ->
  ValidatePair sf_format_check
    (Z.lor (header_format sf_header_index_to_type h)
       (sf_encoding_index_to_subtype j)) = true ->
  exists enc : Z,
    GetFormat sf_header_index_to_type (on_header_choice this h) h
      (mEncodingFromChoice (on_header_choice this h))
    = Some (Z.lor (sf_header_index_to_type h) enc) /\
    ValidatePair sf_format_check
      (Z.lor (header_format sf_header_index_to_type h) enc) = true /\
    ((exists k, 0 <= k < sf_num_encodings /\
        ValidatePair sf_format_check
          (Z.lor (header_format sf_header_index_to_type h)
             (sf_encoding_index_to_subtype k)) = true /\
        In (Z.lor (header_format sf_header_index_to_type h)
              (sf_encoding_index_to_subtype k)) simple_formats) ->
     In (Z.lor (header_format sf_header_index_to_type h) enc) simple_formats).
Proof.
  intros Hj Hv. set (fmt := header_format sf_header_index_to_type h) in *.
  unfold GetFormat, OnHeaderChoice. fold fmt.
  pose proof (choice_loop_lists fmt simple_formats (upto sf_num_encodings)
                ([], [], wxNOT_FOUND)) as Hl.
  pose proof (choice_loop_inv fmt simple_formats (upto sf_num_encodings)
                ([], [], wxNOT_FOUND)) as Hi.
  pose proof (choice_loop_finds fmt simple_formats (upto sf_num_encodings)
                ([], [], wxNOT_FOUND)) as Hfind.
  cbv zeta in Hl.
  destruct (fold_left _ (upto sf_num_encodings) _) as [[names formats] sel].
  cbn [fst snd app] in Hl, Hfind. destruct Hl as [_ Hf].
  cbn [mEncodingFormats mEncodingFromChoice].
  destruct Hi as (_ & Hall & Hs).
  { split; [reflexivity |]. split; [constructor | left; reflexivity]. }
  destruct Hs as [-> | (H0 & enc & Hl & Hin)].
  - change (wxNOT_FOUND =? wxNOT_FOUND) with true. cbv iota.
    change (0 <? 0) with false. cbv iota. change (Z.to_nat 0) with O.
    destruct formats as [| enc0 rest].
    + exfalso. symmetry in Hf. apply map_eq_nil in Hf.
      assert (Hin : In j (List.filter (valid_with fmt) (upto sf_num_encodings))).
      { apply filter_In. split; [apply upto_In, Hj | exact Hv]. }
      rewrite Hf in Hin. destruct Hin.
    + exists enc0. split; [reflexivity |].
      split; [apply (Forall_inv Hall) |].
      intros (k & Hk & Hkv & Hks). exfalso. apply Hfind; [| reflexivity].
      exists k. split; [apply upto_In, Hk | split; assumption].
  - replace (sel =? wxNOT_FOUND) with false
      by (symmetry; apply Z.eqb_neq; unfold wxNOT_FOUND; lia).
    replace (sel <? 0) with false by (symmetry; apply Z.ltb_ge; exact H0).
    rewrite Hl. exists enc. split; [reflexivity |].
    split; [| intros _; exact Hin].
    rewrite Forall_forall in Hall. apply Hall.
    eapply list_elem_of_lookup_2. exact Hl.
Qed.

(** X19.  After [OnHeaderChoice] for a header that is not AIFF and has a
    valid encoding, [GetFormat] at the encoding selected gives a format
    that [ValidatePair] accepts. *)
Theorem X19_OnHeaderChoice_valid (this : ExportPCMOptions) (h j : Z) :
  sf_header_index_to_type h <> SF_FORMAT_AIFF ->
  0 <= j < sf_num_encodings ->
  ValidatePair sf_format_check
    (Z.lor (sf_header_index_to_type h) (sf_encoding_index_to_subtype j))
    = true ->
  exists f : Z,
    GetFormat sf_header_index_to_type (on_header_choice this h) h
      (mEncodingFromChoice (on_header_choice this h)) = Some f /\
    ValidatePair sf_format_check f = true.
Proof.
  intros Hh Hj Hv.
  assert (E : header_format sf_header_index_to_type h
              = sf_header_index_to_type h).
  { unfold header_format.
    destruct (Z.eqb_spec (sf_header_index_to_type h) SF_FORMAT_AIFF);
      [contradiction | reflexivity]. }
  destruct (OnHeaderChoice_selected this h j Hj) as (enc & Hg & Hval & _).
  { rewrite E. exact Hv. }
  rewrite E in Hval. eauto.
Qed.

(** X20.  When some valid encoding makes, with the header chosen, one of
    the simple formats of the library, [OnHeaderChoice] selects such an
    encoding; for AIFF the format it compares is the header with 16-bit
    PCM and the subtype or-ed in. *)
Theorem X20_OnHeaderChoice_simple (this : ExportPCMOptions) (h k : Z) :
  0 <= k < sf_num_encodings ->
  ValidatePair sf_format_check
    (Z.lor (header_format sf_header_index_to_type h)
       (sf_encoding_index_to_subtype k)) = true ->
  In (Z.lor (header_format sf_header_index_to_type h)
        (sf_encoding_index_to_subtype k)) simple_formats ->
  exists enc : Z,
    GetFormat sf_header_index_to_type (on_header_choice this h) h
      (mEncodingFromChoice (on_header_choice this h))
    = Some (Z.lor (sf_header_index_to_type h) enc) /\
    ValidatePair sf_format_check
      (Z.lor (header_format sf_header_index_to_type h) enc) = true /\
    In (Z.lor (header_format sf_header_index_to_type h) enc) simple_formats.
Proof.
  intros Hk Hv Hs.
  destruct (OnHeaderChoice_selected this h k Hk Hv) as (enc & Hg & Hval & Hsim).
  exists enc. split; [exact Hg |]. split; [exact Hval |].
  apply Hsim. eauto.
Qed.

End OptionsFacts.

Lemma X15_ctor_header_choice_witness :
  Sndfile.header_index_to_type
    (mHeaderFromChoice (Sndfile.ctor (Z.lor SF_FORMAT_WAV SF_FORMAT_PCM_24)))
  = SF_FORMAT_WAV.
Proof.
  pose proof (X15_ctor_header_choice Sndfile.num_headers
                Sndfile.header_index_name Sndfile.header_index_to_type
                Sndfile.num_encodings Sndfile.encoding_index_name
                Sndfile.encoding_index_to_subtype Sndfile.format_check
                (Z.lor SF_FORMAT_WAV SF_FORMAT_PCM_24) 1
                ltac:(unfold Sndfile.num_headers; lia) eq_refl)
    as (_ & _ & H).
  exact H.
Defined.

Lemma Sndfile_subtypes_NoDup :
  NoDup (map Sndfile.encoding_index_to_subtype (upto Sndfile.num_encodings)).
Proof. apply (bool_decide_unpack _). vm_compute. exact I. Qed.

Lemma X17_ctor_then_GetFormat_witness :
  GetFormat Sndfile.header_index_to_type
    (Sndfile.ctor (Z.lor SF_FORMAT_WAV SF_FORMAT_PCM_24))
    (mHeaderFromChoice (Sndfile.ctor (Z.lor SF_FORMAT_WAV SF_FORMAT_PCM_24)))
    (mEncodingFromChoice (Sndfile.ctor (Z.lor SF_FORMAT_WAV SF_FORMAT_PCM_24)))
  = Some (Z.lor SF_FORMAT_WAV SF_FORMAT_PCM_24).
Proof.
  exact (X17_ctor_then_GetFormat Sndfile.num_headers
           Sndfile.header_index_name Sndfile.header_index_to_type
           Sndfile.num_encodings Sndfile.encoding_index_name
           Sndfile.encoding_index_to_subtype Sndfile.format_check
           (Z.lor SF_FORMAT_WAV SF_FORMAT_PCM_24) 1 2
           Sndfile_subtypes_NoDup
           ltac:(unfold Sndfile.num_headers; lia) eq_refl
           ltac:(unfold Sndfile.num_encodings; lia) eq_refl eq_refl).
Defined.

Lemma X19_OnHeaderChoice_valid_witness :
  exists f : Z,
    GetFormat Sndfile.header_index_to_type
      (Sndfile.on_header_choice (Sndfile.ctor SF_FORMAT_AIFF) 1) 1
      (mEncodingFromChoice
         (Sndfile.on_header_choice (Sndfile.ctor SF_FORMAT_AIFF) 1))
    = Some f /\
    ValidatePair Sndfile.format_check f = true.
Proof.
  exact (X19_OnHeaderChoice_valid Sndfile.header_index_to_type
           Sndfile.num_encodings Sndfile.encoding_index_name
           Sndfile.encoding_index_to_subtype Sndfile.num_simple_formats
           Sndfile.simple_format Sndfile.format_check
           (Sndfile.ctor SF_FORMAT_AIFF) 1 1
           ltac:(discriminate)
           ltac:(unfold Sndfile.num_encodings; lia) eq_refl).
Defined.

Lemma X20_OnHeaderChoice_simple_witness :
  exists enc : Z,
    GetFormat Sndfile.header_index_to_type
      (Sndfile.on_header_choice (Sndfile.ctor SF_FORMAT_WAV) 0) 0
      (mEncodingFromChoice
         (Sndfile.on_header_choice (Sndfile.ctor SF_FORMAT_WAV) 0))
    = Some (Z.lor SF_FORMAT_AIFF enc) /\
    In (Z.lor (Z.lor SF_FORMAT_AIFF SF_FORMAT_PCM_16) enc)
      (map (fun i => fi_format (Sndfile.simple_format i))
         (upto Sndfile.num_simple_formats)).
Proof.
  destruct (X20_OnHeaderChoice_simple Sndfile.header_index_to_type
              Sndfile.num_encodings Sndfile.encoding_index_name
              Sndfile.encoding_index_to_subtype Sndfile.num_simple_formats
              Sndfile.simple_format Sndfile.format_check
              (Sndfile.ctor SF_FORMAT_WAV) 0 1
              ltac:(unfold Sndfile.num_encodings; lia) eq_refl
              ltac:(left; reflexivity))
    as (enc & Hg & _ & Hs).
  exists enc. split; [exact Hg | exact Hs].
Defined.

(** ** ExportPCM.cpp: the export *)

Lemma strings_set_app (a b : list ExportCall) :
  strings_set (a ++ b) = strings_set a ++ strings_set b.
Proof. apply omap_app. Qed.

Lemma frames_written_app (a b : list ExportCall) :
  frames_written (a ++ b) = frames_written a ++ frames_written b.
Proof. apply omap_app. Qed.

Lemma strings_set_strings (calls : list sf_set_string_call) :
  strings_set (map (fun c => call_sf_set_string (fst c) (snd c)) calls) = calls.
Proof.
  induction calls as [| [id str] calls IH]; [reflexivity |].
  cbn [map fst snd]. unfold strings_set in *. cbn. rewrite IH. reflexivity.
Qed.

Lemma frames_written_strings (calls : list sf_set_string_call) :
  frames_written (map (fun c => call_sf_set_string (fst c) (snd c)) calls) = [].
Proof.
  induction calls as [| [id str] calls IH]; [reflexivity |]. exact IH.
Qed.

(** The loop: it ends at the first turn that does not go on; all turns
    before it wrote their frames. *)
Lemma export_loop_spec (format : sampleFormat) (maxBlockLen : Z)
    (ts : list turn) (r : ProgressResult) (calls : list ExportCall) :
  export_loop format maxBlockLen ts = Some (r, calls) ->
  exists (n : nat) (t : turn),
    ts !! n = Some t /\ goes_on t = false /\
    forallb goes_on (take n ts) = true /\
    strings_set calls = [] /\
    ~ In call_close calls /\
    (forall f, ~ In (call_AddID3Chunk f) calls) /\
    frames_written calls =
      map numSamples (take n ts)
      ++ (if numSamples t =? 0 then [] else [numSamples t]) /\
    r = (if numSamples t =? 0 then Success
         else if SizeT.wrap (samplesWritten t) =? numSamples t
              then updated t else Cancelled) /\
    Forall (fun c => written_as format c = true) calls.
Proof.
  revert r calls. induction ts as [| t ts IH]; intros r calls H;
    [discriminate |].
  cbn [export_loop] in H.
  assert (Hleaf : forall r0 calls0,
             goes_on t = false ->
             strings_set calls0 = [] ->
             ~ In call_close calls0 ->
             (forall f, ~ In (call_AddID3Chunk f) calls0) ->
             frames_written calls0
               = (if numSamples t =? 0 then [] else [numSamples t]) ->
             r0 = (if numSamples t =? 0 then Success
                   else if SizeT.wrap (samplesWritten t) =? numSamples t
                        then updated t else Cancelled) ->
             Forall (fun c => written_as format c = true) calls0 ->
             Some (r0, calls0) = Some (r, calls) ->
             exists (n : nat) (t0 : turn),
               (t :: ts) !! n = Some t0 /\ goes_on t0 = false /\
               forallb goes_on (take n (t :: ts)) = true /\
               strings_set calls = [] /\
               ~ In call_close calls /\
               (forall f, ~ In (call_AddID3Chunk f) calls) /\
               frames_written calls =
                 map numSamples (take n (t :: ts))
                 ++ (if numSamples t0 =? 0 then [] else [numSamples t0]) /\
               r = (if numSamples t0 =? 0 then Success
                    else if SizeT.wrap (samplesWritten t0) =? numSamples t0
                         then updated t0 else Cancelled) /\
               Forall (fun c => written_as format c = true) calls).
  { intros r0 calls0 Hg Hs Hc Hid Hf Hr Hk [= <- <-].
    exists O, t. repeat (split; [first [reflexivity | assumption] |]).
    exact Hk. }
  destruct (numSamples t =? 0) eqn:E0.
  { apply (Hleaf _ _) in H; [exact H | ..]; clear Hleaf.
    - unfold goes_on. rewrite E0. reflexivity.
    - reflexivity.
    - cbn. intuition discriminate.
    - intros f. cbn. intuition discriminate.
    - reflexivity.
    - reflexivity.
    - repeat constructor. }
  destruct (SizeT.wrap (samplesWritten t) =? numSamples t) eqn:Ew;
    cbn [negb] in H.
  2:{ apply (Hleaf _ _) in H; [exact H | ..]; clear Hleaf.
      - unfold goes_on. rewrite E0, Ew. reflexivity.
      - destruct format; reflexivity.
      - destruct format; cbn; intuition discriminate.
      - intros f. destruct format; cbn; intuition discriminate.
      - destruct format; reflexivity.
      - reflexivity.
      - destruct format; repeat constructor. }
  destruct (updated t) eqn:Eu.
  1,3,4:
    apply (Hleaf _ _) in H; [exact H | ..]; clear Hleaf;
    [ unfold goes_on; rewrite ?E0, ?Ew, ?Eu; reflexivity
    | destruct format; reflexivity
    | destruct format; cbn; intuition discriminate
    | intros f; destruct format; cbn; intuition discriminate
    | rewrite ?E0; destruct format; reflexivity
    | rewrite ?E0, ?Ew, ?Eu; reflexivity
    | destruct format; repeat constructor ].
  clear Hleaf.
  destruct (export_loop format maxBlockLen ts) as [[r' calls'] |];
    [| discriminate].
  injection H as <- <-.
  destruct (IH r' calls' eq_refl)
    as (n & t' & Hn & Hg & Hall & Hs & Hc & Hid & Hf & Hr & Hk).
  exists (S n), t'. split; [exact Hn |]. split; [exact Hg |].
  split.
  { cbn [take forallb]. rewrite Hall. unfold goes_on. rewrite E0, Ew, Eu.
    reflexivity. }
  split; [destruct format; exact Hs |].
  split.
  { destruct format; cbn; intuition discriminate. }
  split.
  { intros f. specialize (Hid f). destruct format; cbn; intuition discriminate. }
  split.
  { cbn [take map app]. rewrite <- Hf. destruct format; reflexivity. }
  split; [exact Hr |].
  destruct format; repeat constructor; exact Hk.
Qed.

Lemma export_loop_returns (format : sampleFormat) (maxBlockLen : Z)
    (ts : list turn) :
  forallb goes_on ts = false ->
  exists r calls, export_loop format maxBlockLen ts = Some (r, calls).
Proof.
  induction ts as [| t ts IH]; [discriminate |].
  cbn [forallb export_loop]. intros H.
  destruct (numSamples t =? 0) eqn:E0; [eauto |].
  destruct (SizeT.wrap (samplesWritten t) =? numSamples t) eqn:Ew;
    cbn [negb]; [| eauto].
  destruct (updated t) eqn:Eu; eauto.
  unfold goes_on in H. rewrite E0, Ew, Eu in H. cbn in H.
  destruct (IH H) as (r & calls & ->). eauto.
Qed.

Section ExportFacts.

Context {L : wxLocale} {C : wxConv}.

Variable to_unsigned_int : float -> Z.
Variable to_float : float -> float.
Variable WXMAC : bool.
Variable Read : Z -> Z.
Variable K : TagKeys.

Local Abbreviation export := (Export to_unsigned_int to_float WXMAC Read K).

Lemma AddStrings_calls_true (metadata : Tags) (sf_format : Z) :
  exists strs : list sf_set_string_call,
    AddStrings K metadata sf_format = Some (true, strs) /\
    AddStrings_calls K metadata sf_format =
      Some (true, map (fun c => call_sf_set_string (fst c) (snd c)) strs).
Proof.
  destruct (AddStrings_true K metadata sf_format) as [strs H].
  exists strs. split; [exact H |]. unfold AddStrings_calls. rewrite H.
  reflexivity.
Qed.

Lemma export_end_returns (w : ExportWorld) (metadata : Tags) (sf_format : Z)
    (u : ProgressResult) :
  exists r tail, export_end K w metadata sf_format u = Some (r, tail).
Proof.
  unfold export_end.
  destruct (AddStrings_calls_true metadata sf_format) as (strs & _ & ->).
  destruct (is_live u); [| eauto].
  destruct (is_wav_or_wavex sf_format), (negb (0 =? close w)),
    (is_aiff_or_wav sf_format), (negb (AddID3Chunk_ok w)); eauto.
Qed.

Lemma export_end_closes (w : ExportWorld) (metadata : Tags) (sf_format : Z)
    (u r : ProgressResult) (tail : list ExportCall) :
  is_live u = true ->
  export_end K w metadata sf_format u = Some (r, tail) ->
  In call_close tail.
Proof.
  intros Hu. unfold export_end. rewrite Hu.
  destruct (AddStrings_calls_true metadata sf_format) as (strs & _ & ->).
  destruct (is_wav_or_wavex sf_format), (negb (0 =? close w)),
    (is_aiff_or_wav sf_format), (negb (AddID3Chunk_ok w));
    intros [= <- <-];
    first [apply in_or_app; right; left; reflexivity | left; reflexivity].
Qed.

Lemma export_end_spec (w : ExportWorld) (metadata : Tags) (sf_format : Z)
    (u r : ProgressResult) (tail : list ExportCall)
    (strs : list sf_set_string_call) :
  AddStrings K metadata sf_format = Some (true, strs) ->
  export_end K w metadata sf_format u = Some (r, tail) ->
  frames_written tail = [] /\
  strings_set tail
    = (if is_live u && is_wav_or_wavex sf_format then strs else []) /\
  (forall g, In (call_AddID3Chunk g) tail ->
     g = sf_format /\ is_aiff_or_wav sf_format = true /\ close w = 0 /\
     is_live u = true) /\
  (In call_close tail -> is_live u = true) /\
  (is_live r = true ->
     r = u /\ close w = 0 /\ In call_close tail /\
     (is_aiff_or_wav sf_format = true ->
      In (call_AddID3Chunk sf_format) tail /\ AddID3Chunk_ok w = true)) /\
  (is_live u = false -> r = u /\ tail = []).
Proof.
  intros Hs H. unfold export_end in H.
  assert (Hc : AddStrings_calls K metadata sf_format =
               Some (true, map (fun c => call_sf_set_string (fst c) (snd c)) strs)).
  { unfold AddStrings_calls. rewrite Hs. reflexivity. }
  rewrite Hc in H. clear Hc.
  pose proof (strings_set_strings strs) as S1.
  pose proof (frames_written_strings strs) as F1.
  set (ss := map (fun c => call_sf_set_string (fst c) (snd c)) strs) in *.
  assert (Hno : forall c, In c ss -> exists id str, c = call_sf_set_string id str).
  { intros c Hin. apply in_map_iff in Hin as ([id str] & <- & _). eauto. }
  destruct (is_live u) eqn:Eu.
  2:{ injection H as <- <-. cbn [andb].
      split; [reflexivity |]. split; [reflexivity |].
      split; [intros g [] |]. split; [intros [] |].
      split; [intros E; rewrite Eu in E; discriminate |].
      intros _. split; reflexivity. }
  cbn [andb].
  assert (Hlist : forall (pre : list ExportCall),
             (pre = ss /\ is_wav_or_wavex sf_format = true
              \/ pre = [] /\ is_wav_or_wavex sf_format = false) ->
             forall post,
               frames_written post = [] -> strings_set post = [] ->
               frames_written (pre ++ post) = [] /\
               strings_set (pre ++ post)
                 = (if is_wav_or_wavex sf_format then strs else [])).
  { intros pre [[-> ->] | [-> ->]] post Hf Hss;
      rewrite frames_written_app, strings_set_app, Hf, Hss, ?F1, ?S1;
      rewrite ?app_nil_r; split; reflexivity. }
  assert (Hpre : forall (A : Type) (k : list ExportCall -> A),
             (match (if is_wav_or_wavex sf_format
                     then Some (true, ss) else Some (true, []))
              with
              | Some (true, strings) => k strings
              | Some (false, strings) => k strings
              | None => k []
              end)
             = k (if is_wav_or_wavex sf_format then ss else [])).
  { intros A k. destruct (is_wav_or_wavex sf_format); reflexivity. }
  set (pre := if is_wav_or_wavex sf_format then ss else []).
  assert (Hp : pre = ss /\ is_wav_or_wavex sf_format = true
               \/ pre = [] /\ is_wav_or_wavex sf_format = false).
  { subst pre. destruct (is_wav_or_wavex sf_format); auto. }
  assert (Hin_pre : forall c, In c pre -> exists id str, c = call_sf_set_string id str).
  { intros c Hin. destruct Hp as [[-> _] | [-> _]]; [auto | destruct Hin]. }
  assert (H' : (if negb (0 =? close w) then
                  Some (Cancelled,
                        pre ++ [call_close;
                                call_AudacityMessageBox Unable_to_export])
                else if is_aiff_or_wav sf_format then
                  if negb (AddID3Chunk_ok w) then
                    Some (Cancelled,
                          pre ++ [call_close; call_AddID3Chunk sf_format;
                                  call_AudacityMessageBox Unable_to_export])
                  else
                    Some (u, pre ++ [call_close; call_AddID3Chunk sf_format])
                else Some (u, pre ++ [call_close])) = Some (r, tail)).
  { subst pre. destruct (is_wav_or_wavex sf_format); exact H. }
  clear H Hpre.
  assert (Hid : forall g post,
             In (call_AddID3Chunk g) (pre ++ post) -> In (call_AddID3Chunk g) post).
  { intros g post Hin. apply in_app_or in Hin as [Hin | Hin]; [| exact Hin].
    apply Hin_pre in Hin as (id & str & Hin). discriminate. }
  destruct (Z.eqb_spec 0 (close w)) as [Ec | Ec]; cbn [negb] in H'.
  2:{ injection H' as <- <-.
      split; [apply Hlist; [exact Hp | reflexivity | reflexivity] |].
      split; [apply Hlist; [exact Hp | reflexivity | reflexivity] |].
      split.
      { intros g Hin. apply Hid in Hin. cbn in Hin. intuition discriminate. }
      split; [reflexivity |].
      split; [discriminate | discriminate]. }
  destruct (is_aiff_or_wav sf_format) eqn:Ea.
  - destruct (AddID3Chunk_ok w) eqn:Ei; cbn [negb] in H'; injection H' as <- <-.
    + split; [apply Hlist; [exact Hp | reflexivity | reflexivity] |].
      split; [apply Hlist; [exact Hp | reflexivity | reflexivity] |].
      split.
      { intros g Hin. apply Hid in Hin. cbn in Hin.
        destruct Hin as [? | [[= <-] | []]]; [discriminate |]. auto. }
      split; [reflexivity |].
      split; [| discriminate].
      intros _. split; [reflexivity |]. split; [auto |].
      split; [apply in_or_app; right; left; reflexivity |].
      intros _. split; [| reflexivity].
      apply in_or_app. right. right. left. reflexivity.
    + split; [apply Hlist; [exact Hp | reflexivity | reflexivity] |].
      split; [apply Hlist; [exact Hp | reflexivity | reflexivity] |].
      split.
      { intros g Hin. apply Hid in Hin. cbn in Hin.
        destruct Hin as [? | [[= <-] | [? | []]]]; try discriminate. auto. }
      split; [reflexivity |].
      split; [discriminate | discriminate].
  - injection H' as <- <-.
    split; [apply Hlist; [exact Hp | reflexivity | reflexivity] |].
    split; [apply Hlist; [exact Hp | reflexivity | reflexivity] |].
    split.
    { intros g Hin. apply Hid in Hin. cbn in Hin. intuition discriminate. }
    split; [reflexivity |].
    split; [| discriminate].
    intros _. split; [reflexivity |]. split; [auto |].
    split; [apply in_or_app; right; left; reflexivity |].
    discriminate.
Qed.

(** The runs of [Export] that end: those stopped before the strings,
    the one stopped by the size test, and those that go through the loop. *)
Lemma Export_shape (w : ExportWorld) (rate : float) (numChannels : Z)
    (selectionOnly : bool) (t0 t1 : float) (metadata : option Tags)
    (subformat : Z) (r : ProgressResult) (calls : list ExportCall) :
  export w rate numChannels selectionOnly t0 t1 metadata subformat
    = Some (r, calls) ->
  let sf_format := format_of_index WXMAC Read subformat in
  let meta := Export_metadata w metadata in
  let info :=
    Export_info w
      (Export_info0 to_unsigned_int rate numChannels t0 t1 sf_format) in
  exists (head : list ExportCall) (strs : list sf_set_string_call),
    AddStrings K meta sf_format = Some (true, strs) /\
    strings_set head = [] /\ frames_written head = [] /\
    ~ In call_close head /\ (forall f, ~ In (call_AddID3Chunk f) head) /\
    ((r = Cancelled /\ calls = head /\
      (sf_format_check w info = 0 \/ Open w = false
       \/ sf_open_fd w info = None))
     \/
     (sf_format_check w info <> 0 /\ Open w = true /\
      exists info' : SF_INFO,
        sf_open_fd w info = Some info' /\
        let pre :=
          if is_wav_or_wavex sf_format then []
          else map (fun c => call_sf_set_string (fst c) (snd c)) strs in
        let format :=
          if sf_subtype_more_than_16_bits w (format info')
          then floatSample else int16Sample in
        ((r = Failed /\
          too_big to_float rate t0 t1 (channels info') format = true /\
          calls = head ++ pre ++ [call_ReportTooBigError])
         \/
         (too_big to_float rate t0 t1 (channels info') format = false /\
          exists (u : ProgressResult) (more tail : list ExportCall),
            export_loop format (44100 * 5) (turns w) = Some (u, more) /\
            export_end K w meta sf_format u = Some (r, tail) /\
            calls = head ++ pre
                    ++ [ call_CreateMixer t0 t1 (channels info') (44100 * 5)
                           rate format;
                         call_InitProgress selectionOnly ]
                    ++ more ++ tail)))).
Proof.
  intros H sf_format meta info. unfold Export in H.
  fold sf_format in H. fold info in H. fold meta in H.
  destruct (AddStrings_calls_true meta sf_format) as (strs & Hs & Hc).
  rewrite Hc in H. clear Hc.
  set (ss := map (fun c => call_sf_set_string (fst c) (snd c)) strs) in *.
  destruct (Z.eqb_spec (sf_format_check w info) 0) as [E1 | E1].
  { exists calls, strs. injection H as <- <-. split; [exact Hs |].
    split; [reflexivity |]. split; [reflexivity |].
    split; [cbn; intuition discriminate |].
    split; [intros f; cbn; intuition discriminate |].
    left. auto. }
  destruct (Open w) eqn:E2.
  2:{ exists calls, strs. injection H as <- <-. split; [exact Hs |].
      split; [reflexivity |]. split; [reflexivity |].
      split; [cbn; intuition discriminate |].
      split; [intros f; cbn; intuition discriminate |].
      left. auto. }
  destruct (sf_open_fd w info) as [info' |] eqn:E3.
  2:{ exists calls, strs. injection H as <- <-. split; [exact Hs |].
      split; [reflexivity |]. split; [reflexivity |].
      split; [cbn; intuition discriminate |].
      split; [intros f; cbn; intuition discriminate |].
      left. auto. }
  set (head := ([ call_sf_header_name (Z.land sf_format SF_FORMAT_TYPEMASK);
                  call_sf_format_check
                    (Export_info0 to_unsigned_int rate numChannels t0 t1
                       sf_format);
                  call_sf_format_check info ]
                ++ [ call_Open; call_sf_open_fd info;
                     call_sf_command_SET_CLIPPING
                       (sf_subtype_is_integer w sf_format) ])
               ++ match metadata with
                  | None => [call_GetTags]
                  | Some _ => []
                  end) in *.
  exists head, strs. split; [exact Hs |].
  split; [subst head; destruct metadata; reflexivity |].
  split; [subst head; destruct metadata; reflexivity |].
  split; [subst head; destruct metadata; cbn; intuition discriminate |].
  split; [intros f; subst head; destruct metadata; cbn; intuition discriminate |].
  right. split; [exact E1 |]. split; [reflexivity |].
  exists info'. split; [reflexivity |]. cbv zeta.
  set (pre := if is_wav_or_wavex sf_format then [] else ss).
  assert (H' :
    (let calls0 := head ++ pre in
     let format :=
       if sf_subtype_more_than_16_bits w (format info')
       then floatSample else int16Sample in
     if too_big to_float rate t0 t1 (channels info') format then
       Some (Failed, calls0 ++ [call_ReportTooBigError])
     else
       match export_loop format (44100 * 5) (turns w) with
       | None => None
       | Some (updateResult, more) =>
           then_calls
             ((calls0 ++ [ call_CreateMixer t0 t1 (channels info') (44100 * 5)
                             rate format;
                           call_InitProgress selectionOnly ]) ++ more)
             (export_end K w meta sf_format updateResult)
       end) = Some (r, calls)).
  { subst pre. destruct (is_wav_or_wavex sf_format); cbn [negb] in H; exact H. }
  clear H. cbv zeta in H'.
  set (format := if sf_subtype_more_than_16_bits w (format info')
                 then floatSample else int16Sample) in *.
  destruct (too_big to_float rate t0 t1 (channels info') format).
  { injection H' as <- <-. left. split; [reflexivity |]. split; [reflexivity |].
    rewrite <- app_assoc. reflexivity. }
  right. split; [reflexivity |].
  destruct (export_loop format (44100 * 5) (turns w)) as [[u more] |];
    [| discriminate].
  destruct (export_end K w meta sf_format u) as [[r' tail] |] eqn:Ee;
    [| discriminate].
  cbn [then_calls] in H'. injection H' as <- <-.
  exists u, more, tail. split; [reflexivity |]. split; [exact Ee |].
  rewrite <- !app_assoc. reflexivity.
Qed.

(** X21.  [Export] comes to an end when the mixer, the file or the
    progress dialog ends the loop: when some turn gives no frames, or
    has fewer frames written than mixed, or is answered other than with
    [Success]. *)
Theorem X21_Export_returns (w : ExportWorld) (rate : float) (numChannels : Z)
    (selectionOnly : bool) (t0 t1 : float) (metadata : option Tags)
    (subformat : Z) :
  forallb goes_on (turns w) = false ->
  exists (r : ProgressResult) (calls : list ExportCall),
    export w rate numChannels selectionOnly t0 t1 metadata subformat
      = Some (r, calls).
Proof.
  intros Hends. unfold Export.
  destruct (_ =? 0); [eauto |].
  destruct (Open w); [| eauto].
  destruct (sf_open_fd w _) as [info' |]; [| eauto].
  destruct (AddStrings_calls_true (Export_metadata w metadata)
              (format_of_index WXMAC Read subformat)) as (strs & _ & ->).
  assert (Hgo : forall pre : list ExportCall,
             exists r calls,
               (let calls0 := pre in
                let format :=
                  if sf_subtype_more_than_16_bits w (format info')
                  then floatSample else int16Sample in
                if too_big to_float rate t0 t1 (channels info') format then
                  Some (Failed, calls0 ++ [call_ReportTooBigError])
                else
                  match export_loop format (44100 * 5) (turns w) with
                  | None => None
                  | Some (updateResult, more) =>
                      then_calls
                        ((calls0 ++
                          [ call_CreateMixer t0 t1 (channels info')
                              (44100 * 5) rate format;
                            call_InitProgress selectionOnly ]) ++ more)
                        (export_end K w (Export_metadata w metadata)
                           (format_of_index WXMAC Read subformat)
                           updateResult)
                  end) = Some (r, calls)).
  { intros pre. cbv zeta.
    destruct (too_big _ _ _ _ _ _); [eauto |].
    destruct (export_loop_returns
                (if sf_subtype_more_than_16_bits w (format info')
                 then floatSample else int16Sample) (44100 * 5) (turns w) Hends)
      as (u & more & ->).
    destruct (export_end_returns w (Export_metadata w metadata)
                (format_of_index WXMAC Read subformat) u) as (r & tail & ->).
    cbn [then_calls]. eauto. }
  destruct (negb (is_wav_or_wavex (format_of_index WXMAC Read subformat)));
    apply Hgo.
Qed.

(** X22.  A run of [Export] that returns [Success] or [Stopped] has set
    the strings of the tags once: the strings set in the run are those
    of one [AddStrings], on the tags given, or on those of the project
    when none are given. *)
Theorem X22_Export_strings_once (w : ExportWorld) (rate : float)
    (numChannels : Z) (selectionOnly : bool) (t0 t1 : float)
    (metadata : option Tags) (subformat : Z) (r : ProgressResult)
    (calls : list ExportCall) :
  export w rate numChannels selectionOnly t0 t1 metadata subformat
    = Some (r, calls) ->
  is_live r = true ->
  AddStrings K (Export_metadata w metadata)
    (format_of_index WXMAC Read subformat)
  = Some (true, strings_set calls).
Proof.
  intros H Hlive.
  destruct (Export_shape _ _ _ _ _ _ _ _ _ _ H)
    as (head & strs & Hs & Hh1 & Hh2 & _ & _ & Hcases).
  rewrite Hs. f_equal. f_equal.
  destruct Hcases as [(-> & _) | (_ & _ & info' & _ & Hrun)];
    [discriminate |].
  cbv zeta in Hrun.
  destruct Hrun as [(-> & _) | (_ & u & more & tail & Hloop & Hend & ->)];
    [discriminate |].
  destruct (export_loop_spec _ _ _ _ _ Hloop) as (n & t & _ & _ & _ & Hm & _).
  destruct (export_end_spec _ _ _ _ _ _ _ Hs Hend)
    as (_ & Ht & _ & _ & Hl & _).
  destruct (Hl Hlive) as (-> & _). rewrite Hlive in Ht. cbn [andb] in Ht.
  rewrite !strings_set_app, Hh1, Hm, Ht.
  destruct (is_wav_or_wavex (format_of_index WXMAC Read subformat));
    cbn [app]; rewrite ?strings_set_strings, ?app_nil_r; reflexivity.
Qed.

(** X23.  In a run of [Export] the strings and the frames do not mix:
    for a WAV or WAVEX file every frame is written before any string is
    set, for any other type every string is set before any frame is
    written. *)
Theorem X23_Export_strings_place (w : ExportWorld) (rate : float)
    (numChannels : Z) (selectionOnly : bool) (t0 t1 : float)
    (metadata : option Tags) (subformat : Z) (r : ProgressResult)
    (calls : list ExportCall) :
  export w rate numChannels selectionOnly t0 t1 metadata subformat
    = Some (r, calls) ->
  exists before after : list ExportCall,
    calls = before ++ after /\
    if is_wav_or_wavex (format_of_index WXMAC Read subformat)
    then strings_set before = [] /\ frames_written after = []
    else frames_written before = [] /\ strings_set after = [].
Proof.
  intros H.
  destruct (Export_shape _ _ _ _ _ _ _ _ _ _ H)
    as (head & strs & Hs & Hh1 & Hh2 & _ & _ & Hcases).
  destruct Hcases as [(_ & -> & _) | (_ & _ & info' & _ & Hrun)].
  { exists head, []. split; [symmetry; apply app_nil_r |].
    destruct (is_wav_or_wavex _); split; assumption || reflexivity. }
  cbv zeta in Hrun.
  destruct Hrun as [(_ & _ & ->) | (_ & u & more & tail & Hloop & Hend & ->)].
  { exists (head ++ (if is_wav_or_wavex (format_of_index WXMAC Read subformat)
                     then []
                     else map (fun c => call_sf_set_string (fst c) (snd c)) strs)),
      [call_ReportTooBigError].
    split; [rewrite <- app_assoc; reflexivity |].
    destruct (is_wav_or_wavex _).
    - rewrite app_nil_r. split; [exact Hh1 | reflexivity].
    - rewrite frames_written_app, Hh2, frames_written_strings.
      split; reflexivity. }
  destruct (export_loop_spec _ _ _ _ _ Hloop) as (n & t & _ & _ & _ & Hm & _).
  destruct (export_end_spec _ _ _ _ _ _ _ Hs Hend) as (Hf & Ht & _).
  destruct (is_wav_or_wavex (format_of_index WXMAC Read subformat)) eqn:Ew.
  - exists (head ++ [] ++
            [ call_CreateMixer t0 t1 (channels info') (44100 * 5) rate
                (if sf_subtype_more_than_16_bits w (format info')
                 then floatSample else int16Sample);
              call_InitProgress selectionOnly ] ++ more), tail.
    split; [rewrite <- !app_assoc; reflexivity |].
    split; [| exact Hf].
    rewrite !strings_set_app, Hh1, Hm. reflexivity.
  - exists (head ++ map (fun c => call_sf_set_string (fst c) (snd c)) strs),
      ([ call_CreateMixer t0 t1 (channels info') (44100 * 5) rate
           (if sf_subtype_more_than_16_bits w (format info')
            then floatSample else int16Sample);
         call_InitProgress selectionOnly ] ++ more ++ tail).
    split; [rewrite <- !app_assoc; reflexivity |].
    split.
    + rewrite frames_written_app, Hh2, frames_written_strings. reflexivity.
    + rewrite !strings_set_app, Hm, Ht, andb_false_r. reflexivity.
Qed.

(** X24.  A run of [Export] that returns [Success] has written every
    block of the mixer, whole and in order: the mixer has come to a turn
    with no frames, every turn before it gave frames that the file took
    in full, and the frame counts written are those of these turns. *)
Theorem X24_Export_writes_all (w : ExportWorld) (rate : float)
    (numChannels : Z) (selectionOnly : bool) (t0 t1 : float)
    (metadata : option Tags) (subformat : Z) (calls : list ExportCall) :
  export w rate numChannels selectionOnly t0 t1 metadata subformat
    = Some (Success, calls) ->
  exists (n : nat) (t : turn),
    turns w !! n = Some t /\ numSamples t = 0 /\
    forallb goes_on (take n (turns w)) = true /\
    frames_written calls = map numSamples (take n (turns w)).
Proof.
  intros H.
  destruct (Export_shape _ _ _ _ _ _ _ _ _ _ H)
    as (head & strs & Hs & Hh1 & Hh2 & _ & _ & Hcases).
  destruct Hcases as [(? & _) | (_ & _ & info' & _ & Hrun)]; [discriminate |].
  cbv zeta in Hrun.
  destruct Hrun as [(? & _) | (_ & u & more & tail & Hloop & Hend & ->)];
    [discriminate |].
  destruct (export_loop_spec _ _ _ _ _ Hloop)
    as (n & t & Hn & Hg & Hall & _ & _ & _ & Hm & Hr & _).
  destruct (export_end_spec _ _ _ _ _ _ _ Hs Hend) as (Hf & _ & _ & _ & Hl & _).
  destruct (Hl eq_refl) as (<- & _).
  exists n, t. split; [exact Hn |].
  assert (E0 : (numSamples t =? 0) = true).
  { destruct (numSamples t =? 0) eqn:E0'; [reflexivity |]. exfalso.
    unfold goes_on in Hg. rewrite E0' in Hg.
    destruct (SizeT.wrap (samplesWritten t) =? numSamples t); [| discriminate].
    rewrite <- Hr in Hg. discriminate. }
  split; [apply Z.eqb_eq, E0 |]. split; [exact Hall |].
  rewrite E0, app_nil_r in Hm.
  rewrite !frames_written_app, Hh2, Hm, Hf, app_nil_r.
  destruct (is_wav_or_wavex _); cbn [app];
    rewrite ?frames_written_strings; reflexivity.
Qed.

(** X25.  When libsndfile takes neither the format nor its header type,
    or the file does not open, [Export] returns [Cancelled] and has set
    no string, written no frame, closed nothing and added no ID3
    chunk. *)
Theorem X25_Export_refused (w : ExportWorld) (rate : float) (numChannels : Z)
    (selectionOnly : bool) (t0 t1 : float) (metadata : option Tags)
    (subformat : Z) :
  let info :=
    Export_info w
      (Export_info0 to_unsigned_int rate numChannels t0 t1
         (format_of_index WXMAC Read subformat)) in
  sf_format_check w info = 0 \/ Open w = false \/ sf_open_fd w info = None ->
  exists calls : list ExportCall,
    export w rate numChannels selectionOnly t0 t1 metadata subformat
      = Some (Cancelled, calls) /\
    strings_set calls = [] /\ frames_written calls = [] /\
    ~ In call_close calls /\ forall f, ~ In (call_AddID3Chunk f) calls.
Proof.
  intros info Hno. unfold Export. fold info.
  destruct (Z.eqb_spec (sf_format_check w info) 0) as [E1 | E1].
  { eexists. split; [reflexivity |].
    split; [reflexivity |]. split; [reflexivity |].
    split; [cbn; intuition discriminate | intros f; cbn; intuition discriminate]. }
  destruct (Open w) eqn:E2.
  2:{ eexists. split; [reflexivity |].
      split; [reflexivity |]. split; [reflexivity |].
      split; [cbn; intuition discriminate | intros f; cbn; intuition discriminate]. }
  destruct (sf_open_fd w info) eqn:E3.
  { exfalso. destruct Hno as [? | [? | ?]]; [contradiction | |]; discriminate. }
  eexists. split; [reflexivity |].
  split; [reflexivity |]. split; [reflexivity |].
  split; [cbn; intuition discriminate | intros f; cbn; intuition discriminate].
Qed.

(** Where the chunk call stands in the end of [Export]: right after the
    close, with only strings before the close and at most a message
    after the chunk. *)
Lemma export_end_chunk (w : ExportWorld) (metadata : Tags) (sf_format : Z)
    (u r : ProgressResult) (tail : list ExportCall) (g : Z) :
  export_end K w metadata sf_format u = Some (r, tail) ->
  In (call_AddID3Chunk g) tail ->
  g = sf_format /\
  exists pre post : list ExportCall,
    tail = pre ++ call_close :: call_AddID3Chunk sf_format :: post /\
    (forall c, In c pre -> exists id str, c = call_sf_set_string id str) /\
    (post = [] \/ post = [call_AudacityMessageBox Unable_to_export]).
Proof.
  unfold export_end.
  destruct (is_live u); [| intros [= <- <-] []].
  destruct (AddStrings_calls_true metadata sf_format) as (strs & _ & ->).
  set (ss := map (fun c => call_sf_set_string (fst c) (snd c)) strs).
  set (pre := if is_wav_or_wavex sf_format then ss else []).
  assert (Hpre : forall c, In c pre -> exists id str, c = call_sf_set_string id str).
  { intros c Hin. subst pre. destruct (is_wav_or_wavex sf_format);
      [| destruct Hin].
    apply in_map_iff in Hin as ([id str] & <- & _). eauto. }
  intros H.
  assert (H' : (if negb (0 =? close w) then
                  Some (Cancelled,
                        pre ++ [call_close;
                                call_AudacityMessageBox Unable_to_export])
                else if is_aiff_or_wav sf_format then
                  if negb (AddID3Chunk_ok w) then
                    Some (Cancelled,
                          pre ++ [call_close; call_AddID3Chunk sf_format;
                                  call_AudacityMessageBox Unable_to_export])
                  else
                    Some (u, pre ++ [call_close; call_AddID3Chunk sf_format])
                else Some (u, pre ++ [call_close])) = Some (r, tail)).
  { subst pre. destruct (is_wav_or_wavex sf_format); exact H. }
  clear H. intros Hin.
  assert (Hin' : forall post,
             tail = pre ++ post -> In (call_AddID3Chunk g) post).
  { intros post ->. apply in_app_or in Hin as [Hin | Hin]; [| exact Hin].
    apply Hpre in Hin as (id & str & Hin). discriminate. }
  destruct (negb (0 =? close w)).
  { injection H' as <- <-. specialize (Hin' _ eq_refl). cbn in Hin'.
    exfalso. intuition discriminate. }
  destruct (is_aiff_or_wav sf_format).
  - destruct (negb (AddID3Chunk_ok w)); injection H' as <- <-;
      specialize (Hin' _ eq_refl); cbn in Hin'.
    + destruct Hin' as [? | [[= <-] | [? | []]]]; try discriminate.
      split; [reflexivity |]. exists pre, [call_AudacityMessageBox Unable_to_export].
      split; [reflexivity |]. split; [exact Hpre | right; reflexivity].
    + destruct Hin' as [? | [[= <-] | []]]; try discriminate.
      split; [reflexivity |]. exists pre, [].
      split; [reflexivity |]. split; [exact Hpre | left; reflexivity].
  - injection H' as <- <-. specialize (Hin' _ eq_refl). cbn in Hin'.
    exfalso. intuition discriminate.
Qed.

(** X26.  [Export] adds the ID3 chunk only to an AIFF or WAV file (not
    to WAVEX), with the format of the export, and only after the file
    has closed well: the chunk call comes right after the one
    [sf.close()] of the run, every frame and every string comes before
    that close, and nothing is written, set or closed after the chunk.
    And a run that returns [Success] or [Stopped] has closed the file,
    and for AIFF and WAV has added the chunk. *)
Theorem X26_Export_ID3_chunk (w : ExportWorld) (rate : float) (numChannels : Z)
    (selectionOnly : bool) (t0 t1 : float) (metadata : option Tags)
    (subformat : Z) (r : ProgressResult) (calls : list ExportCall) :
  export w rate numChannels selectionOnly t0 t1 metadata subformat
    = Some (r, calls) ->
  let sf_format := format_of_index WXMAC Read subformat in
  (forall g, In (call_AddID3Chunk g) calls ->
     g = sf_format /\ is_aiff_or_wav sf_format = true /\ close w = 0 /\
     In call_close calls /\
     exists before after : list ExportCall,
       calls = before ++ call_close :: call_AddID3Chunk sf_format :: after /\
       ~ In call_close before /\
       (forall f, ~ In (call_AddID3Chunk f) before) /\
       frames_written after = [] /\ strings_set after = [] /\
       ~ In call_close after /\
       (forall f, ~ In (call_AddID3Chunk f) after)) /\
  (is_live r = true ->
     close w = 0 /\ In call_close calls /\
     (is_aiff_or_wav sf_format = true ->
      In (call_AddID3Chunk sf_format) calls /\ AddID3Chunk_ok w = true)).
Proof.
  intros H sf_format.
  destruct (Export_shape _ _ _ _ _ _ _ _ _ _ H)
    as (head & strs & Hs & _ & _ & Hhc & Hhi & Hcases).
  fold sf_format in Hs, Hcases.
  set (pre0 := if is_wav_or_wavex sf_format then []
               else map (fun c => call_sf_set_string (fst c) (snd c)) strs)
    in *.
  assert (Hpre : forall c, In c pre0 ->
             exists id str, c = call_sf_set_string id str).
  { intros c Hin. subst pre0. destruct (is_wav_or_wavex sf_format);
      [destruct Hin |].
    apply in_map_iff in Hin as ([id str] & <- & _). eauto. }
  destruct Hcases as [(-> & -> & _) | (_ & _ & info' & _ & Hrun)].
  { split; [intros g Hin; destruct (Hhi g Hin) | discriminate]. }
  cbv zeta in Hrun.
  destruct Hrun as [(-> & _ & ->) | (_ & u & more & tail & Hloop & Hend & ->)].
  { split; [| discriminate]. intros g Hin.
    apply in_app_or in Hin as [Hin | Hin]; [destruct (Hhi g Hin) |].
    apply in_app_or in Hin as [Hin | [? | []]]; [| discriminate].
    apply Hpre in Hin as (? & ? & ?). discriminate. }
  destruct (export_loop_spec _ _ _ _ _ Hloop)
    as (n & t & _ & _ & _ & _ & Hmc & Hmi & _).
  destruct (export_end_spec _ _ _ _ _ _ _ Hs Hend)
    as (_ & _ & Hti & Htc & Hl & _).
  set (mixer := [ call_CreateMixer t0 t1 (channels info') (44100 * 5) rate
                    (if sf_subtype_more_than_16_bits w (format info')
                     then floatSample else int16Sample);
                  call_InitProgress selectionOnly ]) in *.
  assert (Htail : forall c, In c tail ->
             In c (head ++ pre0 ++ mixer ++ more ++ tail)).
  { intros c Hin. apply in_or_app. right. apply in_or_app. right.
    apply in_or_app. right. apply in_or_app. right. exact Hin. }
  assert (Hfront : forall c, In c (head ++ pre0 ++ mixer ++ more) ->
             c <> call_close /\ forall f, c <> call_AddID3Chunk f).
  { intros c Hin.
    apply in_app_or in Hin as [Hin | Hin].
    { split; [intros -> | intros f ->]; [exact (Hhc Hin) | exact (Hhi f Hin)]. }
    apply in_app_or in Hin as [Hin | Hin].
    { apply Hpre in Hin as (id & str & ->). split; [| intros f]; discriminate. }
    apply in_app_or in Hin as [Hin | Hin].
    { subst mixer. destruct Hin as [<- | [<- | []]];
        (split; [| intros f]; discriminate). }
    split; [intros -> | intros f ->]; [exact (Hmc Hin) | exact (Hmi f Hin)]. }
  split.
  - intros g Hin.
    assert (Hin' : In (call_AddID3Chunk g) tail).
    { replace (head ++ pre0 ++ mixer ++ more ++ tail)
        with ((head ++ pre0 ++ mixer ++ more) ++ tail) in Hin
        by (rewrite <- !app_assoc; reflexivity).
      apply in_app_or in Hin as [Hin | Hin]; [| exact Hin].
      destruct (Hfront _ Hin) as [_ Hf]. destruct (Hf g eq_refl). }
    destruct (Hti g Hin') as (Hg & Ha & Hc & Hu).
    split; [exact Hg |]. split; [exact Ha |]. split; [exact Hc |].
    split; [apply Htail; eapply export_end_closes; eassumption |].
    destruct (export_end_chunk _ _ _ _ _ _ _ Hend Hin')
      as (_ & pre & post & -> & Hp & Hpost).
    exists ((head ++ pre0 ++ mixer ++ more) ++ pre), post.
    split; [rewrite <- !app_assoc; reflexivity |].
    assert (Hb : forall c, In c ((head ++ pre0 ++ mixer ++ more) ++ pre) ->
               c <> call_close /\ forall f, c <> call_AddID3Chunk f).
    { intros c Hc0. apply in_app_or in Hc0 as [Hc0 | Hc0];
        [exact (Hfront c Hc0) |].
      apply Hp in Hc0 as (id & str & ->). split; [| intros f]; discriminate. }
    split; [intros Hc0; destruct (Hb _ Hc0) as [Hne _]; exact (Hne eq_refl) |].
    split; [intros f Hc0; destruct (Hb _ Hc0) as [_ Hne]; exact (Hne f eq_refl) |].
    destruct Hpost as [-> | ->];
      (split; [reflexivity |]; split; [reflexivity |];
       split; [cbn; intuition discriminate
              | intros f; cbn; intuition discriminate]).
  - intros Hlive. destruct (Hl Hlive) as (_ & Hc & Hcl & Hid).
    split; [exact Hc |]. split; [apply Htail, Hcl |].
    intros Ha. destruct (Hid Ha) as [Hin Hok]. split; [apply Htail, Hin | exact Hok].
Qed.

(** X27.  [Export] writes the frames as the subtype that libsndfile has
    opened the file with says: with [sf_writef_float] when it has more
    than 16 bits, with [sf_writef_short] when not. *)
Theorem X27_Export_sample_format (w : ExportWorld) (rate : float)
    (numChannels : Z) (selectionOnly : bool) (t0 t1 : float)
    (metadata : option Tags) (subformat : Z) (r : ProgressResult)
    (calls : list ExportCall) (info' : SF_INFO) :
  export w rate numChannels selectionOnly t0 t1 metadata subformat
    = Some (r, calls) ->
  sf_open_fd w
    (Export_info w
       (Export_info0 to_unsigned_int rate numChannels t0 t1
          (format_of_index WXMAC Read subformat))) = Some info' ->
  Forall (fun c =>
            written_as (if sf_subtype_more_than_16_bits w (format info')
                        then floatSample else int16Sample) c = true) calls.
Proof.
  intros H Hopen.
  destruct (Export_shape _ _ _ _ _ _ _ _ _ _ H)
    as (head & strs & Hs & _ & Hh2 & _ & _ & Hcases).
  set (fmt := if sf_subtype_more_than_16_bits w (format info')
              then floatSample else int16Sample).
  assert (Hnone : forall l, frames_written l = [] ->
                    Forall (fun c => written_as fmt c = true) l).
  { induction l as [| c l IH]; intros Hl; [constructor |].
    destruct c; try discriminate;
      (constructor; [reflexivity | apply IH; exact Hl]). }
  destruct Hcases as [(_ & -> & _) | (_ & _ & info2 & Hopen2 & Hrun)];
    [apply Hnone, Hh2 |].
  rewrite Hopen in Hopen2. injection Hopen2 as <-.
  cbv zeta in Hrun. fold fmt in Hrun.
  assert (Hpre : Forall (fun c => written_as fmt c = true)
                   (if is_wav_or_wavex (format_of_index WXMAC Read subformat)
                    then []
                    else map (fun c => call_sf_set_string (fst c) (snd c)) strs)).
  { apply Hnone. destruct (is_wav_or_wavex _); [reflexivity |].
    apply frames_written_strings. }
  destruct Hrun as [(_ & _ & ->) | (_ & u & more & tail & Hloop & Hend & ->)].
  { apply Forall_app. split; [apply Hnone, Hh2 |].
    apply Forall_app. split; [exact Hpre | repeat constructor]. }
  destruct (export_loop_spec _ _ _ _ _ Hloop)
    as (n & t & _ & _ & _ & _ & _ & _ & _ & _ & Hk).
  destruct (export_end_spec _ _ _ _ _ _ _ Hs Hend) as (Hf & _).
  apply Forall_app. split; [apply Hnone, Hh2 |].
  apply Forall_app. split; [exact Hpre |].
  apply Forall_app. split; [repeat constructor |].
  apply Forall_app. split; [exact Hk | apply Hnone, Hf].
Qed.

End ExportFacts.

Lemma Studio_run :
  exists calls : list ExportCall,
    Studio.Export Studio.world 44100%float 2 false 0%float 10%float None 0
    = Some (Success, calls).
Proof. eexists. vm_compute. reflexivity. Qed.

Lemma X21_Export_returns_witness :
  exists (r : ProgressResult) (calls : list ExportCall),
    Studio.Export Studio.world 44100%float 2 false 0%float 10%float None 0
    = Some (r, calls).
Proof.
  exact (X21_Export_returns (L := C_locale) (C := latin1_conv)
           double_to_unsigned_int double_to_float false Studio.Read
           standard_keys Studio.world 44100%float 2 false 0%float 10%float
           None 0 eq_refl).
Defined.

Lemma X22_Export_strings_once_witness :
  exists calls : list ExportCall,
    Studio.Export Studio.world 44100%float 2 false 0%float 10%float None 0
    = Some (Success, calls) /\
    AddStrings (L := C_locale) (C := latin1_conv) standard_keys example_tags
      (Z.lor SF_FORMAT_WAV SF_FORMAT_PCM_16)
    = Some (true, strings_set calls).
Proof.
  destruct Studio_run as [calls H]. exists calls. split; [exact H |].
  exact (X22_Export_strings_once (L := C_locale) (C := latin1_conv)
           double_to_unsigned_int double_to_float false Studio.Read
           standard_keys Studio.world 44100%float 2 false 0%float 10%float
           None 0 Success calls H eq_refl).
Defined.

Lemma X23_Export_strings_place_witness :
  exists calls : list ExportCall,
    Studio.Export Studio.world 44100%float 2 false 0%float 10%float None 0
    = Some (Success, calls) /\
    exists before after : list ExportCall,
    calls = before ++ after /\
    strings_set before = [] /\ frames_written after = [].
Proof.
  destruct Studio_run as [calls H]. exists calls. split; [exact H |].
  exact (X23_Export_strings_place (L := C_locale) (C := latin1_conv)
           double_to_unsigned_int double_to_float false Studio.Read
           standard_keys Studio.world 44100%float 2 false 0%float 10%float
           None 0 Success calls H).
Defined.

Lemma X24_Export_writes_all_witness :
  exists calls : list ExportCall,
    Studio.Export Studio.world 44100%float 2 false 0%float 10%float None 0
    = Some (Success, calls) /\
    exists (n : nat) (t : turn),
    turns Studio.world !! n = Some t /\ numSamples t = 0 /\
    forallb goes_on (take n (turns Studio.world)) = true /\
    frames_written calls = map numSamples (take n (turns Studio.world)).
Proof.
  destruct Studio_run as [calls H]. exists calls. split; [exact H |].
  exact (X24_Export_writes_all (L := C_locale) (C := latin1_conv)
           double_to_unsigned_int double_to_float false Studio.Read
           standard_keys Studio.world 44100%float 2 false 0%float 10%float
           None 0 calls H).
Defined.

Lemma X25_Export_refused_witness :
  exists calls : list ExportCall,
    Studio.Export Studio.world 44100%float 3 false 0%float 10%float None 0
    = Some (Cancelled, calls) /\
    strings_set calls = [] /\ frames_written calls = [] /\
    ~ In call_close calls /\ forall f, ~ In (call_AddID3Chunk f) calls.
Proof.
  exact (X25_Export_refused (L := C_locale) (C := latin1_conv)
           double_to_unsigned_int double_to_float false Studio.Read
           standard_keys Studio.world 44100%float 3 false 0%float 10%float
           None 0 (or_introl eq_refl)).
Defined.

Lemma X26_Export_ID3_chunk_witness :
  exists calls : list ExportCall,
    Studio.Export Studio.world 44100%float 2 false 0%float 10%float None 0
    = Some (Success, calls) /\
    exists before after : list ExportCall,
      calls = before ++ call_close
                :: call_AddID3Chunk (Z.lor SF_FORMAT_WAV SF_FORMAT_PCM_16)
                :: after /\
      ~ In call_close before /\ frames_written after = [].
Proof.
  destruct Studio_run as [calls H]. exists calls. split; [exact H |].
  destruct (X26_Export_ID3_chunk (L := C_locale) (C := latin1_conv)
              double_to_unsigned_int double_to_float false Studio.Read
              standard_keys Studio.world 44100%float 2 false 0%float 10%float
              None 0 Success calls H) as [Hchunk Hlive].
  destruct (Hlive eq_refl) as (_ & _ & Hid).
  destruct (Hid eq_refl) as [Hin _].
  destruct (Hchunk _ Hin)
    as (_ & _ & _ & _ & before & after & Hc & Hnb & _ & Hfa & _).
  exists before, after. split; [exact Hc |]. split; [exact Hnb | exact Hfa].
Defined.

Lemma X27_Export_sample_format_witness :
  exists calls : list ExportCall,
    Studio.Export Studio.world 44100%float 2 false 0%float 10%float None 0
    = Some (Success, calls) /\
    Forall (fun c => written_as int16Sample c = true) calls.
Proof.
  destruct Studio_run as [calls H]. exists calls. split; [exact H |].
  exact (X27_Export_sample_format (L := C_locale) (C := latin1_conv)
           double_to_unsigned_int double_to_float false Studio.Read
           standard_keys Studio.world 44100%float 2 false 0%float 10%float
           None 0 Success calls _ H eq_refl).
Defined.

(** ** ExportPCM.cpp: the ID3 chunk *)

Lemma CmpNoCase_lower {L : wxLocale} (a b : wxString) :
  CmpNoCase a b = 0 -> map towlower a = map towlower b.
Proof.
  revert b. induction a as [| x a IH]; intros [| y b]; cbn;
    try discriminate; [reflexivity |].
  destruct (N.eqb_spec (towlower x) (towlower y)) as [E | E].
  - intros H. rewrite E, (IH _ H). reflexivity.
  - destruct (towlower x <? towlower y)%N; discriminate.
Qed.

Lemma frame_name_key {L : wxLocale} (K : TagKeys) (n : wxString) :
  frame_name K n <> "TXXX"%string ->
  exists key : wxString,
    frame_key K (frame_name K n) = Some key /\ CmpNoCase n key = 0.
Proof.
  unfold frame_name.
  repeat match goal with
         | |- context [CmpNoCase n ?k =? 0] =>
             destruct (Z.eqb_spec (CmpNoCase n k) 0);
               [intros _; eexists; split; [reflexivity | assumption] |]
         end.
  intros H. contradiction.
Qed.

Lemma UpperCase_of_lower {L : wxLocale} (a b : wxString) :
  (forall x y : N,
     (x < 128)%N -> (y < 128)%N -> towlower x = towlower y ->
     towupper x = towupper y) ->
  IsAscii a = true -> IsAscii b = true ->
  map towlower a = map towlower b -> UpperCase a = UpperCase b.
Proof.
  intros Hcase. revert b.
  induction a as [| x a IH]; intros [| y b]; cbn; try discriminate;
    [reflexivity |].
  intros Ha Hb [= Hxy Hab].
  apply andb_true_iff in Ha as [Hx Ha]. apply andb_true_iff in Hb as [Hy Hb].
  apply N.ltb_lt in Hx, Hy.
  unfold UpperCase in IH. rewrite (Hcase x y Hx Hy Hxy), (IH b Ha Hb Hab).
  reflexivity.
Qed.

(** X28.  In the ID3 tag that [AddID3Chunk] makes of tags whose maps
    agree, no frame id other than "TXXX" comes twice: two tags never
    both become the title, the artist, the album, the year, the genre,
    the comment, the track or the composer frame, in a locale where
    ASCII characters with one lower case have one upper case. *)
Theorem X28_ID3_frames_unique {L : wxLocale} (K : TagKeys) (t : Tags)
    (i j : nat) (f1 f2 : id3_frame) :
  (forall x y : N,
     (x < 128)%N -> (y < 128)%N -> towlower x = towlower y ->
     towupper x = towupper y) ->
  Tags_wf t ->
  ID3_frames K t !! i = Some f1 -> ID3_frames K t !! j = Some f2 ->
  frame_id f1 = frame_id f2 -> frame_id f1 <> "TXXX"%string ->
  i = j.
Proof.
  intros Hcase [Hx Hm] H1 H2 Hid Hstd. unfold ID3_frames in H1, H2.
  rewrite list_lookup_fmap in H1, H2.
  destruct (GetRange t !! i) as [[n1 v1] |] eqn:E1; [| discriminate].
  destruct (GetRange t !! j) as [[n2 v2] |] eqn:E2; [| discriminate].
  cbn in H1, H2. injection H1 as <-. injection H2 as <-.
  cbn [frame_of frame_id fst] in Hid, Hstd.
  destruct (frame_name_key K n1 Hstd) as (k1 & Hk1 & Hc1).
  destruct (frame_name_key K n2 ltac:(rewrite <- Hid; exact Hstd))
    as (k2 & Hk2 & Hc2).
  rewrite Hid, Hk2 in Hk1. injection Hk1 as <-.
  apply CmpNoCase_lower in Hc1, Hc2.
  pose proof (list_elem_of_lookup_2 _ _ _ E1) as In1.
  pose proof (list_elem_of_lookup_2 _ _ _ E2) as In2.
  apply elem_of_map_to_list in In1, In2.
  destruct (Hm _ _ In1) as (Hx1 & _ & _ & Ha1).
  destruct (Hm _ _ In2) as (Hx2 & _ & _ & Ha2).
  assert (Hu : UpperCase n1 = UpperCase n2).
  { apply (UpperCase_of_lower n1 n2 Hcase Ha1 Ha2). congruence. }
  rewrite Hu in Hx1. assert (n1 = n2) as -> by congruence.
  pose proof (NoDup_fst_map_to_list (mMap t)) as Hnd.
  eapply NoDup_lookup; [exact Hnd | |].
  - rewrite list_lookup_fmap. unfold GetRange in E1. rewrite E1. reflexivity.
  - rewrite list_lookup_fmap. unfold GetRange in E2. rewrite E2. reflexivity.
Qed.

Lemma C_locale_case (x y : N) :
  (x < 128)%N -> (y < 128)%N ->
  towlower (wxLocale := C_locale) x = towlower (wxLocale := C_locale) y ->
  towupper (wxLocale := C_locale) x = towupper (wxLocale := C_locale) y.
Proof.
  cbn. intros Hx Hy.
  destruct (N.leb_spec 65 x), (N.leb_spec x 90), (N.leb_spec 65 y),
    (N.leb_spec y 90), (N.leb_spec 97 x), (N.leb_spec x 122),
    (N.leb_spec 97 y), (N.leb_spec y 122); cbn; lia.
Qed.

Lemma example_frame :
  ID3_frames (L := C_locale) standard_keys example_tags !! 0%nat
  = Some (mk_id3_frame ID3_FRAME_ARTIST ID3_FIELD_TEXTENCODING_ISO_8859_1
            (strings_text [wxT "Me"])).
Proof. vm_compute. reflexivity. Qed.

Lemma X28_ID3_frames_unique_witness : 0%nat = 0%nat.
Proof.
  exact (X28_ID3_frames_unique (L := C_locale) standard_keys example_tags
           0 0 _ _ C_locale_case example_tags_wf example_frame example_frame
           eq_refl ltac:(discriminate)).
Defined.

Lemma byte_of_Z_mod (x y : Z) :
  x mod 256 = y mod 256 -> byte_of_Z x = byte_of_Z y.
Proof. unfold byte_of_Z. intros ->. reflexivity. Qed.

Lemma le32_swap (x : Z) :
  0 <= x < 2 ^ 32 -> le32 (wxUINT32_SWAP x) = be32 x.
Proof.
  intros Hx. unfold be32, le32, wxUINT32_SWAP. cbn [rev app].
  rewrite (byte_of_Z_mod x (x mod 256)) by (symmetry; apply Z.mod_mod; lia).
  rewrite (byte_of_Z_mod (x / 2 ^ 8) (x / 2 ^ 8 mod 256))
    by (symmetry; apply Z.mod_mod; lia).
  rewrite (byte_of_Z_mod (x / 2 ^ 16) (x / 2 ^ 16 mod 256))
    by (symmetry; apply Z.mod_mod; lia).
  rewrite (byte_of_Z_mod (x / 2 ^ 24) (x / 2 ^ 24 mod 256))
    by (symmetry; apply Z.mod_mod; lia).
  set (a := x mod 256). set (b := x / 2 ^ 8 mod 256).
  set (c := x / 2 ^ 16 mod 256). set (d := x / 2 ^ 24 mod 256).
  assert (Ha : 0 <= a < 256) by (apply Z.mod_pos_bound; lia).
  assert (Hb : 0 <= b < 256) by (apply Z.mod_pos_bound; lia).
  assert (Hc : 0 <= c < 256) by (apply Z.mod_pos_bound; lia).
  assert (Hd : 0 <= d < 256) by (apply Z.mod_pos_bound; lia).
  clearbody a b c d.
  change (2 ^ 8) with 256. change (2 ^ 16) with 65536.
  change (2 ^ 24) with 16777216.
  assert (E0 : (a * 16777216 + b * 65536 + c * 256 + d) mod 256 = d mod 256)
    by (Z.div_mod_to_equations; lia).
  assert (E1 : (a * 16777216 + b * 65536 + c * 256 + d) / 256 mod 256
               = c mod 256) by (Z.div_mod_to_equations; lia).
  assert (E2 : (a * 16777216 + b * 65536 + c * 256 + d) / 65536 mod 256
               = b mod 256) by (Z.div_mod_to_equations; lia).
  assert (E3 : (a * 16777216 + b * 65536 + c * 256 + d) / 16777216 mod 256
               = a mod 256) by (Z.div_mod_to_equations; lia).
  rewrite (byte_of_Z_mod _ _ E0), (byte_of_Z_mod _ _ E1),
    (byte_of_Z_mod _ _ E2), (byte_of_Z_mod _ _ E3).
  reflexivity.
Qed.

Lemma length_le32 (x : Z) : length (le32 x) = 4%nat.
Proof. reflexivity. Qed.

Lemma length_bytes_in_memory (little_endian : bool) (x : Z) :
  length (bytes_in_memory little_endian x) = 4%nat.
Proof. destruct little_endian; reflexivity. Qed.

(** The bytes of the size fields: big-endian for AIFF on every machine,
    in memory order for WAV. *)
Lemma size_field_bytes (little_endian : bool) (x : Z) :
  0 <= x < 2 ^ 32 ->
  bytes_in_memory little_endian (wxUINT32_SWAP_ON_LE little_endian x) = be32 x.
Proof.
  intros Hx. destruct little_endian; cbn; [apply le32_swap, Hx | reflexivity].
Qed.

Lemma Write_full (f : wxFFile.t) (data : list Byte.byte) :
  (wxFFile.pos f + length data <= wxFFile.room f)%nat ->
  wxFFile.Write f data =
  (Z.of_nat (length data),
   wxFFile.mk
     (take (wxFFile.pos f) (wxFFile.bytes f)
      ++ replicate (wxFFile.pos f - length (wxFFile.bytes f)) Byte.x00
      ++ data ++ drop (wxFFile.pos f + length data) (wxFFile.bytes f))
     (wxFFile.pos f + length data) (wxFFile.room f)).
Proof.
  intros H. unfold wxFFile.Write. rewrite take_ge by lia. reflexivity.
Qed.


Lemma Write_at_end (bs : list Byte.byte) (rm : nat) (data : list Byte.byte) :
  (length bs + length data <= rm)%nat ->
  wxFFile.Write (wxFFile.mk bs (length bs) rm) data =
  (Z.of_nat (length data), wxFFile.mk (bs ++ data) (length (bs ++ data)) rm).
Proof.
  intros H. rewrite Write_full by (cbn; lia). cbn [wxFFile.pos wxFFile.bytes
    wxFFile.room].
  rewrite take_ge, Nat.sub_diag, drop_ge, app_nil_r, length_app by lia.
  reflexivity.
Qed.

Section ID3Facts.

Context {L : wxLocale}.

Variable K : TagKeys.
Variable default_options : Z.
Variable ID3_TAG_OPTION_COMPRESSION : Z.
Variable ID3_TAG_OPTION_ID3V2_3 : option Z.
Variable id3_tag_render : list id3_frame -> Z -> list Byte.byte.
Variable little_endian : bool.

Local Abbreviation rendered :=
  (ID3_rendered K default_options ID3_TAG_OPTION_COMPRESSION
     ID3_TAG_OPTION_ID3V2_3 id3_tag_render).
Local Abbreviation chunk_len :=
  (ID3_len K default_options ID3_TAG_OPTION_COMPRESSION
     ID3_TAG_OPTION_ID3V2_3 id3_tag_render).
Local Abbreviation buffer :=
  (ID3_buffer K default_options ID3_TAG_OPTION_COMPRESSION
     ID3_TAG_OPTION_ID3V2_3 id3_tag_render).
Local Abbreviation add_chunk :=
  (AddID3Chunk K default_options ID3_TAG_OPTION_COMPRESSION
     ID3_TAG_OPTION_ID3V2_3 id3_tag_render little_endian).

Lemma ID3_len_bounds (t : Tags) :
  Z.of_nat (length (rendered t)) <= chunk_len t
    <= Z.of_nat (length (rendered t)) + 1 /\
  chunk_len t mod 2 = 0.
Proof.
  unfold ID3_len. cbv zeta.
  destruct (Z.eqb_spec (Z.of_nat (length (rendered t)) mod 2) 0) as [E | E];
    cbn [negb]; [split; [lia | exact E] |].
  split; [lia |].
  pose proof (Z.mod_pos_bound (Z.of_nat (length (rendered t))) 2 ltac:(lia)).
  rewrite Z.add_mod by lia.
  replace (Z.of_nat (length (rendered t)) mod 2) with 1 by lia. reflexivity.
Qed.

Lemma ID3_buffer_length (t : Tags) :
  Z.of_nat (length (buffer t)) = chunk_len t.
Proof.
  pose proof (ID3_len_bounds t) as [Hb _].
  unfold ID3_buffer. rewrite length_app, length_replicate. lia.
Qed.

(** The tag of the chunk and the size after it, as they are written. *)
Lemma chunk_start (f : wxFFile.t) (t : Tags) (sf_format : Z) :
  rendered t <> [] ->
  add_chunk (Some f) t sf_format =
  let len := chunk_len t in
  let sz := uint32 len in
  let f0 := wxFFile.mk (wxFFile.bytes f) (length (wxFFile.bytes f))
              (wxFFile.room f) in
  let wav := Z.land sf_format SF_FORMAT_TYPEMASK =? SF_FORMAT_WAV in
  let w1 :=
    wxFFile.Write f0
      (if wav then [Byte.x69; Byte.x64; Byte.x33; Byte.x20]
       else [Byte.x49; Byte.x44; Byte.x33; Byte.x20]) in
  if negb (4 =? fst w1) then (false, Some (snd w1))
  else
    let w2 :=
      wxFFile.Write (snd w1)
        (bytes_in_memory little_endian
           (if wav then sz else wxUINT32_SWAP_ON_LE little_endian sz)) in
    if negb (4 =? fst w2) then (false, Some (snd w2))
    else
      let w3 := wxFFile.Write (snd w2) (buffer t) in
      if negb (len =? fst w3) then (false, Some (snd w3))
      else
        let sz := uint32 (uint32 (wxFFile.Tell (snd w3)) - 8) in
        let sz :=
          if Z.land sf_format SF_FORMAT_TYPEMASK =? SF_FORMAT_AIFF
          then wxUINT32_SWAP_ON_LE little_endian sz else sz in
        let w4 :=
          wxFFile.Write
            (wxFFile.mk (wxFFile.bytes (snd w3)) 4 (wxFFile.room (snd w3)))
            (bytes_in_memory little_endian sz) in
        if negb (4 =? fst w4) then (false, Some (snd w4))
        else (true, Some (snd w4)).
Proof.
  intros Hne. unfold AddID3Chunk.
  replace (Z.of_nat (length (rendered t)) =? 0) with false.
  2:{ symmetry. apply Z.eqb_neq. destruct (rendered t); [contradiction |].
      cbn [length]. lia. }
  cbv zeta. cbn [wxFFile.SeekEnd negb].
  destruct (Z.land sf_format SF_FORMAT_TYPEMASK =? SF_FORMAT_WAV).
  - destruct (wxFFile.Write _ [Byte.x69; Byte.x64; Byte.x33; Byte.x20])
      as [n1 f1]. cbn [fst snd].
    destruct (negb (4 =? n1)); [reflexivity |].
    destruct (wxFFile.Write f1 _) as [n2 f2]. cbn [fst snd].
    destruct (negb (4 =? n2)); [reflexivity |].
    destruct (wxFFile.Write f2 _) as [n3 f3]. cbn [fst snd].
    destruct (negb (_ =? n3)); [reflexivity |].
    cbn [wxFFile.Seek negb].
    destruct (wxFFile.Write _ _) as [n4 f4]. cbn [fst snd].
    destruct (negb (4 =? n4)); reflexivity.
  - destruct (wxFFile.Write _ [Byte.x49; Byte.x44; Byte.x33; Byte.x20])
      as [n1 f1]. cbn [fst snd].
    destruct (negb (4 =? n1)); [reflexivity |].
    destruct (wxFFile.Write f1 _) as [n2 f2]. cbn [fst snd].
    destruct (negb (4 =? n2)); [reflexivity |].
    destruct (wxFFile.Write f2 _) as [n3 f3]. cbn [fst snd].
    destruct (negb (_ =? n3)); [reflexivity |].
    cbn [wxFFile.Seek negb].
    destruct (wxFFile.Write _ _) as [n4 f4]. cbn [fst snd].
    destruct (negb (4 =? n4)); reflexivity.
Qed.

Lemma chunk_written (f : wxFFile.t) (t : Tags) (sf_format : Z) :
  rendered t <> [] ->
  (length (wxFFile.bytes f) + 8 + Z.to_nat (chunk_len t) <= wxFFile.room f)%nat ->
  let wav := Z.land sf_format SF_FORMAT_TYPEMASK =? SF_FORMAT_WAV in
  let B :=
    ((wxFFile.bytes f
      ++ (if wav then [Byte.x69; Byte.x64; Byte.x33; Byte.x20]
          else [Byte.x49; Byte.x44; Byte.x33; Byte.x20]))
     ++ bytes_in_memory little_endian
          (if wav then uint32 (chunk_len t)
           else wxUINT32_SWAP_ON_LE little_endian (uint32 (chunk_len t))))
    ++ buffer t in
  let sz := uint32 (uint32 (Z.of_nat (length B)) - 8) in
  add_chunk (Some f) t sf_format =
  (true,
   Some (wxFFile.mk
           (take 4 B
            ++ bytes_in_memory little_endian
                 (if Z.land sf_format SF_FORMAT_TYPEMASK =? SF_FORMAT_AIFF
                  then wxUINT32_SWAP_ON_LE little_endian sz else sz)
            ++ drop 8 B)
           8 (wxFFile.room f))).
Proof.
  intros Hne Hroom. cbv zeta. rewrite chunk_start by exact Hne. cbv zeta.
  pose proof (ID3_buffer_length t) as Hbl.
  pose proof (ID3_len_bounds t) as [Hlb _].
  set (tag := if Z.land sf_format SF_FORMAT_TYPEMASK =? SF_FORMAT_WAV
              then [Byte.x69; Byte.x64; Byte.x33; Byte.x20]
              else [Byte.x49; Byte.x44; Byte.x33; Byte.x20]).
  assert (Htag : length tag = 4%nat)
    by (subst tag; destruct (_ =? SF_FORMAT_WAV); reflexivity).
  rewrite Write_at_end by lia. cbn [fst snd]. rewrite Htag.
  change (4 =? Z.of_nat 4) with true. cbn [negb].
  rewrite Write_at_end
    by (rewrite length_app, length_bytes_in_memory; lia).
  cbn [fst snd]. rewrite length_bytes_in_memory.
  change (4 =? Z.of_nat 4) with true. cbn [negb].
  rewrite Write_at_end
    by (rewrite !length_app, length_bytes_in_memory; lia).
  cbn [fst snd]. rewrite Hbl, Z.eqb_refl. cbn [negb].
  cbn [wxFFile.bytes wxFFile.room wxFFile.Tell wxFFile.pos].
  set (B := ((wxFFile.bytes f ++ tag) ++ _) ++ buffer t).
  assert (HB : (8 <= length B)%nat).
  { subst B. rewrite !length_app, length_bytes_in_memory. lia. }
  rewrite Write_full
    by (cbn [wxFFile.pos wxFFile.room]; rewrite length_bytes_in_memory; lia).
  cbn [fst snd wxFFile.pos wxFFile.bytes wxFFile.room].
  rewrite length_bytes_in_memory.
  change (4 =? Z.of_nat 4) with true. cbn [negb].
  replace (4 - length B)%nat with O by lia. cbn [replicate app].
  reflexivity.
Qed.

(** X29.  When [AddID3Chunk] has room for it, it leaves an AIFF or WAV
    file of at least 8 bytes and less than 4 GiB as a well-formed
    container: the old bytes but for bytes 4 to 7, then the chunk: "id3 "
    for WAV and "ID3 " for AIFF, the even length of the zero-padded tag,
    and the tag; and bytes 4 to 7 hold the new file length less 8.
    Both sizes are big-endian for AIFF on every machine, and for WAV in
    the byte order of the machine. *)
Theorem X29_ID3_chunk_layout (f : wxFFile.t) (t : Tags) (sf_format : Z) :
  rendered t <> [] ->
  is_aiff_or_wav sf_format = true ->
  (8 <= length (wxFFile.bytes f))%nat ->
  (length (wxFFile.bytes f) + 8 + Z.to_nat (chunk_len t) <= wxFFile.room f)%nat ->
  Z.of_nat (length (wxFFile.bytes f)) + 8 + chunk_len t < 2 ^ 32 ->
  exists f' : wxFFile.t,
    add_chunk (Some f) t sf_format = (true, Some f') /\
    let wav := Z.land sf_format SF_FORMAT_TYPEMASK =? SF_FORMAT_WAV in
    let size_bytes := if wav then bytes_in_memory little_endian else be32 in
    wxFFile.bytes f' =
      take 4 (wxFFile.bytes f)
      ++ size_bytes (Z.of_nat (length (wxFFile.bytes f')) - 8)
      ++ drop 8 (wxFFile.bytes f)
      ++ (if wav then [Byte.x69; Byte.x64; Byte.x33; Byte.x20]
          else [Byte.x49; Byte.x44; Byte.x33; Byte.x20])
      ++ size_bytes (chunk_len t) ++ buffer t /\
    Z.of_nat (length (wxFFile.bytes f'))
      = Z.of_nat (length (wxFFile.bytes f)) + 8 + chunk_len t.
Proof.
  intros Hne Htype H8 Hroom Hsmall.
  pose proof (ID3_buffer_length t) as Hbl.
  pose proof (ID3_len_bounds t) as [Hlb _].
  eexists. split; [apply chunk_written; assumption |]. cbv zeta.
  cbn [wxFFile.bytes].
  set (tag := if Z.land sf_format SF_FORMAT_TYPEMASK =? SF_FORMAT_WAV
              then [Byte.x69; Byte.x64; Byte.x33; Byte.x20]
              else [Byte.x49; Byte.x44; Byte.x33; Byte.x20]).
  assert (Htag : length tag = 4%nat)
    by (subst tag; destruct (_ =? SF_FORMAT_WAV); reflexivity).
  set (szb := bytes_in_memory little_endian _).
  assert (Hszb : length szb = 4%nat) by apply length_bytes_in_memory.
  set (B := ((wxFFile.bytes f ++ tag) ++ szb) ++ buffer t).
  assert (HB : Z.of_nat (length B)
               = Z.of_nat (length (wxFFile.bytes f)) + 8 + chunk_len t).
  { subst B. rewrite !length_app. lia. }
  assert (H4 : take 4 B = take 4 (wxFFile.bytes f)).
  { subst B. rewrite <- !app_assoc. apply take_app_le. lia. }
  assert (Hd : drop 8 B = drop 8 (wxFFile.bytes f) ++ tag ++ szb ++ buffer t).
  { subst B. rewrite <- !app_assoc. apply drop_app_le. lia. }
  set (final := bytes_in_memory little_endian _).
  assert (Hfinal : length final = 4%nat) by apply length_bytes_in_memory.
  assert (Hlen : Z.of_nat (length (take 4 B ++ final ++ drop 8 B))
                 = Z.of_nat (length B)).
  { rewrite !length_app, length_take, length_drop. lia. }
  split; [| rewrite Hlen; exact HB].
  rewrite Hlen, H4, Hd. f_equal.
  assert (Hsz : uint32 (uint32 (Z.of_nat (length B)) - 8)
                = Z.of_nat (length B) - 8).
  { unfold uint32. rewrite (Z.mod_small (Z.of_nat (length B))) by lia.
    apply Z.mod_small. lia. }
  assert (Hcl : uint32 (chunk_len t) = chunk_len t).
  { unfold uint32. apply Z.mod_small. lia. }
  unfold is_aiff_or_wav in Htype. subst final szb.
  destruct (Z.eqb_spec (Z.land sf_format SF_FORMAT_TYPEMASK) SF_FORMAT_WAV)
    as [Ew | Ew].
  - replace (Z.land sf_format SF_FORMAT_TYPEMASK =? SF_FORMAT_AIFF) with false
      by (rewrite Ew; reflexivity).
    rewrite Hsz, Hcl. reflexivity.
  - rewrite orb_false_r in Htype. rewrite Htype.
    rewrite Hsz, Hcl, !size_field_bytes by lia. reflexivity.
Qed.



End ID3Facts.

Lemma X29_ID3_chunk_layout_witness :
  exists f' : wxFFile.t,
    StudioFile.AddID3Chunk (Some StudioFile.riff) example_tags
      (Z.lor SF_FORMAT_WAV SF_FORMAT_PCM_16) = (true, Some f') /\
    Z.of_nat (length (wxFFile.bytes f')) = 24.
Proof.
  destruct (X29_ID3_chunk_layout (L := C_locale) standard_keys 0 2 (Some 8)
              StudioFile.render true StudioFile.riff example_tags
              (Z.lor SF_FORMAT_WAV SF_FORMAT_PCM_16)
              ltac:(discriminate) eq_refl
              ltac:(vm_compute; lia) ltac:(vm_compute; lia)
              ltac:(vm_compute; reflexivity))
    as (f' & Hrun & _ & Hlen).
  exists f'. split; [exact Hrun |]. rewrite Hlen. reflexivity.
Defined.
